(** * wadugs-worker-cleansing: object-storage cleansing worker

    A shallow embedding of the cascading deletion engine:
    - [Dto], [Entity]: the records of [src/dto] and [src/entity];
    - [FileService]: key derivation and the hierarchy walk of
      [src/service/file_service.go];
    - [S3Engine]: batched deletion, retry and bucket removal of the
      S3 service;
    - [Cleansing]: the orchestrator [CleansingServiceImpl].

    Collaborators (the relational repositories, the S3 client, the rate
    limiter, the clock) are answered by an oracle record; every call made
    to one of them is appended to a trace.  Logging is left out.

    The modules [ResolvedKeys], [TraceSpec] and [CallSpec] hold what the
    theorems say about a key set or a trace, [Examples] and
    [EngineExamples] concrete stores and backends; the theorems follow. *)

From Stdlib Require Import ZArith Lia Ascii.
From stdpp Require Import base option list strings pretty gmap fin_maps.

Local Open Scope string_scope.
Local Open Scope list_scope.
Local Open Scope Z_scope.

(** ** Go values *)

(** A Go [error] value that is not nil.  [fmt.Errorf(".. %w", err)] wraps
    another error; the text of an error is its [Error()] string. *)
Inductive error : Type :=
| ErrText (msg : string)
| ErrWrap (msg : string) (cause : error).

Fixpoint error_string (e : error) : string :=
  match e with
  | ErrText msg => msg
  | ErrWrap msg cause => msg +:+ error_string cause
  end.

(** A Go pair [(T, error)]. *)
Inductive result (A : Type) : Type :=
| Ok (a : A)
| Err (e : error).
Arguments Ok {A} a.
Arguments Err {A} e.

Definition is_err {A} (r : result A) : bool :=
  match r with Ok _ => false | Err _ => true end.

(** [int64] arithmetic wraps around. *)
Definition wrap64 (z : Z) : Z := (z + 2 ^ 63) mod 2 ^ 64 - 2 ^ 63.

(** ** src/dto/message.go *)
Module Dto.

Definition CleansingTypeContractor : string := "contractor".
Definition CleansingTypeProject : string := "project".
Definition CleansingTypeSite : string := "site".

Record CleansingMessage : Type := {
  msg_Type : string;
  msg_ID : Z
}.

Record CleansingResult : Type := {
  Type_ : string;
  ID : Z;
  Success : bool;
  Message : string;
  FilesDeleted : Z;
  Error : string
}.

(** [Region] and [Size] are the fields the multi-region engine and the
    usage accounting read on top of [Bucket] and [Key]. *)
Record S3Object : Type := {
  Region : string;
  Bucket : string;
  Key : string;
  Size : Z
}.

Definition IsValidType (cm : CleansingMessage) : bool :=
  if decide (msg_Type cm = CleansingTypeContractor) then true
  else if decide (msg_Type cm = CleansingTypeProject) then true
  else if decide (msg_Type cm = CleansingTypeSite) then true
  else false.

End Dto.

(** ** src/entity *)
Module Entity.

Record Project : Type := {
  project_Id : Z;
  project_Code : string
}.

Record Site : Type := {
  site_Id : Z;
  site_Code : string;
  site_ProjectId : Z
}.

Record DocumentGroup : Type := {
  group_Id : Z;
  group_Category : string;
  group_Progress : Z;
  group_ProcessedName : string
}.

Record Document : Type := {
  document_Id : Z
}.

Record File : Type := {
  file_Id : Z;
  file_Name : string
}.

End Entity.

(** ** Go's [strings] package *)

(** [strings.Split(s, sep)] for a one-byte separator: the pieces of [s]
    between the occurrences of [sep]; never the empty list. *)
Fixpoint strings_Split (s : string) (sep : ascii) : list string :=
  match s with
  | EmptyString => [EmptyString]
  | String c s' =>
      if Ascii.eqb c sep then EmptyString :: strings_Split s' sep
      else match strings_Split s' sep with
           | seg :: segs => String c seg :: segs
           | [] => [String c EmptyString]
           end
  end.

(** [strings.Join]. *)
Fixpoint strings_Join (segs : list string) (sep : string) : string :=
  match segs with
  | [] => ""
  | [seg] => seg
  | seg :: segs' => seg +:+ sep +:+ strings_Join segs' sep
  end.

Fixpoint contains_byte (c : ascii) (s : string) : bool :=
  match s with
  | EmptyString => false
  | String c' s' => Ascii.eqb c' c || contains_byte c s'
  end.

(** ** src/service/file_service.go *)
Module FileService.
Import Dto Entity.

Definition slash : ascii := "/"%char.

Definition splitNameCategories : list string :=
  ["Boundary"; "LineRoute"; "SBEST"; "SBP"; "SoilSample"; "SSS"].

Definition rasterCategories : list string :=
  ["RasterD"; "RasterO"; "Image"].

(** The object [dto.S3Object{Key: key}]: the other fields keep Go's
    zero values. *)
Definition keyObject (key : string) : S3Object :=
  {| Region := ""; Bucket := ""; Key := key; Size := 0 |}.

Definition buildS3ObjectsFromFile
    (project : Project) (site : Site) (docGroup : DocumentGroup)
    (file : File) : list S3Object :=
  let objects : list S3Object := [] in
  let needSplit : bool :=
    bool_decide (group_Category docGroup = "Boundary")
    || bool_decide (group_Category docGroup = "LineRoute")
    || bool_decide (group_Category docGroup = "SBEST")
    || bool_decide (group_Category docGroup = "SBP")
    || bool_decide (group_Category docGroup = "SoilSample")
    || bool_decide (group_Category docGroup = "SSS") in
  let basePath :=
    project_Code project +:+ "/" +:+ site_Code site +:+ "/00_Upload/" in
  let fileName :=
    if needSplit then
      match strings_Split (file_Name file) slash with
      | seg0 :: seg1 :: _ => seg0 +:+ "/Raw/" +:+ seg1
      | _ => file_Name file
      end
    else file_Name file in
  let s3Key := basePath +:+ fileName in
  objects ++ [keyObject s3Key].

Definition buildProcessedS3Objects
    (project : Project) (site : Site) (docGroup : DocumentGroup)
    : list S3Object :=
  let objects : list S3Object := [] in
  let basePath :=
    project_Code project +:+ "/" +:+ site_Code site +:+ "/01_Processed/" in
  let mainKey := basePath +:+ group_ProcessedName docGroup +:+ ".geojson" in
  let objects := objects ++ [keyObject mainKey] in
  if bool_decide (group_Category docGroup = "RasterD")
     || bool_decide (group_Category docGroup = "RasterO")
     || bool_decide (group_Category docGroup = "Image")
  then
    fold_left
      (fun objects fileType =>
         objects ++ [keyObject (basePath +:+ group_ProcessedName docGroup
                                 +:+ fileType)])
      ["_B01.tif"; "_B02.tif"; "_B03.tif"] objects
  else objects.

(** The read methods of the relational repositories the walk calls.
    Each answers from the store as it is when the walk runs. *)
Record Repositories : Type := {
  projectRepo_GetByID : Z -> result Project;
  projectRepo_GetByContractorID : Z -> result (list Project);
  siteRepo_GetByID : Z -> result Site;
  siteRepo_GetByProjectID : Z -> result (list Site);
  documentGroupRepo_GetBySiteID : Z -> result (list DocumentGroup);
  documentRepo_GetByGroupID : Z -> result (list Document);
  fileRepo_GetByDocumentID : Z -> result (list File)
}.

Section Walk.
Variable fs : Repositories.

(** The test guarding the processed files of a document group. *)
Definition hasProcessedFiles (docGroup : DocumentGroup) : bool :=
  ((group_Progress docGroup =? 40) || (group_Progress docGroup =? 11))
  && negb (bool_decide (group_ProcessedName docGroup = "")).

(** Body of [for _, document := range documents]; a failed read of the
    files is the [continue]. *)
Definition walkDocument (project : Project) (site : Site)
    (docGroup : DocumentGroup)
    (allObjects : list S3Object) (document : Document) : list S3Object :=
  match fileRepo_GetByDocumentID fs (document_Id document) with
  | Err _ => allObjects
  | Ok files =>
      fold_left
        (fun allObjects file =>
           allObjects ++ buildS3ObjectsFromFile project site docGroup file)
        files allObjects
  end.

(** Body of [for _, docGroup := range documentGroups]; the [continue]
    on a failed read of the documents leaves the loop body before the
    processed files are handled. *)
Definition walkDocGroup (project : Project) (site : Site)
    (allObjects : list S3Object) (docGroup : DocumentGroup)
    : list S3Object :=
  match documentRepo_GetByGroupID fs (group_Id docGroup) with
  | Err _ => allObjects
  | Ok documents =>
      let allObjects :=
        fold_left (walkDocument project site docGroup)
                  documents allObjects in
      if hasProcessedFiles docGroup
      then allObjects ++ buildProcessedS3Objects project site docGroup
      else allObjects
  end.

(** Body of [for _, site := range sites] in the contractor and project
    walks. *)
Definition walkSite (project : Project)
    (allObjects : list S3Object) (site : Site) : list S3Object :=
  match documentGroupRepo_GetBySiteID fs (site_Id site) with
  | Err _ => allObjects
  | Ok documentGroups =>
      fold_left (walkDocGroup project site) documentGroups allObjects
  end.

(** Body of [for _, project := range projects] in the contractor walk. *)
Definition walkProject
    (allObjects : list S3Object) (project : Project) : list S3Object :=
  match siteRepo_GetByProjectID fs (project_Id project) with
  | Err _ => allObjects
  | Ok sites => fold_left (walkSite project) sites allObjects
  end.

Definition GetContractorFiles (contractorID : Z) : result (list S3Object) :=
  let allObjects : list S3Object := [] in
  match projectRepo_GetByContractorID fs contractorID with
  | Err err =>
      Err (ErrWrap ("failed to get projects for contractor "
                      +:+ pretty contractorID +:+ ": ") err)
  | Ok projects => Ok (fold_left walkProject projects allObjects)
  end.

Definition GetProjectFiles (projectID : Z) : result (list S3Object) :=
  let allObjects : list S3Object := [] in
  match projectRepo_GetByID fs projectID with
  | Err err =>
      Err (ErrWrap ("failed to get project " +:+ pretty projectID +:+ ": ")
                   err)
  | Ok project =>
      match siteRepo_GetByProjectID fs projectID with
      | Err err =>
          Err (ErrWrap ("failed to get sites for project "
                          +:+ pretty projectID +:+ ": ") err)
      | Ok sites => Ok (fold_left (walkSite project) sites allObjects)
      end
  end.

Definition GetSiteFiles (siteID : Z) : result (list S3Object) :=
  let allObjects : list S3Object := [] in
  match siteRepo_GetByID fs siteID with
  | Err err =>
      Err (ErrWrap ("failed to get site " +:+ pretty siteID +:+ ": ") err)
  | Ok site =>
      match projectRepo_GetByID fs (site_ProjectId site) with
      | Err err =>
          Err (ErrWrap ("failed to get project "
                          +:+ pretty (site_ProjectId site)
                          +:+ " for site " +:+ pretty siteID +:+ ": ") err)
      | Ok project =>
          match documentGroupRepo_GetBySiteID fs siteID with
          | Err err =>
              Err (ErrWrap ("failed to get document groups for site "
                              +:+ pretty siteID +:+ ": ") err)
          | Ok documentGroups =>
              Ok (fold_left (walkDocGroup project site)
                            documentGroups allObjects)
          end
      end
  end.

End Walk.

End FileService.

(** ** A state monad for code that calls collaborators *)

Definition M (S A : Type) : Type := S -> A * S.

Definition ret {S A} (a : A) : M S A := fun s => (a, s).

Definition bind {S A B} (m : M S A) (k : A -> M S B) : M S B :=
  fun s => let '(a, s') := m s in k a s'.

Notation "x <- m ;; k" := (bind m (fun x => k))
  (at level 100, m at level 90, right associativity).

(** A [for .. range] loop whose body runs in the monad. *)
Fixpoint foldM {S A B} (f : A -> B -> M S A) (l : list B) (a : A) : M S A :=
  match l with
  | [] => ret a
  | b :: l' => a' <- f a b ;; foldM f l' a'
  end.

(** ** The S3 service: batched deletion, retry, bucket removal *)
Module S3Engine.
Import Dto.

Definition maxDeleteBatchSize : nat := 1000.
Definition maxConcurrentDeletes : nat := 3.
Definition maxRetries : Z := 3.

(** [time.Duration] counts nanoseconds in an [int64]. *)
Definition Millisecond : Z := 1000000.
Definition Second : Z := 1000 * Millisecond.
Definition baseDelay : Z := 100 * Millisecond.
Definition maxDelay : Z := 5 * Second.

(** Which [*s3.Client] a call goes through: [s3s.client], or the cached
    client of a region. *)
Inductive Client : Type :=
| DefaultClient
| RegionClient (region : string).

(** The calls the engine makes, in the order it makes them. *)
Inductive Event : Type :=
| EvLimiterWait
| EvLoadConfig (region : string)
| EvDeleteObjects (client : Client) (bucket : string) (keys : list string)
| EvListPage (bucket : string)
| EvDeleteBucket (bucket : string)
| EvSleep (delay : Z).

(** What [client.DeleteObjects] reports when the call itself succeeds. *)
Record DeleteObjectsOutput : Type := {
  Deleted : list string;
  Errors : list string
}.

(** The pages a [ListObjectsV2Paginator] hands out: a page either fails,
    or carries its contents and, with a continuation token, a next
    page. *)
Inductive Listing : Type :=
| PageErr (err : error)
| PageLast (contents : list string)
| PageMore (contents : list string) (next : Listing).

(** The answers of the collaborators.  An answer may depend on every
    call made so far.  [None] is a nil error. *)
Record World : Type := {
  rateLimiter_Wait : list Event -> option error;
  config_LoadDefaultConfig : list Event -> string -> option error;
  client_DeleteObjects :
    list Event -> Client -> string -> list string
    -> result DeleteObjectsOutput;
  client_DeleteBucket : list Event -> string -> option error;
  ctx_Done : list Event -> Z -> option error;
  paginator : string -> Listing
}.

(** The engine's state: the calls made so far and the region cache. *)
Record State : Type := {
  trace : list Event;
  regionClients : gset string
}.

Definition initial : State := {| trace := []; regionClients := ∅ |}.

Definition emit (e : Event) : M State unit :=
  fun s => (tt, {| trace := trace s ++ [e];
                   regionClients := regionClients s |}).

Definition history : M State (list Event) := fun s => (trace s, s).

Section Engine.
Variable w : World.

Definition Wait : M State (option error) :=
  h <- history ;;
  _ <- emit EvLimiterWait ;;
  ret (rateLimiter_Wait w h).

Definition getClientForRegion (region : string)
    : M State (result Client) :=
  if bool_decide (region = "") then ret (Ok DefaultClient)
  else fun s =>
    if bool_decide (region ∈ regionClients s)
    then (Ok (RegionClient region), s)
    else
      match config_LoadDefaultConfig w (trace s) region with
      | Some err =>
          (Err (ErrWrap ("failed to create config for region "
                           +:+ region +:+ ": ") err),
           {| trace := trace s ++ [EvLoadConfig region];
              regionClients := regionClients s |})
      | None =>
          (Ok (RegionClient region),
           {| trace := trace s ++ [EvLoadConfig region];
              regionClients := {[region]} ∪ regionClients s |})
      end.

(** [deleteBatchWithClient]; [deleteBatch] is the same code on
    [s3s.client]. *)
Definition deleteBatchWithClient (client : Client) (bucket : string)
    (objects : list S3Object) : M State (nat * option error) :=
  if bool_decide (length objects = 0%nat) then ret (0%nat, None)
  else
    let deleteObjects := map Key objects in
    h <- history ;;
    _ <- emit (EvDeleteObjects client bucket deleteObjects) ;;
    match client_DeleteObjects w h client bucket deleteObjects with
    | Err err => ret (0%nat, Some (ErrWrap "failed to delete objects: " err))
    | Ok output => ret (length (Deleted output), None)
    end.

Definition deleteBatch (bucket : string) (objects : list S3Object)
    : M State (nat * option error) :=
  deleteBatchWithClient DefaultClient bucket objects.

(** The Go slice [objects[i:end]]. *)
Definition slice {A} (l : list A) (i end_ : nat) : list A :=
  take (end_ - i) (drop i l).

(** [for i := 0; i < len(objects); i += maxDeleteBatchSize] around one
    batch call [call].  [fuel] bounds the iterations; [length objects]
    of it is never used up (lemma [batchLoop_fuel]). *)
Fixpoint batchLoop (call : list S3Object -> M State (nat * option error))
    (objects : list S3Object) (fuel : nat) (i : nat) (totalDeleted : nat)
    : M State (nat * option error) :=
  match fuel with
  | O => ret (totalDeleted, None)
  | S fuel' =>
      if bool_decide (i < length objects)%nat then
        let end_ := (i + maxDeleteBatchSize)%nat in
        let end_ := if bool_decide (length objects < end_)%nat
                    then length objects else end_ in
        let batch := slice objects i end_ in
        r <- call batch ;;
        match r with
        | (deleted, Some err) => ret (totalDeleted, Some err)
        | (deleted, None) =>
            batchLoop call objects fuel' (i + maxDeleteBatchSize)%nat
                      (totalDeleted + deleted)%nat
        end
      else ret (totalDeleted, None)
  end.

Definition deleteBucketObjectsWithClient (client : Client)
    (bucket : string) (objects : list S3Object)
    : M State (nat * option error) :=
  batchLoop (deleteBatchWithClient client bucket) objects
            (length objects) 0 0.

(** The [map[string]map[string][]dto.S3Object] built by the grouping
    loop of [DeleteObjects]. *)
Definition groupObjects (objects : list S3Object)
    : gmap string (gmap string (list S3Object)) :=
  fold_left
    (fun regionBucketObjects obj =>
       let region := Region obj in
       let bucketObjects :=
         default ∅ (regionBucketObjects !! region) in
       <[region :=
           <[Bucket obj :=
               default [] (bucketObjects !! Bucket obj) ++ [obj]]>
           bucketObjects]> regionBucketObjects)
    objects ∅.

(** What [g.Wait()] returns: the first error a goroutine returned. *)
Definition firstError (groupErr : option error) (err : error)
    : option error :=
  match groupErr with
  | Some _ => groupErr
  | None => Some err
  end.

(** The function handed to [g.Go] for one (region, bucket) partition,
    acting on [totalDeleted] and on the group's error. *)
Definition goroutine (region bucket : string)
    (bucketObjs : list S3Object) (acc : nat * option error)
    : M State (nat * option error) :=
  let '(totalDeleted, groupErr) := acc in
  c <- getClientForRegion region ;;
  match c with
  | Err err =>
      ret (totalDeleted,
           firstError groupErr
             (ErrWrap ("failed to get S3 client for region "
                         +:+ region +:+ ": ") err))
  | Ok client =>
      r <- deleteBucketObjectsWithClient client bucket bucketObjs ;;
      match r with
      | (deleted, Some err) =>
          ret (totalDeleted,
               firstError groupErr
                 (ErrWrap ("failed to delete objects in bucket "
                             +:+ bucket +:+ " (region " +:+ region
                             +:+ "): ") err))
      | (deleted, None) => ret ((totalDeleted + deleted)%nat, groupErr)
      end
  end.

(** [DeleteObjects].  The goroutines are run one after the other, in
    the order [map_to_list] walks the two maps: one of the schedules
    Go allows (it fixes neither the order of a map nor how goroutines
    interleave). *)
Definition DeleteObjects (objects : list S3Object)
    : M State (nat * option error) :=
  if bool_decide (length objects = 0%nat) then ret (0%nat, None)
  else
    let regionBucketObjects := groupObjects objects in
    foldM
      (fun acc rb =>
         foldM (fun acc bo => goroutine rb.1 bo.1 bo.2 acc)
               (map_to_list rb.2) acc)
      (map_to_list regionBucketObjects) (0%nat, None).

(** [time.Duration(attempt+1) * baseDelay], cut at [maxDelay]. *)
Definition backoffDelay (attempt : Z) : Z :=
  let delay := wrap64 (wrap64 (attempt + 1) * baseDelay) in
  if maxDelay <? delay then maxDelay else delay.

Definition attemptsExhausted (what : string) (lastErr : option error)
    : error :=
  let msg := what +:+ " failed after " +:+ pretty (maxRetries + 1)
                  +:+ " attempts: " in
  match lastErr with
  | Some err => ErrWrap msg err
  | None => ErrText (msg +:+ "%!w(<nil>)")
  end.

(** [for attempt := 0; attempt <= maxRetries; attempt++] of
    [deleteBatchWithRetry]. *)
Fixpoint batchRetryLoop (bucket : string) (objects : list S3Object)
    (fuel : nat) (attempt : Z) (lastErr : option error)
    : M State (nat * option error) :=
  match fuel with
  | O => ret (0%nat, Some (attemptsExhausted "batch delete" lastErr))
  | S fuel' =>
      if attempt <=? maxRetries then
        e <- Wait ;;
        match e with
        | Some err =>
            ret (0%nat,
                 Some (ErrWrap "rate limiter context cancelled: " err))
        | None =>
            r <- deleteBatch bucket objects ;;
            match r with
            | (deleted, None) => ret (deleted, None)
            | (_, Some err) =>
                let lastErr := Some err in
                if attempt =? maxRetries then
                  ret (0%nat,
                       Some (attemptsExhausted "batch delete" lastErr))
                else
                  let delay := backoffDelay attempt in
                  h <- history ;;
                  _ <- emit (EvSleep delay) ;;
                  match ctx_Done w h delay with
                  | Some ctxErr => ret (0%nat, Some ctxErr)
                  | None =>
                      batchRetryLoop bucket objects fuel'
                                     (attempt + 1) lastErr
                  end
            end
        end
      else ret (0%nat, Some (attemptsExhausted "batch delete" lastErr))
  end.

Definition deleteBatchWithRetry (bucket : string)
    (objects : list S3Object) : M State (nat * option error) :=
  batchRetryLoop bucket objects (Z.to_nat (maxRetries + 1)) 0 None.

Definition deleteBucketObjectsOptimized (bucket : string)
    (objects : list S3Object) : M State (nat * option error) :=
  if bool_decide (length objects = 0%nat) then ret (0%nat, None)
  else batchLoop (deleteBatchWithRetry bucket) objects
                 (length objects) 0 0.

(** [deleteBucketWithRetry]: the same loop around [client.DeleteBucket]. *)
Fixpoint bucketRetryLoop (bucketName : string)
    (fuel : nat) (attempt : Z) (lastErr : option error)
    : M State (option error) :=
  match fuel with
  | O => ret (Some (attemptsExhausted "bucket deletion" lastErr))
  | S fuel' =>
      if attempt <=? maxRetries then
        e <- Wait ;;
        match e with
        | Some err =>
            ret (Some (ErrWrap "rate limiter context cancelled: " err))
        | None =>
            h <- history ;;
            _ <- emit (EvDeleteBucket bucketName) ;;
            match client_DeleteBucket w h bucketName with
            | None => ret None
            | Some err =>
                let lastErr := Some err in
                if attempt =? maxRetries then
                  ret (Some (attemptsExhausted "bucket deletion" lastErr))
                else
                  let delay := backoffDelay attempt in
                  h <- history ;;
                  _ <- emit (EvSleep delay) ;;
                  match ctx_Done w h delay with
                  | Some ctxErr => ret (Some ctxErr)
                  | None =>
                      bucketRetryLoop bucketName fuel'
                                      (attempt + 1) lastErr
                  end
            end
        end
      else ret (Some (attemptsExhausted "bucket deletion" lastErr))
  end.

Definition deleteBucketWithRetry (bucketName : string)
    : M State (option error) :=
  bucketRetryLoop bucketName (Z.to_nat (maxRetries + 1)) 0 None.

(** The part of the paging loop's body that follows [NextPage]. *)
Definition deletePage (bucketName : string) (contents : list string)
    : M State (option error) :=
  if bool_decide (length contents = 0%nat) then ret None
  else
    let objects :=
      map (fun key => {| Region := ""; Bucket := bucketName;
                         Key := key; Size := 0 |}) contents in
    r <- deleteBucketObjectsOptimized bucketName objects ;;
    match r with
    | (_, Some err) =>
        ret (Some (ErrWrap ("failed to delete batch of "
                              +:+ pretty (length objects)
                              +:+ " objects: ") err))
    | (_, None) => ret None
    end.

(** [for paginator.HasMorePages()]: entered with a page still to be
    fetched. *)
Fixpoint pageLoop (bucketName : string) (pages : Listing)
    : M State (option error) :=
  e <- Wait ;;
  match e with
  | Some err => ret (Some (ErrWrap "rate limiter context cancelled: " err))
  | None =>
      _ <- emit (EvListPage bucketName) ;;
      match pages with
      | PageErr err =>
          ret (Some (ErrWrap "failed to list objects page: " err))
      | PageLast contents => deletePage bucketName contents
      | PageMore contents next =>
          e <- deletePage bucketName contents ;;
          match e with
          | Some err => ret (Some err)
          | None => pageLoop bucketName next
          end
      end
  end.

Definition deleteAllObjectsInBucket (bucketName : string)
    : M State (option error) :=
  pageLoop bucketName (paginator w bucketName).

Definition DeleteBucket (bucketName : string) : M State (option error) :=
  err <- deleteAllObjectsInBucket bucketName ;;
  match err with
  | Some err =>
      ret (Some (ErrWrap ("failed to delete objects in bucket "
                            +:+ bucketName +:+ ": ") err))
  | None =>
      err <- deleteBucketWithRetry bucketName ;;
      match err with
      | Some err =>
          ret (Some (ErrWrap ("failed to delete bucket "
                                +:+ bucketName +:+ ": ") err))
      | None => ret None
      end
  end.

End Engine.
End S3Engine.

(** ** The orchestrator: [CleansingServiceImpl] *)
Module Cleansing.
Import Dto Entity.

(** The calls the orchestrator makes on its collaborators: the
    [S3Service] and the six repositories. *)
Inductive Call : Type :=
| S3_ListContractorFiles (contractorID : Z)
| S3_ListProjectFiles (projectID : Z)
| S3_ListSiteFiles (siteID : Z)
| S3_DeleteObjects (objects : list S3Object)
| Project_GetByContractorID (contractorID : Z)
| Project_UpdateProjectUsage (projectID sizeDelta : Z)
| Project_HardDelete (id : Z)
| Project_HardDeleteByContractorID (contractorID : Z)
| Site_GetByID (id : Z)
| Site_GetByProjectID (projectID : Z)
| Site_HardDelete (id : Z)
| Site_HardDeleteByProjectID (projectID : Z)
| DocumentGroup_HardDeleteBySiteID (siteID : Z)
| Document_HardDeleteBySiteID (siteID : Z)
| File_HardDeleteBySiteID (siteID : Z)
| Contractor_Delete (id : Z).

(** The collaborators' answers; each may depend on the calls made so
    far.  [None] is a nil error. *)
Record Collaborators : Type := {
  s3Service_ListContractorFiles : list Call -> Z -> result (list S3Object);
  s3Service_ListProjectFiles : list Call -> Z -> result (list S3Object);
  s3Service_ListSiteFiles : list Call -> Z -> result (list S3Object);
  s3Service_DeleteObjects : list Call -> list S3Object -> Z * option error;
  projectRepo_GetByContractorID : list Call -> Z -> result (list Project);
  projectRepo_UpdateProjectUsage : list Call -> Z -> Z -> option error;
  projectRepo_HardDelete : list Call -> Z -> option error;
  projectRepo_HardDeleteByContractorID : list Call -> Z -> option error;
  siteRepo_GetByID : list Call -> Z -> result Site;
  siteRepo_GetByProjectID : list Call -> Z -> result (list Site);
  siteRepo_HardDelete : list Call -> Z -> option error;
  siteRepo_HardDeleteByProjectID : list Call -> Z -> option error;
  documentGroupRepo_HardDeleteBySiteID : list Call -> Z -> option error;
  documentRepo_HardDeleteBySiteID : list Call -> Z -> option error;
  fileRepo_HardDeleteBySiteID : list Call -> Z -> option error;
  contractorRepo_Delete : list Call -> Z -> option error
}.

(** One call: the answer is taken at the history before the call, and
    the call is recorded. *)
Definition ask {A} (c : Call) (answer : list Call -> A) : M (list Call) A :=
  fun h => (answer h, h ++ [c]).

Definition newResult (type : string) (id : Z) : CleansingResult :=
  {| Type_ := type; ID := id; Success := false; Message := "";
     FilesDeleted := 0; Error := "" |}.

Definition set_Error (r : CleansingResult) (e : string) : CleansingResult :=
  {| Type_ := Type_ r; ID := ID r; Success := Success r;
     Message := Message r; FilesDeleted := FilesDeleted r; Error := e |}.

Definition set_FilesDeleted (r : CleansingResult) (n : Z) : CleansingResult :=
  {| Type_ := Type_ r; ID := ID r; Success := Success r;
     Message := Message r; FilesDeleted := n; Error := Error r |}.

Definition set_Success (r : CleansingResult) (b : bool) : CleansingResult :=
  {| Type_ := Type_ r; ID := ID r; Success := b;
     Message := Message r; FilesDeleted := FilesDeleted r;
     Error := Error r |}.

(** [for _, obj := range s3Objects { totalSize += obj.Size }] *)
Definition sumSizes (s3Objects : list S3Object) : Z :=
  fold_left (fun totalSize obj => wrap64 (totalSize + Size obj)) s3Objects 0.

Definition calculateSizeForDeletedFiles (s3Objects : list S3Object)
    (deletedCount : Z) : Z :=
  sumSizes (take (Z.to_nat deletedCount) s3Objects).

Section Service.
Variable cs : Collaborators.

Definition failWith (result : CleansingResult) (what : string)
    (err : error) : CleansingResult * option error :=
  (set_Error result (what +:+ error_string err), Some err).

(** The three hard deletes every cascade runs for one site; here a
    failure is only logged. *)
Definition cascadeSiteRows (site : Site) : M (list Call) unit :=
  _ <- ask (File_HardDeleteBySiteID (site_Id site))
           (fun h => fileRepo_HardDeleteBySiteID cs h (site_Id site)) ;;
  _ <- ask (Document_HardDeleteBySiteID (site_Id site))
           (fun h => documentRepo_HardDeleteBySiteID cs h (site_Id site)) ;;
  _ <- ask (DocumentGroup_HardDeleteBySiteID (site_Id site))
           (fun h => documentGroupRepo_HardDeleteBySiteID cs h
                       (site_Id site)) ;;
  ret tt.

Definition DeleteContractorFiles (contractorID : Z)
    : M (list Call) (CleansingResult * option error) :=
  let result := newResult CleansingTypeContractor contractorID in
  l <- ask (S3_ListContractorFiles contractorID)
           (fun h => s3Service_ListContractorFiles cs h contractorID) ;;
  match l with
  | Err err => ret (failWith result "failed to list contractor files: " err)
  | Ok s3Objects =>
  d <- ask (S3_DeleteObjects s3Objects)
           (fun h => s3Service_DeleteObjects cs h s3Objects) ;;
  match d with
  | (deletedCount, Some err) =>
      let result :=
        set_Error result ("failed to delete contractor files: "
                            +:+ error_string err) in
      ret (set_FilesDeleted result deletedCount, Some err)
  | (deletedCount, None) =>
  p <- ask (Project_GetByContractorID contractorID)
           (fun h => projectRepo_GetByContractorID cs h contractorID) ;;
  match p with
  | Err err =>
      let result :=
        set_Error result ("failed to get projects for contractor: "
                            +:+ error_string err) in
      ret (set_FilesDeleted result deletedCount, Some err)
  | Ok projects =>
  _ <- foldM
         (fun (_ : unit) project =>
            s <- ask (Site_GetByProjectID (project_Id project))
                     (fun h => siteRepo_GetByProjectID cs h
                                 (project_Id project)) ;;
            match s with
            | Err _ => ret tt
            | Ok sites =>
                _ <- foldM (fun (_ : unit) site => cascadeSiteRows site)
                           sites tt ;;
                _ <- ask (Site_HardDeleteByProjectID (project_Id project))
                         (fun h => siteRepo_HardDeleteByProjectID cs h
                                     (project_Id project)) ;;
                ret tt
            end)
         projects tt ;;
  e <- ask (Project_HardDeleteByContractorID contractorID)
           (fun h => projectRepo_HardDeleteByContractorID cs h
                       contractorID) ;;
  match e with
  | Some err =>
      let result :=
        set_Error result ("failed to delete project records: "
                            +:+ error_string err) in
      ret (set_FilesDeleted result deletedCount, Some err)
  | None =>
  e <- ask (Contractor_Delete contractorID)
           (fun h => contractorRepo_Delete cs h contractorID) ;;
  match e with
  | Some err =>
      let result :=
        set_Error result ("failed to delete contractor record: "
                            +:+ error_string err) in
      ret (set_FilesDeleted result deletedCount, Some err)
  | None =>
      let result := set_Success result true in
      ret (set_FilesDeleted result deletedCount, None)
  end end end end end.

Definition DeleteProjectFiles (projectID : Z)
    : M (list Call) (CleansingResult * option error) :=
  let result := newResult CleansingTypeProject projectID in
  l <- ask (S3_ListProjectFiles projectID)
           (fun h => s3Service_ListProjectFiles cs h projectID) ;;
  match l with
  | Err err => ret (failWith result "failed to list project files: " err)
  | Ok s3Objects =>
  d <- ask (S3_DeleteObjects s3Objects)
           (fun h => s3Service_DeleteObjects cs h s3Objects) ;;
  match d with
  | (deletedCount, Some err) =>
      let result :=
        set_Error result ("failed to delete project files: "
                            +:+ error_string err) in
      let result := set_FilesDeleted result deletedCount in
      if 0 <? deletedCount then
        let deletedSize :=
          calculateSizeForDeletedFiles s3Objects deletedCount in
        _ <- ask (Project_UpdateProjectUsage projectID
                    (wrap64 (- deletedSize)))
                 (fun h => projectRepo_UpdateProjectUsage cs h projectID
                             (wrap64 (- deletedSize))) ;;
        ret (result, Some err)
      else ret (result, Some err)
  | (deletedCount, None) =>
  let totalSize := sumSizes s3Objects in
  _ <- ask (Project_UpdateProjectUsage projectID (wrap64 (- totalSize)))
           (fun h => projectRepo_UpdateProjectUsage cs h projectID
                       (wrap64 (- totalSize))) ;;
  s <- ask (Site_GetByProjectID projectID)
           (fun h => siteRepo_GetByProjectID cs h projectID) ;;
  match s with
  | Err err =>
      let result :=
        set_Error result ("failed to get sites for project: "
                            +:+ error_string err) in
      ret (set_FilesDeleted result deletedCount, Some err)
  | Ok sites =>
  _ <- foldM (fun (_ : unit) site => cascadeSiteRows site) sites tt ;;
  e <- ask (Site_HardDeleteByProjectID projectID)
           (fun h => siteRepo_HardDeleteByProjectID cs h projectID) ;;
  match e with
  | Some err =>
      let result :=
        set_Error result ("failed to delete site records: "
                            +:+ error_string err) in
      ret (set_FilesDeleted result deletedCount, Some err)
  | None =>
  e <- ask (Project_HardDelete projectID)
           (fun h => projectRepo_HardDelete cs h projectID) ;;
  match e with
  | Some err =>
      let result :=
        set_Error result ("failed to delete project record: "
                            +:+ error_string err) in
      ret (set_FilesDeleted result deletedCount, Some err)
  | None =>
      let result := set_Success result true in
      ret (set_FilesDeleted result deletedCount, None)
  end end end end end.

Definition DeleteSiteFiles (siteID : Z)
    : M (list Call) (CleansingResult * option error) :=
  let result := newResult CleansingTypeSite siteID in
  s <- ask (Site_GetByID siteID) (fun h => siteRepo_GetByID cs h siteID) ;;
  match s with
  | Err err => ret (failWith result "failed to get site information: " err)
  | Ok site =>
  l <- ask (S3_ListSiteFiles siteID)
           (fun h => s3Service_ListSiteFiles cs h siteID) ;;
  match l with
  | Err err => ret (failWith result "failed to list site files: " err)
  | Ok s3Objects =>
  d <- ask (S3_DeleteObjects s3Objects)
           (fun h => s3Service_DeleteObjects cs h s3Objects) ;;
  match d with
  | (deletedCount, Some err) =>
      let result :=
        set_Error result ("failed to delete site files: "
                            +:+ error_string err) in
      ret (set_FilesDeleted result deletedCount, Some err)
  | (deletedCount, None) =>
  let totalSize := sumSizes s3Objects in
  _ <- ask (Project_UpdateProjectUsage (site_ProjectId site)
              (wrap64 (- totalSize)))
           (fun h => projectRepo_UpdateProjectUsage cs h
                       (site_ProjectId site) (wrap64 (- totalSize))) ;;
  e <- ask (File_HardDeleteBySiteID siteID)
           (fun h => fileRepo_HardDeleteBySiteID cs h siteID) ;;
  match e with
  | Some err =>
      let result :=
        set_Error result ("failed to delete file records: "
                            +:+ error_string err) in
      ret (set_FilesDeleted result deletedCount, Some err)
  | None =>
  e <- ask (Document_HardDeleteBySiteID siteID)
           (fun h => documentRepo_HardDeleteBySiteID cs h siteID) ;;
  match e with
  | Some err =>
      let result :=
        set_Error result ("failed to delete document records: "
                            +:+ error_string err) in
      ret (set_FilesDeleted result deletedCount, Some err)
  | None =>
  e <- ask (DocumentGroup_HardDeleteBySiteID siteID)
           (fun h => documentGroupRepo_HardDeleteBySiteID cs h siteID) ;;
  match e with
  | Some err =>
      let result :=
        set_Error result ("failed to delete document group records: "
                            +:+ error_string err) in
      ret (set_FilesDeleted result deletedCount, Some err)
  | None =>
  e <- ask (Site_HardDelete siteID)
           (fun h => siteRepo_HardDelete cs h siteID) ;;
  match e with
  | Some err =>
      let result :=
        set_Error result ("failed to delete site record: "
                            +:+ error_string err) in
      ret (set_FilesDeleted result deletedCount, Some err)
  | None =>
      let result := set_Success result true in
      ret (set_FilesDeleted result deletedCount, None)
  end end end end end end end.

Definition ProcessCleansingMessage (message : CleansingMessage)
    : M (list Call) (CleansingResult * option error) :=
  if negb (IsValidType message) then
    ret (set_Error (newResult (msg_Type message) (msg_ID message))
                   ("invalid cleansing type: " +:+ msg_Type message),
         Some (ErrText ("invalid cleansing type: " +:+ msg_Type message)))
  else if bool_decide (msg_Type message = CleansingTypeContractor) then
    DeleteContractorFiles (msg_ID message)
  else if bool_decide (msg_Type message = CleansingTypeProject) then
    DeleteProjectFiles (msg_ID message)
  else if bool_decide (msg_Type message = CleansingTypeSite) then
    DeleteSiteFiles (msg_ID message)
  else
    ret (set_Error (newResult (msg_Type message) (msg_ID message))
                   ("unsupported cleansing type: " +:+ msg_Type message),
         Some (ErrText ("unsupported cleansing type: "
                          +:+ msg_Type message))).

End Service.
End Cleansing.

(** ** The key set a walk is to return

    The resolver's contract in the spec's words: a branch whose children
    cannot be read is skipped, every other branch contributes its keys.
    The walks of [FileService] are compared with these definitions. *)
Module ResolvedKeys.
Import Dto Entity FileService.

Section Keys.
Variable fs : Repositories.

Definition documentKeys (project : Project) (site : Site)
    (docGroup : DocumentGroup) (document : Document) : list S3Object :=
  match fileRepo_GetByDocumentID fs (document_Id document) with
  | Err _ => []
  | Ok files => flat_map (buildS3ObjectsFromFile project site docGroup) files
  end.

Definition processedKeys (project : Project) (site : Site)
    (docGroup : DocumentGroup) : list S3Object :=
  if hasProcessedFiles docGroup
  then buildProcessedS3Objects project site docGroup
  else [].

Definition docGroupKeys (project : Project) (site : Site)
    (docGroup : DocumentGroup) : list S3Object :=
  match documentRepo_GetByGroupID fs (group_Id docGroup) with
  | Err _ => []
  | Ok documents =>
      flat_map (documentKeys project site docGroup) documents
      ++ processedKeys project site docGroup
  end.

Definition siteKeys (project : Project) (site : Site) : list S3Object :=
  match documentGroupRepo_GetBySiteID fs (site_Id site) with
  | Err _ => []
  | Ok documentGroups => flat_map (docGroupKeys project site) documentGroups
  end.

Definition projectKeys (project : Project) : list S3Object :=
  match siteRepo_GetByProjectID fs (project_Id project) with
  | Err _ => []
  | Ok sites => flat_map (siteKeys project) sites
  end.
End Keys.
End ResolvedKeys.

(** ** Example inputs *)
Module Examples.
Import Dto Entity.

Definition notFound {A} : result A := Err (ErrText "record not found").

Definition c8_project : Project := {| project_Id := 1; project_Code := "PRJ" |}.
Definition c8_site : Site :=
  {| site_Id := 42; site_Code := "ST01"; site_ProjectId := 1 |}.
Definition c8_group : DocumentGroup :=
  {| group_Id := 5; group_Category := "SBP"; group_Progress := 1;
     group_ProcessedName := "" |}.
Definition c8_file : File :=
  {| file_Id := 9; file_Name := "line7/a.sgy" |}.

(** A store in which site 42 of project 1 has one document group, with
    category RasterD, progress 40 and processed name "dem"; the
    documents of that group cannot be read. *)
Definition c9_group : DocumentGroup :=
  {| group_Id := 5; group_Category := "RasterD"; group_Progress := 40;
     group_ProcessedName := "dem" |}.

Definition c9_repos : FileService.Repositories :=
  {| FileService.projectRepo_GetByID :=
       fun id => if id =? 1 then Ok c8_project else notFound;
     FileService.projectRepo_GetByContractorID := fun _ => notFound;
     FileService.siteRepo_GetByID :=
       fun id => if id =? 42 then Ok c8_site else notFound;
     FileService.siteRepo_GetByProjectID := fun _ => notFound;
     FileService.documentGroupRepo_GetBySiteID :=
       fun id => if id =? 42 then Ok [c9_group] else notFound;
     FileService.documentRepo_GetByGroupID :=
       fun _ => Err (ErrText "connection reset");
     FileService.fileRepo_GetByDocumentID := fun _ => notFound |}.

(** The same group in a store whose reads all succeed: one document
    with one file. *)
Definition c9_repos_ok : FileService.Repositories :=
  {| FileService.projectRepo_GetByID :=
       fun id => if id =? 1 then Ok c8_project else notFound;
     FileService.projectRepo_GetByContractorID := fun _ => notFound;
     FileService.siteRepo_GetByID :=
       fun id => if id =? 42 then Ok c8_site else notFound;
     FileService.siteRepo_GetByProjectID := fun _ => notFound;
     FileService.documentGroupRepo_GetBySiteID :=
       fun id => if id =? 42 then Ok [c9_group] else notFound;
     FileService.documentRepo_GetByGroupID :=
       fun id => if id =? 5 then Ok [{| document_Id := 8 |}] else notFound;
     FileService.fileRepo_GetByDocumentID :=
       fun id => if id =? 8
                 then Ok [{| file_Id := 9; file_Name := "dem.tif" |}]
                 else notFound |}.

(** A store in which the document groups of site 42 cannot be read. *)
Definition c7_repos_site : FileService.Repositories :=
  {| FileService.projectRepo_GetByID :=
       fun id => if id =? 1 then Ok c8_project else notFound;
     FileService.projectRepo_GetByContractorID := fun _ => notFound;
     FileService.siteRepo_GetByID :=
       fun id => if id =? 42 then Ok c8_site else notFound;
     FileService.siteRepo_GetByProjectID := fun _ => notFound;
     FileService.documentGroupRepo_GetBySiteID :=
       fun _ => Err (ErrText "connection reset");
     FileService.documentRepo_GetByGroupID := fun _ => notFound;
     FileService.fileRepo_GetByDocumentID := fun _ => notFound |}.

(** Contractor 7 owns projects 1 and 2.  The sites of project 2 cannot
    be read; project 1 has site 42 with one group, one document and one
    file. *)
Definition c7_project2 : Project :=
  {| project_Id := 2; project_Code := "PRJ2" |}.

Definition c7_repos : FileService.Repositories :=
  {| FileService.projectRepo_GetByID :=
       fun id => if id =? 1 then Ok c8_project else notFound;
     FileService.projectRepo_GetByContractorID :=
       fun id => if id =? 7 then Ok [c7_project2; c8_project] else notFound;
     FileService.siteRepo_GetByID :=
       fun id => if id =? 42 then Ok c8_site else notFound;
     FileService.siteRepo_GetByProjectID :=
       fun id => if id =? 1 then Ok [c8_site]
                 else Err (ErrText "connection reset");
     FileService.documentGroupRepo_GetBySiteID :=
       fun id => if id =? 42 then Ok [c8_group] else notFound;
     FileService.documentRepo_GetByGroupID :=
       fun id => if id =? 5 then Ok [{| document_Id := 8 |}] else notFound;
     FileService.fileRepo_GetByDocumentID :=
       fun id => if id =? 8 then Ok [c8_file] else notFound |}.

End Examples.

(** ** Example worlds for the S3 engine *)
Module EngineExamples.
Import Dto S3Engine.

Definition isDeleteObjects (e : Event) : bool :=
  match e with EvDeleteObjects _ _ _ => true | _ => false end.

Definition isSleep (e : Event) : option Z :=
  match e with EvSleep delay => Some delay | _ => None end.

(** [n] objects of one bucket in the default region. *)
Definition objectsOf (bucket : string) (n : nat) : list S3Object :=
  map (fun i => {| Region := ""; Bucket := bucket;
                   Key := "k" +:+ pretty i; Size := 1 |})
      (seq 0 n).

Definition allDeleted (keys : list string) : result DeleteObjectsOutput :=
  Ok {| Deleted := keys; Errors := [] |}.

Definition accessDenied {A} : result A := Err (ErrText "AccessDenied").

(** A backend that serves the first [k] batch calls and rejects every
    later one; limiter, configuration and context never fail. *)
Definition failAfter (k : nat) : World :=
  {| rateLimiter_Wait := fun _ => None;
     config_LoadDefaultConfig := fun _ _ => None;
     client_DeleteObjects :=
       fun h _ _ keys =>
         if bool_decide (length (filter isDeleteObjects h) < k)%nat
         then allDeleted keys else accessDenied;
     client_DeleteBucket := fun _ _ => None;
     ctx_Done := fun _ _ => None;
     paginator := fun _ => PageLast [] |}.

(** A backend that accepts every batch-delete call and reports every
    key of it as failed (the per-key [Errors] of the response), and that
    refuses to remove a bucket, as S3 does for one that is not empty.
    Every bucket lists one page with the keys "a" and "b". *)
Definition perKeyFailures : World :=
  {| rateLimiter_Wait := fun _ => None;
     config_LoadDefaultConfig := fun _ _ => None;
     client_DeleteObjects :=
       fun _ _ _ keys => Ok {| Deleted := []; Errors := keys |};
     client_DeleteBucket := fun _ _ => Some (ErrText "BucketNotEmpty");
     ctx_Done := fun _ _ => None;
     paginator := fun _ => PageLast ["a"; "b"] |}.

End EngineExamples.

(** ** Observations on an engine trace *)
Module TraceSpec.
Import Dto S3Engine.

Global Instance Client_eq_dec : EqDecision Client.
Proof. solve_decision. Defined.

(** The client [getClientForRegion] hands out for a region. *)
Definition clientOf (region : string) : Client :=
  if bool_decide (region = "") then DefaultClient else RegionClient region.

(** A backend batch-delete call of the partition ([client], [bucket]). *)
Definition partitionCall (client : Client) (bucket : string) (e : Event)
    : Prop :=
  match e with
  | EvDeleteObjects c b _ => c = client /\ b = bucket
  | _ => False
  end.

Global Instance partitionCall_dec client bucket e :
  Decision (partitionCall client bucket e).
Proof. destruct e; simpl; apply _. Defined.

(** The objects of a key list that fall into one partition. *)
Definition inPartition (region bucket : string) (obj : S3Object) : Prop :=
  Region obj = region /\ Bucket obj = bucket.

Global Instance inPartition_dec region bucket obj :
  Decision (inPartition region bucket obj).
Proof. unfold inPartition. apply _. Defined.

(** [ceil(n / d)], as integer division. *)
Definition ceilDiv (n d : nat) : nat := ((n + d - 1) / d)%nat.

(** A batch call of the partition with 1 to 1000 keys. *)
Definition batchEvent (client : Client) (bucket : string) (e : Event)
    : Prop :=
  exists keys,
    e = EvDeleteObjects client bucket keys
    /\ (1 <= length keys <= maxDeleteBatchSize)%nat.

(** What a run issued for one partition of [objs]: batch calls of 1 to
    1000 keys, at most [ceil(M/1000)] of them, and exactly that many
    when [complete]. *)
Definition issued (client : Client) (bucket : string)
    (objs : list S3Object) (complete : Prop) (evs : list Event) : Prop :=
  let calls := filter (partitionCall client bucket) evs in
  Forall (batchEvent client bucket) calls
  /\ (length calls <= ceilDiv (length objs) maxDeleteBatchSize)%nat
  /\ (complete ->
      length calls = ceilDiv (length objs) maxDeleteBatchSize).

(** A run that only added calls of a given kind to the trace. *)
Definition extends_with (P : Event -> Prop) (st st' : State)
    (new : list Event) : Prop :=
  trace st' = trace st ++ new /\ Forall P new.

(** The calls [DeleteBucket] makes while it empties the bucket ... *)
Definition objectPhaseEvent (bucket : string) (e : Event) : Prop :=
  match e with
  | EvLimiterWait | EvSleep _ => True
  | EvListPage b => b = bucket
  | EvDeleteObjects c b _ => c = DefaultClient /\ b = bucket
  | EvDeleteBucket _ | EvLoadConfig _ => False
  end.

(** ... and the calls of the bucket removal itself. *)
Definition removalPhaseEvent (bucket : string) (e : Event) : Prop :=
  match e with
  | EvLimiterWait | EvSleep _ => True
  | EvDeleteBucket b => b = bucket
  | EvListPage _ | EvDeleteObjects _ _ _ | EvLoadConfig _ => False
  end.

(** The calls of the retry loop from attempt [attempt] on, around one
    backend call [call]: a limiter acquisition before every call, a
    backoff wait after every call but the last, and no attempt after
    attempt [maxRetries]. *)
Inductive retryTrace (call : Event) : Z -> list Event -> Prop :=
| retry_limiter attempt :
    retryTrace call attempt [EvLimiterWait]
| retry_last attempt :
    retryTrace call attempt [EvLimiterWait; call]
| retry_cancelled attempt :
    attempt < maxRetries ->
    retryTrace call attempt
      [EvLimiterWait; call; EvSleep (backoffDelay attempt)]
| retry_again attempt rest :
    attempt < maxRetries ->
    retryTrace call (attempt + 1) rest ->
    retryTrace call attempt
      ([EvLimiterWait; call; EvSleep (backoffDelay attempt)] ++ rest).

(** Every key the paginator lists, page after page. *)
Fixpoint listedKeys (pages : Listing) : list string :=
  match pages with
  | PageErr _ => []
  | PageLast contents => contents
  | PageMore contents next => contents ++ listedKeys next
  end.

(** The number of objects the backend confirmed as deleted in answer to
    the call [e], made at history [h]. *)
Definition confirmedBy (w : World) (h : list Event) (e : Event) : nat :=
  match e with
  | EvDeleteObjects client bucket keys =>
      match client_DeleteObjects w h client bucket keys with
      | Ok output => length (Deleted output)
      | Err _ => 0%nat
      end
  | _ => 0%nat
  end.

(** ... and in answer to the calls [new] made from history [h] on. *)
Fixpoint confirmed (w : World) (h : list Event) (new : list Event) : nat :=
  match new with
  | [] => 0%nat
  | e :: new' => (confirmedBy w h e + confirmed w (h ++ [e]) new')%nat
  end.

(** The calls [DeleteObjects] makes: configuration loads for new regions
    and batch deletes. *)
Definition deleteObjectsEvent (e : Event) : Prop :=
  match e with
  | EvLoadConfig _ | EvDeleteObjects _ _ _ => True
  | _ => False
  end.

(** A call that reaches the storage backend. *)
Definition isBackendCall (e : Event) : Prop :=
  match e with
  | EvDeleteObjects _ _ _ | EvListPage _ | EvDeleteBucket _ => True
  | _ => False
  end.

(** Every backend call of [new] comes right after a rate-limiter
    acquisition. *)
Definition rateLimited (new : list Event) : Prop :=
  forall i e, new !! i = Some e -> isBackendCall e ->
    exists j, i = S j /\ new !! j = Some EvLimiterWait.

(** A bucket-removal call on [bucket]. *)
Definition removalCall (bucket : string) (e : Event) : Prop :=
  match e with
  | EvDeleteBucket b => b = bucket
  | _ => False
  end.

Global Instance removalCall_dec bucket e : Decision (removalCall bucket e).
Proof. destruct e; simpl; apply _. Defined.

End TraceSpec.

(** ** Observations on an orchestrator trace *)
Module CallSpec.
Import Dto Entity Cleansing.

(** Every occurrence of [b] in the trace has an earlier [a]. *)
Definition precedes (a b : Call) (tr : list Call) : Prop :=
  forall i, tr !! i = Some b ->
    exists j, (j < i)%nat /\ tr !! j = Some a.

(** The calls of a site deletion in which nothing fails. *)
Definition siteDeletionCalls (siteID projectId : Z)
    (s3Objects : list S3Object) : list Call :=
  [Site_GetByID siteID;
   S3_ListSiteFiles siteID;
   S3_DeleteObjects s3Objects;
   Project_UpdateProjectUsage projectId (wrap64 (- sumSizes s3Objects));
   File_HardDeleteBySiteID siteID;
   Document_HardDeleteBySiteID siteID;
   DocumentGroup_HardDeleteBySiteID siteID;
   Site_HardDelete siteID].

(** Collaborators in the manner of [NullS3Service] and of the test
    mocks: nothing is stored and nothing fails. *)
Definition nullCollaborators : Collaborators :=
  {| s3Service_ListContractorFiles := fun _ _ => Ok [];
     s3Service_ListProjectFiles := fun _ _ => Ok [];
     s3Service_ListSiteFiles := fun _ _ => Ok [];
     s3Service_DeleteObjects :=
       fun _ objects => (Z.of_nat (length objects), None);
     projectRepo_GetByContractorID := fun _ _ => Ok [];
     projectRepo_UpdateProjectUsage := fun _ _ _ => None;
     projectRepo_HardDelete := fun _ _ => None;
     projectRepo_HardDeleteByContractorID := fun _ _ => None;
     siteRepo_GetByID :=
       fun _ id => Ok {| site_Id := id; site_Code := "ST01";
                         site_ProjectId := 1 |};
     siteRepo_GetByProjectID := fun _ _ => Ok [];
     siteRepo_HardDelete := fun _ _ => None;
     siteRepo_HardDeleteByProjectID := fun _ _ => None;
     documentGroupRepo_HardDeleteBySiteID := fun _ _ => None;
     documentRepo_HardDeleteBySiteID := fun _ _ => None;
     fileRepo_HardDeleteBySiteID := fun _ _ => None;
     contractorRepo_Delete := fun _ _ => None |}.

End CallSpec.

(** ** The answers that decide how far a site deletion gets *)
Module CascadeSpec.
Import Dto Entity Cleansing CallSpec.

(** What a repository answers to a hard-delete call of the site
    cascade made after the calls [h]. *)
Definition siteStepError (cs : Collaborators) (h : list Call) (c : Call)
    : option error :=
  match c with
  | File_HardDeleteBySiteID id => fileRepo_HardDeleteBySiteID cs h id
  | Document_HardDeleteBySiteID id => documentRepo_HardDeleteBySiteID cs h id
  | DocumentGroup_HardDeleteBySiteID id =>
      documentGroupRepo_HardDeleteBySiteID cs h id
  | Site_HardDelete id => siteRepo_HardDelete cs h id
  | _ => None
  end.

(** The answer to the call number [j] of [calls], asked when the calls
    before it have been made. *)
Definition stepAnswer (cs : Collaborators) (h : list Call)
    (calls : list Call) (j : nat) : option error :=
  match calls !! j with
  | Some c => siteStepError cs (h ++ take j calls) c
  | None => None
  end.

(** The site 42 of project 1 with two stored objects; the document rows
    cannot be deleted when [lockedDocuments] is set. *)
Definition siteObjects : list S3Object :=
  [{| Region := ""; Bucket := ""; Key := "PRJ/ST01/00_Upload/a.sgy";
      Size := 0 |};
   {| Region := ""; Bucket := ""; Key := "PRJ/ST01/01_Processed/dem.geojson";
      Size := 0 |}].

Definition siteWithFiles (lockedDocuments : bool) : Collaborators :=
  {| s3Service_ListContractorFiles := fun _ _ => Ok siteObjects;
     s3Service_ListProjectFiles := fun _ _ => Ok siteObjects;
     s3Service_ListSiteFiles := fun _ _ => Ok siteObjects;
     s3Service_DeleteObjects :=
       fun _ objects => (Z.of_nat (length objects), None);
     projectRepo_GetByContractorID := fun _ _ => Ok [];
     projectRepo_UpdateProjectUsage := fun _ _ _ => None;
     projectRepo_HardDelete := fun _ _ => None;
     projectRepo_HardDeleteByContractorID := fun _ _ => None;
     siteRepo_GetByID :=
       fun _ id => Ok {| site_Id := id; site_Code := "ST01";
                         site_ProjectId := 1 |};
     siteRepo_GetByProjectID := fun _ _ => Ok [];
     siteRepo_HardDelete := fun _ _ => None;
     siteRepo_HardDeleteByProjectID := fun _ _ => None;
     documentGroupRepo_HardDeleteBySiteID := fun _ _ => None;
     documentRepo_HardDeleteBySiteID :=
       fun _ _ => if lockedDocuments
                  then Some (ErrText "lock wait timeout") else None;
     fileRepo_HardDeleteBySiteID := fun _ _ => None;
     contractorRepo_Delete := fun _ _ => None |}.

End CascadeSpec.

(** ** Further observations on an orchestrator trace *)
Module CallSpecMore.
Import Dto Entity Cleansing.

(** The three hard deletes of one site's rows. *)
Definition siteRowCalls (site : Site) : list Call :=
  [File_HardDeleteBySiteID (site_Id site);
   Document_HardDeleteBySiteID (site_Id site);
   DocumentGroup_HardDeleteBySiteID (site_Id site)].

(** The calls of a project deletion in which no fatal step fails. *)
Definition projectDeletionCalls (projectID : Z)
    (s3Objects : list S3Object) (sites : list Site) : list Call :=
  [S3_ListProjectFiles projectID;
   S3_DeleteObjects s3Objects;
   Project_UpdateProjectUsage projectID (wrap64 (- sumSizes s3Objects));
   Site_GetByProjectID projectID]
  ++ flat_map siteRowCalls sites
  ++ [Site_HardDeleteByProjectID projectID;
      Project_HardDelete projectID].

(** The sum of the sizes, in unbounded integers. *)
Definition plainSize (s3Objects : list S3Object) : Z :=
  foldr (fun obj total => Size obj + total) 0 s3Objects.

(** A storage service that resolves [objects] and whose delete call
    reports [deleted] objects and an error; the repositories are those
    of [nullCollaborators]. *)
Definition storageFails (objects : list S3Object) (deleted : Z)
    : Collaborators :=
  {| s3Service_ListContractorFiles := fun _ _ => Ok objects;
     s3Service_ListProjectFiles := fun _ _ => Ok objects;
     s3Service_ListSiteFiles := fun _ _ => Ok objects;
     s3Service_DeleteObjects :=
       fun _ _ => (deleted, Some (ErrText "SlowDown"));
     projectRepo_GetByContractorID := fun _ _ => Ok [];
     projectRepo_UpdateProjectUsage := fun _ _ _ => None;
     projectRepo_HardDelete := fun _ _ => None;
     projectRepo_HardDeleteByContractorID := fun _ _ => None;
     siteRepo_GetByID :=
       fun _ id => Ok {| site_Id := id; site_Code := "ST01";
                         site_ProjectId := 1 |};
     siteRepo_GetByProjectID := fun _ _ => Ok [];
     siteRepo_HardDelete := fun _ _ => None;
     siteRepo_HardDeleteByProjectID := fun _ _ => None;
     documentGroupRepo_HardDeleteBySiteID := fun _ _ => None;
     documentRepo_HardDeleteBySiteID := fun _ _ => None;
     fileRepo_HardDeleteBySiteID := fun _ _ => None;
     contractorRepo_Delete := fun _ _ => None |}.

Definition twoObjects : list S3Object :=
  [{| Region := ""; Bucket := "bkt"; Key := "a"; Size := 1000 |};
   {| Region := ""; Bucket := "bkt"; Key := "b"; Size := 500 |}].

End CallSpecMore.

(** ** The listing methods of the S3 service (config.go, 169-236) *)
Module S3Listing.
Import Dto.

Section Listing.
Variable fileService : FileService.Repositories.

Definition ListContractorFiles (contractorID : Z)
    : result (list S3Object) :=
  match FileService.GetContractorFiles fileService contractorID with
  | Err err => Err (ErrWrap "failed to get contractor files: " err)
  | Ok objects => Ok objects
  end.

Definition ListProjectFiles (projectID : Z) : result (list S3Object) :=
  match FileService.GetProjectFiles fileService projectID with
  | Err err => Err (ErrWrap "failed to get project files: " err)
  | Ok objects => Ok objects
  end.

Definition ListSiteFiles (siteID : Z) : result (list S3Object) :=
  match FileService.GetSiteFiles fileService siteID with
  | Err err => Err (ErrWrap "failed to get site files: " err)
  | Ok objects => Ok objects
  end.
End Listing.

(** An object that names a key and nothing else. *)
Definition keyOnly (obj : S3Object) : Prop :=
  Region obj = "" /\ Bucket obj = "" /\ Size obj = 0.

End S3Listing.

(** ** The message handler (package handlers) *)
Module Handlers.
Import Dto Cleansing.

Section Handler.
Variable cs : Collaborators.

(** [json.Unmarshal] into a [dto.CleansingMessage]. *)
Variable json_Unmarshal : string -> result CleansingMessage.

(** A nil return acknowledges the message, an error has the queue
    deliver it again. *)
Definition handleError (err : error) (shouldRetry : bool)
    : option error :=
  if shouldRetry then Some err else None.

Definition processCleansingMessage (msg : CleansingMessage)
    : M (list Call) (option CleansingResult * option error) :=
  if negb (IsValidType msg) then
    ret (None,
         Some (ErrText ("invalid cleansing type: " +:+ msg_Type msg)))
  else
    r <- ProcessCleansingMessage cs msg ;;
    match r with
    | (result, Some err) => ret (Some result, Some err)
    | (result, None) => ret (Some result, None)
    end.

Definition HandleMessage (body : string) : M (list Call) (option error) :=
  match json_Unmarshal body with
  | Err err =>
      ret (handleError (ErrWrap "invalid message format: " err) false)
  | Ok cleansingMsg =>
      if negb (IsValidType cleansingMsg) then
        ret (handleError
               (ErrText ("invalid message type: "
                           +:+ msg_Type cleansingMsg)) false)
      else
        r <- processCleansingMessage cleansingMsg ;;
        match r with
        | (_, Some err) => ret (handleError err true)
        | (_, None) => ret None
        end
  end.
End Handler.

End Handlers.

(** ** The orchestrator that removes a contractor's bucket
    (CleansingServiceImpl over [s3Service] and [contractorRepo]) *)
Module BucketCleansing.
Import Dto.

Record Contractor : Type := {
  contractor_Id : Z;
  contractor_Name : string;
  contractor_AwsBucketName : string
}.

Inductive Call : Type :=
| Contractor_GetByID (id : Z)
| S3_DeleteBucket (bucketName : string)
| Contractor_Delete (id : Z).

Record Collaborators : Type := {
  contractorRepo_GetByID : list Call -> Z -> result Contractor;
  s3Service_DeleteBucket : list Call -> string -> option error;
  contractorRepo_Delete : list Call -> Z -> option error
}.

Definition ask {A} (c : Call) (answer : list Call -> A) : M (list Call) A :=
  fun h => (answer h, h ++ [c]).

Section Service.
Variable cs : Collaborators.

(** [result.Error = errMsg; return result, fmt.Errorf(.. %w, err)]:
    the message and the returned error have the same text. *)
Definition failWith (result : CleansingResult) (err : error)
    : CleansingResult * option error :=
  (Cleansing.set_Error result (error_string err), Some err).

Definition DeleteContractorFiles (contractorID : Z)
    : M (list Call) (CleansingResult * option error) :=
  let result := Cleansing.newResult CleansingTypeContractor contractorID in
  c <- ask (Contractor_GetByID contractorID)
           (fun h => contractorRepo_GetByID cs h contractorID) ;;
  match c with
  | Err err =>
      ret (failWith result
             (ErrWrap ("failed to retrieve contractor with ID "
                         +:+ pretty contractorID +:+ ": ") err))
  | Ok contractor =>
  let bucketName := contractor_AwsBucketName contractor in
  if bool_decide (bucketName = "") then
    ret (failWith result
           (ErrText ("contractor " +:+ pretty contractorID
                       +:+ " has no bucket name configured")))
  else
  e <- ask (S3_DeleteBucket bucketName)
           (fun h => s3Service_DeleteBucket cs h bucketName) ;;
  match e with
  | Some err =>
      ret (failWith result
             (ErrWrap ("failed to delete S3 bucket " +:+ bucketName
                         +:+ " for contractor " +:+ pretty contractorID
                         +:+ ": ") err))
  | None =>
  e <- ask (Contractor_Delete contractorID)
           (fun h => contractorRepo_Delete cs h contractorID) ;;
  match e with
  | Some err =>
      ret (failWith result
             (ErrWrap ("failed to delete contractor record with ID "
                         +:+ pretty contractorID +:+ ": ") err))
  | None => ret (Cleansing.set_Success result true, None)
  end end end.
End Service.

(** A store with one contractor, number 7, whose bucket is
    [bucketName]; nothing fails. *)
Definition oneContractor (bucketName : string) : Collaborators :=
  {| contractorRepo_GetByID :=
       fun _ id =>
         if id =? 7 then
           Ok {| contractor_Id := 7; contractor_Name := "acme";
                 contractor_AwsBucketName := bucketName |}
         else Err (ErrText "record not found");
     s3Service_DeleteBucket := fun _ _ => None;
     contractorRepo_Delete := fun _ _ => None |}.

End BucketCleansing.

(** ** [GetDescription] of src/dto/message.go *)
Module Description.
Import Dto.

Definition GetDescription (cm : CleansingMessage) : string :=
  if decide (msg_Type cm = CleansingTypeContractor) then
    "Deleting all files for contractor and its related projects and sites"
  else if decide (msg_Type cm = CleansingTypeProject) then
    "Deleting all files for project and its related sites"
  else if decide (msg_Type cm = CleansingTypeSite) then
    "Deleting all files for site"
  else "Unknown cleansing operation".

End Description.

(** ** [ValidateConfiguration] of the resolver *)
Module Resolver.

Record Config : Type := {
  AWSRegion : string;
  AWSAccessKeyID : string;
  AWSSecretAccessKey : string;
  NsqServer : string;
  TopicName : string;
  ConsumerChannelName : string
}.

(** [config] is a pointer: [None] is nil. *)
Definition ValidateConfiguration (config : option Config) : option error :=
  match config with
  | None => Some (ErrText "configuration is nil")
  | Some config =>
      if bool_decide (AWSRegion config = "") then
        Some (ErrText "AWS region is required")
      else if bool_decide (AWSAccessKeyID config = "") then
        Some (ErrText "AWS access key ID is required")
      else if bool_decide (AWSSecretAccessKey config = "") then
        Some (ErrText "AWS secret access key is required")
      else if bool_decide (NsqServer config = "") then
        Some (ErrText "NSQ server is required")
      else if bool_decide (TopicName config = "") then
        Some (ErrText "NSQ topic is required")
      else if bool_decide (ConsumerChannelName config = "") then
        Some (ErrText "NSQ channel is required")
      else None
  end.

End Resolver.

(** ** What the resolver requires of a configuration *)
Module ResolverSpec.
Import Resolver.

(** The settings that must not be empty, in the order in which they are
    checked, each with the name the error message gives it. *)
Definition requiredSettings (c : Config) : list (string * string) :=
  [(AWSRegion c, "AWS region");
   (AWSAccessKeyID c, "AWS access key ID");
   (AWSSecretAccessKey c, "AWS secret access key");
   (NsqServer c, "NSQ server");
   (TopicName c, "NSQ topic");
   (ConsumerChannelName c, "NSQ channel")].

End ResolverSpec.

(** ** Observations on the trace of a contractor deletion *)
Module ContractorCascadeSpec.
Import Dto Entity Cleansing.

(** The calls made inside the loop over the contractor's projects. *)
Definition siteLevelCall (c : Call) : Prop :=
  match c with
  | Site_GetByProjectID _ | File_HardDeleteBySiteID _
  | Document_HardDeleteBySiteID _ | DocumentGroup_HardDeleteBySiteID _
  | Site_HardDeleteByProjectID _ => True
  | _ => False
  end.

(** The project whose sites a call reads. *)
Definition sitesRead (c : Call) : option Z :=
  match c with Site_GetByProjectID id => Some id | _ => None end.

(** The project whose site rows a call deletes. *)
Definition sitesDeleted (c : Call) : option Z :=
  match c with Site_HardDeleteByProjectID id => Some id | _ => None end.

(** The calls the loop makes for one project when the calls [h] have
    been made: it reads the project's sites and, unless that fails,
    deletes the rows of every site returned and then the project's
    sites. *)
Definition projectCalls (cs : Collaborators) (h : list Call)
    (project : Project) : list Call :=
  Site_GetByProjectID (project_Id project)
  :: match siteRepo_GetByProjectID cs h (project_Id project) with
     | Err _ => []
     | Ok sites =>
         flat_map CallSpecMore.siteRowCalls sites
         ++ [Site_HardDeleteByProjectID (project_Id project)]
     end.

(** The calls of the loop over [projects], one project after the
    other. *)
Fixpoint projectsCalls (cs : Collaborators) (h : list Call)
    (projects : list Project) : list Call :=
  match projects with
  | [] => []
  | project :: projects' =>
      projectCalls cs h project
      ++ projectsCalls cs (h ++ projectCalls cs h project) projects'
  end.

(** Collaborators with the two projects 1 and 2 of a contractor; the
    sites of project 1 cannot be read, project 2 has the site 20. *)
Definition unreadableProject : Collaborators :=
  {| s3Service_ListContractorFiles := fun _ _ => Ok [];
     s3Service_ListProjectFiles := fun _ _ => Ok [];
     s3Service_ListSiteFiles := fun _ _ => Ok [];
     s3Service_DeleteObjects :=
       fun _ objects => (Z.of_nat (length objects), None);
     projectRepo_GetByContractorID :=
       fun _ _ => Ok [ {| project_Id := 1; project_Code := "P1" |};
                       {| project_Id := 2; project_Code := "P2" |} ];
     projectRepo_UpdateProjectUsage := fun _ _ _ => None;
     projectRepo_HardDelete := fun _ _ => None;
     projectRepo_HardDeleteByContractorID := fun _ _ => None;
     siteRepo_GetByID := fun _ _ => Err (ErrText "record not found");
     siteRepo_GetByProjectID :=
       fun _ id =>
         if id =? 2 then
           Ok [ {| site_Id := 20; site_Code := "ST20";
                   site_ProjectId := 2 |} ]
         else Err (ErrText "connection reset");
     siteRepo_HardDelete := fun _ _ => None;
     siteRepo_HardDeleteByProjectID := fun _ _ => None;
     documentGroupRepo_HardDeleteBySiteID := fun _ _ => None;
     documentRepo_HardDeleteBySiteID := fun _ _ => None;
     fileRepo_HardDeleteBySiteID := fun _ _ => None;
     contractorRepo_Delete := fun _ _ => None |}.

End ContractorCascadeSpec.

(** ** The orchestrator of src/service/cleansing_service.go, which only
    deletes objects, and the S3 service it is wired to *)
Module StorageCleansing.
Import Dto.

(** The interface [S3Service]; [S] is the state its methods act on. *)
Record S3Service (S : Type) : Type := {
  ListContractorFiles : Z -> M S (result (list S3Object));
  ListProjectFiles : Z -> M S (result (list S3Object));
  ListSiteFiles : Z -> M S (result (list S3Object));
  DeleteObjects : list S3Object -> M S (nat * option error)
}.
Arguments ListContractorFiles {S} _ _.
Arguments ListProjectFiles {S} _ _.
Arguments ListSiteFiles {S} _ _.
Arguments DeleteObjects {S} _ _.

Section Service.
Context {S : Type}.
Variable s3Service : S3Service S.

Definition DeleteContractorFiles (contractorID : Z)
    : M S (CleansingResult * option error) :=
  let result := Cleansing.newResult CleansingTypeContractor contractorID in
  l <- ListContractorFiles s3Service contractorID ;;
  match l with
  | Err err =>
      ret (Cleansing.set_Error result
             ("failed to list contractor files: " +:+ error_string err),
           Some err)
  | Ok s3Objects =>
      d <- DeleteObjects s3Service s3Objects ;;
      match d with
      | (deletedCount, Some err) =>
          let result :=
            Cleansing.set_Error result
              ("failed to delete contractor files: "
                 +:+ error_string err) in
          ret (Cleansing.set_FilesDeleted result (Z.of_nat deletedCount),
               Some err)
      | (deletedCount, None) =>
          let result := Cleansing.set_Success result true in
          ret (Cleansing.set_FilesDeleted result (Z.of_nat deletedCount),
               None)
      end
  end.

Definition DeleteProjectFiles (projectID : Z)
    : M S (CleansingResult * option error) :=
  let result := Cleansing.newResult CleansingTypeProject projectID in
  l <- ListProjectFiles s3Service projectID ;;
  match l with
  | Err err =>
      ret (Cleansing.set_Error result
             ("failed to list project files: " +:+ error_string err),
           Some err)
  | Ok s3Objects =>
      d <- DeleteObjects s3Service s3Objects ;;
      match d with
      | (deletedCount, Some err) =>
          let result :=
            Cleansing.set_Error result
              ("failed to delete project files: "
                 +:+ error_string err) in
          ret (Cleansing.set_FilesDeleted result (Z.of_nat deletedCount),
               Some err)
      | (deletedCount, None) =>
          let result := Cleansing.set_Success result true in
          ret (Cleansing.set_FilesDeleted result (Z.of_nat deletedCount),
               None)
      end
  end.

Definition DeleteSiteFiles (siteID : Z)
    : M S (CleansingResult * option error) :=
  let result := Cleansing.newResult CleansingTypeSite siteID in
  l <- ListSiteFiles s3Service siteID ;;
  match l with
  | Err err =>
      ret (Cleansing.set_Error result
             ("failed to list site files: " +:+ error_string err),
           Some err)
  | Ok s3Objects =>
      d <- DeleteObjects s3Service s3Objects ;;
      match d with
      | (deletedCount, Some err) =>
          let result :=
            Cleansing.set_Error result
              ("failed to delete site files: " +:+ error_string err) in
          ret (Cleansing.set_FilesDeleted result (Z.of_nat deletedCount),
               Some err)
      | (deletedCount, None) =>
          let result := Cleansing.set_Success result true in
          ret (Cleansing.set_FilesDeleted result (Z.of_nat deletedCount),
               None)
      end
  end.

Definition ProcessCleansingMessage (message : CleansingMessage)
    : M S (CleansingResult * option error) :=
  if negb (IsValidType message) then
    ret (Cleansing.set_Error
           (Cleansing.newResult (msg_Type message) (msg_ID message))
           ("invalid cleansing type: " +:+ msg_Type message),
         Some (ErrText ("invalid cleansing type: " +:+ msg_Type message)))
  else if bool_decide (msg_Type message = CleansingTypeContractor) then
    DeleteContractorFiles (msg_ID message)
  else if bool_decide (msg_Type message = CleansingTypeProject) then
    DeleteProjectFiles (msg_ID message)
  else if bool_decide (msg_Type message = CleansingTypeSite) then
    DeleteSiteFiles (msg_ID message)
  else
    ret (Cleansing.set_Error
           (Cleansing.newResult (msg_Type message) (msg_ID message))
           ("unsupported cleansing type: " +:+ msg_Type message),
         Some (ErrText ("unsupported cleansing type: "
                          +:+ msg_Type message))).
End Service.

(** [S3ServiceImpl]: the listing methods ask the file service, the
    deletion is the engine's. *)
Definition S3ServiceImpl (fileService : FileService.Repositories)
    (w : S3Engine.World) : S3Service S3Engine.State :=
  {| ListContractorFiles :=
       fun contractorID =>
         ret (S3Listing.ListContractorFiles fileService contractorID);
     ListProjectFiles :=
       fun projectID =>
         ret (S3Listing.ListProjectFiles fileService projectID);
     ListSiteFiles :=
       fun siteID => ret (S3Listing.ListSiteFiles fileService siteID);
     DeleteObjects := S3Engine.DeleteObjects w |}.

End StorageCleansing.

(** ** The orchestrator with the listing methods of [S3ServiceImpl] *)
Module Wiring.
Import Dto Entity Cleansing.

(** The collaborators [cs] with the three listing methods answered by
    the S3 service over [fileService]. *)
Definition withFileService (fileService : FileService.Repositories)
    (cs : Collaborators) : Collaborators :=
  {| s3Service_ListContractorFiles :=
       fun _ => S3Listing.ListContractorFiles fileService;
     s3Service_ListProjectFiles :=
       fun _ => S3Listing.ListProjectFiles fileService;
     s3Service_ListSiteFiles :=
       fun _ => S3Listing.ListSiteFiles fileService;
     s3Service_DeleteObjects := s3Service_DeleteObjects cs;
     projectRepo_GetByContractorID := projectRepo_GetByContractorID cs;
     projectRepo_UpdateProjectUsage := projectRepo_UpdateProjectUsage cs;
     projectRepo_HardDelete := projectRepo_HardDelete cs;
     projectRepo_HardDeleteByContractorID :=
       projectRepo_HardDeleteByContractorID cs;
     siteRepo_GetByID := siteRepo_GetByID cs;
     siteRepo_GetByProjectID := siteRepo_GetByProjectID cs;
     siteRepo_HardDelete := siteRepo_HardDelete cs;
     siteRepo_HardDeleteByProjectID := siteRepo_HardDeleteByProjectID cs;
     documentGroupRepo_HardDeleteBySiteID :=
       documentGroupRepo_HardDeleteBySiteID cs;
     documentRepo_HardDeleteBySiteID := documentRepo_HardDeleteBySiteID cs;
     fileRepo_HardDeleteBySiteID := fileRepo_HardDeleteBySiteID cs;
     contractorRepo_Delete := contractorRepo_Delete cs |}.

(** The amount a call adds to a project's usage. *)
Definition usageDelta (c : Call) : option Z :=
  match c with
  | Project_UpdateProjectUsage _ sizeDelta => Some sizeDelta
  | _ => None
  end.

End Wiring.

(** ** The S3 service that lists by bucket and prefix
    ([listAllBuckets], [listObjectsWithPrefix] and the listing methods
    built on them) *)
Module PrefixListing.
Import Dto S3Engine.

(** The answers of the S3 client: the buckets, and the pages of a
    listing of a bucket under a prefix. *)
Record ListingClient : Type := {
  client_ListBuckets : result (list string);
  client_ListObjectsV2 : string -> string -> Listing
}.

Definition bucketObject (bucket key : string) : S3Object :=
  {| Region := ""; Bucket := bucket; Key := key; Size := 0 |}.

Section Service.
Variable client : ListingClient.

Definition listAllBuckets : result (list string) :=
  match client_ListBuckets client with
  | Err err => Err (ErrWrap "failed to list buckets: " err)
  | Ok buckets => Ok buckets
  end.

(** [for paginator.HasMorePages() { .. }] *)
Fixpoint listPages (bucket : string) (pages : Listing)
    (objects : list S3Object) : result (list S3Object) :=
  match pages with
  | PageErr err => Err (ErrWrap "failed to list objects: " err)
  | PageLast contents => Ok (objects ++ map (bucketObject bucket) contents)
  | PageMore contents next =>
      listPages bucket next (objects ++ map (bucketObject bucket) contents)
  end.

Definition listObjectsWithPrefix (bucket prefix : string)
    : result (list S3Object) :=
  listPages bucket (client_ListObjectsV2 client bucket prefix) [].

(** The loop over the buckets the three listing methods share. *)
Definition listBuckets (buckets : list string) (prefix : string)
    : list S3Object :=
  fold_left
    (fun allObjects bucket =>
       match listObjectsWithPrefix bucket prefix with
       | Err _ => allObjects
       | Ok objects => allObjects ++ objects
       end)
    buckets [].

Definition ListContractorFiles (contractorID : Z)
    : result (list S3Object) :=
  match listAllBuckets with
  | Err err => Err (ErrWrap "failed to list buckets: " err)
  | Ok buckets =>
      Ok (listBuckets buckets
            ("contractor_" +:+ pretty contractorID +:+ "/"))
  end.

Definition ListProjectFiles (projectID : Z) : result (list S3Object) :=
  match listAllBuckets with
  | Err err => Err (ErrWrap "failed to list buckets: " err)
  | Ok buckets =>
      Ok (listBuckets buckets ("project_" +:+ pretty projectID +:+ "/"))
  end.

Definition ListSiteFiles (siteID : Z) : result (list S3Object) :=
  match listAllBuckets with
  | Err err => Err (ErrWrap "failed to list buckets: " err)
  | Ok buckets =>
      Ok (listBuckets buckets ("site_" +:+ pretty siteID +:+ "/"))
  end.
End Service.

(** A listing no page of which fails. *)
Fixpoint complete (pages : Listing) : bool :=
  match pages with
  | PageErr _ => false
  | PageLast _ => true
  | PageMore _ next => complete next
  end.

(** What one bucket contributes to a listing. *)
Definition bucketKeys (client : ListingClient) (prefix : string)
    (bucket : string) : list S3Object :=
  let pages := client_ListObjectsV2 client bucket prefix in
  if complete pages
  then map (bucketObject bucket) (TraceSpec.listedKeys pages)
  else [].

(** Two buckets; the second page of "b" cannot be read. *)
Definition brokenSecondPage : ListingClient :=
  {| client_ListBuckets := Ok ["a"; "b"];
     client_ListObjectsV2 :=
       fun bucket prefix =>
         if String.eqb bucket "a"
         then PageLast [prefix +:+ "x.tif"]
         else PageMore [prefix +:+ "y.tif"]
                (PageErr (ErrText "SlowDown")) |}.

End PrefixListing.

Section StringsSplit.
Variable sep : ascii.

Lemma strings_Split_nonempty s : strings_Split s sep <> [].
Proof.
  destruct s as [|c s]; simpl; [done|].
  destruct (Ascii.eqb c sep); [done|].
  destruct (strings_Split s sep); done.
Qed.

Lemma strings_Join_cons seg seg' segs (sp : string) :
  strings_Join (seg :: seg' :: segs) sp
  = seg +:+ sp +:+ strings_Join (seg' :: segs) sp.
Proof. reflexivity. Qed.

Lemma strings_Split_Join s :
  strings_Join (strings_Split s sep) (String sep "") = s.
Proof.
  induction s as [|c s IH]; simpl; [done|].
  destruct (Ascii.eqb_spec c sep) as [->|Hne].
  - pose proof (strings_Split_nonempty s) as Hn.
    destruct (strings_Split s sep) as [|seg segs]; [done|].
    rewrite strings_Join_cons. simpl. simpl in IH. by rewrite IH.
  - pose proof (strings_Split_nonempty s) as Hn.
    destruct (strings_Split s sep) as [|seg segs]; [done|].
    destruct segs as [|seg' segs].
    + simpl in *. by rewrite IH.
    + by rewrite <- IH.
Qed.

Lemma strings_Split_segments s :
  Forall (fun seg => contains_byte sep seg = false) (strings_Split s sep).
Proof.
  induction s as [|c s IH]; simpl.
  - by constructor.
  - destruct (Ascii.eqb_spec c sep) as [->|Hne].
    + by constructor.
    + destruct (strings_Split s sep) as [|seg segs].
      * constructor; [|done]. simpl.
        destruct (Ascii.eqb_spec c sep); [done|done].
      * inversion IH; subst. constructor; [|done]. simpl.
        destruct (Ascii.eqb_spec c sep); [done|done].
Qed.

Lemma strings_Split_length s :
  (length (strings_Split s sep) < 2)%nat <-> contains_byte sep s = false.
Proof.
  induction s as [|c s IH]; simpl; [split; [done|lia]|].
  pose proof (strings_Split_nonempty s) as Hn.
  destruct (Ascii.eqb_spec c sep) as [->|Hne]; simpl.
  - destruct (strings_Split s sep); [done|]. simpl. split; [lia|done].
  - destruct (strings_Split s sep) as [|seg segs]; [done|].
    simpl in *. exact IH.
Qed.
End StringsSplit.

Section KeyDerivation.
Import Dto Entity FileService Examples.

Lemma needSplit_elem_of (category : string) :
  bool_decide (category = "Boundary")
  || bool_decide (category = "LineRoute")
  || bool_decide (category = "SBEST")
  || bool_decide (category = "SBP")
  || bool_decide (category = "SoilSample")
  || bool_decide (category = "SSS")
  = bool_decide (category ∈ splitNameCategories).
Proof.
  unfold splitNameCategories.
  repeat case_bool_decide; simpl; try reflexivity;
    repeat match goal with
           | H : _ ∈ _ :: _ |- _ => apply elem_of_cons in H as [?|H]
           | H : _ ∈ [] |- _ => by apply elem_of_nil in H
           | H : ¬ _ ∈ _ |- _ => exfalso; apply H; clear H
           end; try congruence;
    subst; repeat (first [ by apply list_elem_of_here
                         | apply list_elem_of_further ]).
Qed.

(** C8. The upload key of a file is
    "{project.code}/{site.code}/00_Upload/{name}": for a category of the
    split-name set and a file name whose split on "/" has at least two
    segments the name is "{segment0}/Raw/{segment1}"; for the same
    categories and a shorter split, and for every other category, it is
    the stored file name.  The derivation is total: it always yields
    exactly that one key. *)
Theorem C8_upload_key_derivation
    (project : Project) (site : Site) (docGroup : DocumentGroup)
    (file : File) :
  exists name : string,
    buildS3ObjectsFromFile project site docGroup file
    = [keyObject ((project_Code project +:+ "/" +:+ site_Code site
                     +:+ "/00_Upload/") +:+ name)]
    /\ (group_Category docGroup ∈ splitNameCategories ->
        forall seg0 seg1 rest,
          strings_Split (file_Name file) slash = seg0 :: seg1 :: rest ->
          name = seg0 +:+ "/Raw/" +:+ seg1)
    /\ (group_Category docGroup ∈ splitNameCategories ->
        (length (strings_Split (file_Name file) slash) < 2)%nat ->
        name = file_Name file)
    /\ (group_Category docGroup ∉ splitNameCategories ->
        name = file_Name file).
Proof.
  unfold buildS3ObjectsFromFile. rewrite needSplit_elem_of.
  case_bool_decide as Hcat.
  - destruct (strings_Split (file_Name file) slash)
      as [|seg0 [|seg1 rest]] eqn:Hsplit.
    + by destruct (strings_Split_nonempty slash (file_Name file)).
    + exists (file_Name file). repeat split; try done.
    + exists (seg0 +:+ "/Raw/" +:+ seg1). repeat split.
      * intros _ ? ? ? [= <- <- <-]. done.
      * simpl. lia.
      * done.
  - exists (file_Name file). repeat split; done.
Qed.

Lemma C8_upload_key_derivation_witness :
  buildS3ObjectsFromFile c8_project c8_site c8_group c8_file
  = [keyObject "PRJ/ST01/00_Upload/line7/Raw/a.sgy"].
Proof.
  destruct (C8_upload_key_derivation c8_project c8_site c8_group c8_file)
    as (name & Hkey & Hsplit & _ & _).
  rewrite Hkey.
  rewrite (Hsplit ltac:(apply (bool_decide_unpack _); vm_compute; exact I)
                  "line7" "a.sgy" [] eq_refl).
  reflexivity.
Defined.

End KeyDerivation.

Section HierarchyWalk.
Import Dto Entity FileService ResolvedKeys Examples.

Lemma fold_left_app_flat_map {A B} (f : list B -> A -> list B)
    (g : A -> list B) (l : list A) (acc : list B) :
  (forall acc a, f acc a = acc ++ g a) ->
  fold_left f l acc = acc ++ flat_map g l.
Proof.
  intros Hf. revert acc.
  induction l as [|a l IH]; intros acc; simpl.
  - by rewrite app_nil_r.
  - by rewrite IH, Hf, <- app_assoc.
Qed.

Variable fs : Repositories.

Lemma walkDocument_keys project site docGroup acc document :
  walkDocument fs project site docGroup acc document
  = acc ++ documentKeys fs project site docGroup document.
Proof.
  unfold walkDocument, documentKeys.
  destruct (fileRepo_GetByDocumentID fs _) as [files|_].
  - by apply fold_left_app_flat_map.
  - by rewrite app_nil_r.
Qed.

Lemma walkDocGroup_keys project site acc docGroup :
  walkDocGroup fs project site acc docGroup
  = acc ++ docGroupKeys fs project site docGroup.
Proof.
  unfold walkDocGroup, docGroupKeys, processedKeys.
  destruct (documentRepo_GetByGroupID fs _) as [documents|_].
  - rewrite (fold_left_app_flat_map _ (documentKeys fs project site docGroup))
      by apply walkDocument_keys.
    destruct (hasProcessedFiles docGroup).
    + by rewrite app_assoc.
    + by rewrite !app_nil_r.
  - by rewrite app_nil_r.
Qed.

Lemma walkSite_keys project acc site :
  walkSite fs project acc site = acc ++ siteKeys fs project site.
Proof.
  unfold walkSite, siteKeys.
  destruct (documentGroupRepo_GetBySiteID fs _) as [groups|_].
  - apply fold_left_app_flat_map. apply walkDocGroup_keys.
  - by rewrite app_nil_r.
Qed.

Lemma walkProject_keys acc project :
  walkProject fs acc project = acc ++ projectKeys fs project.
Proof.
  unfold walkProject, projectKeys.
  destruct (siteRepo_GetByProjectID fs _) as [sites|_].
  - apply fold_left_app_flat_map. apply walkSite_keys.
  - by rewrite app_nil_r.
Qed.

End HierarchyWalk.

Section Resolver.
Import Dto Entity FileService ResolvedKeys Examples.

(** C7, as amended.  A failed read below the scope's own first level (a
    project's sites under a contractor, a site's document groups under a
    contractor or project, a group's documents, a document's files) does
    not fail the resolution: the branch is skipped and the keys of the
    remaining branches are returned.  A failed read of the scope itself
    or of its direct children (the contractor's projects; the project or
    its sites; the site, its project or its document groups) is returned
    as an error. *)
Theorem C7_failed_branches_are_skipped (fs : Repositories) :
  (forall contractorID projects,
      projectRepo_GetByContractorID fs contractorID = Ok projects ->
      GetContractorFiles fs contractorID
      = Ok (flat_map (projectKeys fs) projects))
  /\ (forall projectID project sites,
      projectRepo_GetByID fs projectID = Ok project ->
      siteRepo_GetByProjectID fs projectID = Ok sites ->
      GetProjectFiles fs projectID
      = Ok (flat_map (siteKeys fs project) sites))
  /\ (forall siteID site project documentGroups,
      siteRepo_GetByID fs siteID = Ok site ->
      projectRepo_GetByID fs (site_ProjectId site) = Ok project ->
      documentGroupRepo_GetBySiteID fs siteID = Ok documentGroups ->
      GetSiteFiles fs siteID
      = Ok (flat_map (docGroupKeys fs project site) documentGroups))
  /\ (forall contractorID,
      is_err (projectRepo_GetByContractorID fs contractorID) = true ->
      is_err (GetContractorFiles fs contractorID) = true)
  /\ (forall projectID,
      is_err (projectRepo_GetByID fs projectID) = true
      \/ is_err (siteRepo_GetByProjectID fs projectID) = true ->
      is_err (GetProjectFiles fs projectID) = true)
  /\ (forall siteID site,
      siteRepo_GetByID fs siteID = Ok site ->
      is_err (projectRepo_GetByID fs (site_ProjectId site)) = true
      \/ is_err (documentGroupRepo_GetBySiteID fs siteID) = true ->
      is_err (GetSiteFiles fs siteID) = true)
  /\ (forall siteID,
      is_err (siteRepo_GetByID fs siteID) = true ->
      is_err (GetSiteFiles fs siteID) = true).
Proof.
  repeat split.
  - intros contractorID projects Hp. unfold GetContractorFiles.
    rewrite Hp.
    by rewrite (fold_left_app_flat_map _ (projectKeys fs))
      by apply walkProject_keys.
  - intros projectID project sites Hp Hs. unfold GetProjectFiles.
    rewrite Hp, Hs.
    by rewrite (fold_left_app_flat_map _ (siteKeys fs project))
      by apply walkSite_keys.
  - intros siteID site project groups Hs Hp Hg. unfold GetSiteFiles.
    rewrite Hs, Hp, Hg.
    by rewrite (fold_left_app_flat_map _ (docGroupKeys fs project site))
      by apply walkDocGroup_keys.
  - intros contractorID. unfold GetContractorFiles.
    by destruct (projectRepo_GetByContractorID fs contractorID).
  - intros projectID. unfold GetProjectFiles.
    destruct (projectRepo_GetByID fs projectID); [|done].
    destruct (siteRepo_GetByProjectID fs projectID); [|done].
    by intros [?|?].
  - intros siteID site Hs. unfold GetSiteFiles. rewrite Hs.
    destruct (projectRepo_GetByID fs _); [|done].
    destruct (documentGroupRepo_GetBySiteID fs siteID); [|done].
    by intros [?|?].
  - intros siteID. unfold GetSiteFiles.
    by destruct (siteRepo_GetByID fs siteID).
Qed.

(** The contractor walk keeps the key of project 1 although the sites
    of project 2 could not be read. *)
Lemma C7_failed_branches_are_skipped_witness :
  is_err (siteRepo_GetByProjectID c7_repos 2) = true
  /\ GetContractorFiles c7_repos 7
     = Ok [keyObject "PRJ/ST01/00_Upload/line7/Raw/a.sgy"].
Proof.
  split; [reflexivity|].
  rewrite (proj1 (C7_failed_branches_are_skipped c7_repos)
             7 [c7_project2; c8_project] eq_refl).
  reflexivity.
Defined.

(** C7 as stated fails for the site scope: the site and its project are
    read, the site's document groups are not, and the whole resolution
    returns an error. *)
Lemma C7_counterexample :
  siteRepo_GetByID c7_repos_site 42 = Ok c8_site
  /\ projectRepo_GetByID c7_repos_site 1 = Ok c8_project
  /\ is_err (documentGroupRepo_GetBySiteID c7_repos_site 42) = true
  /\ is_err (GetSiteFiles c7_repos_site 42) = true.
Proof. repeat split; reflexivity. Qed.

(** C9, as amended.  For a document group whose documents were read,
    the walk appends the processed-artifact keys after the group's
    upload keys if and only if the progress is 40 or 11 and the
    processed name is not empty.  When it does, the first key is
    "{project.code}/{site.code}/01_Processed/{processedName}.geojson";
    for the categories RasterD, RasterO and Image exactly the three keys
    with the suffixes _B01.tif, _B02.tif and _B03.tif follow, for every
    other category none. *)
Theorem C9_processed_keys (fs : Repositories) (project : Project)
    (site : Site) (docGroup : DocumentGroup)
    (documents : list Document) (allObjects : list S3Object) :
  documentRepo_GetByGroupID fs (group_Id docGroup) = Ok documents ->
  let basePath :=
    project_Code project +:+ "/" +:+ site_Code site +:+ "/01_Processed/" in
  let name := group_ProcessedName docGroup in
  exists processed : list S3Object,
    walkDocGroup fs project site allObjects docGroup
    = fold_left (walkDocument fs project site docGroup) documents allObjects
      ++ processed
    /\ (processed <> [] <->
        (group_Progress docGroup = 40 \/ group_Progress docGroup = 11)
        /\ name <> "")
    /\ (processed <> [] ->
        exists rasters : list S3Object,
          processed = keyObject (basePath +:+ name +:+ ".geojson") :: rasters
          /\ (group_Category docGroup ∈ rasterCategories ->
              rasters = [keyObject (basePath +:+ name +:+ "_B01.tif");
                         keyObject (basePath +:+ name +:+ "_B02.tif");
                         keyObject (basePath +:+ name +:+ "_B03.tif")])
          /\ (group_Category docGroup ∉ rasterCategories -> rasters = [])).
Proof.
  intros Hdocs basePath name. unfold walkDocGroup. rewrite Hdocs.
  assert (Hguard : hasProcessedFiles docGroup = true <->
            (group_Progress docGroup = 40 \/ group_Progress docGroup = 11)
            /\ name <> "").
  { unfold hasProcessedFiles, name.
    rewrite andb_true_iff, orb_true_iff, !Z.eqb_eq, negb_true_iff.
    rewrite bool_decide_eq_false. tauto. }
  assert (Hbuild : exists rasters,
            buildProcessedS3Objects project site docGroup
            = keyObject (basePath +:+ name +:+ ".geojson") :: rasters
            /\ (group_Category docGroup ∈ rasterCategories ->
                rasters = [keyObject (basePath +:+ name +:+ "_B01.tif");
                           keyObject (basePath +:+ name +:+ "_B02.tif");
                           keyObject (basePath +:+ name +:+ "_B03.tif")])
            /\ (group_Category docGroup ∉ rasterCategories -> rasters = [])).
  { unfold buildProcessedS3Objects, rasterCategories. fold basePath name.
    destruct (bool_decide (group_Category docGroup = "RasterD")
              || bool_decide (group_Category docGroup = "RasterO")
              || bool_decide (group_Category docGroup = "Image")) eqn:Hcat.
    - eexists. split; [reflexivity|]. split; [done|].
      intros Hnot. exfalso. apply Hnot.
      rewrite !orb_true_iff, !bool_decide_eq_true in Hcat.
      rewrite !elem_of_cons. tauto.
    - eexists. split; [reflexivity|]. split; [|done].
      intros Hin. exfalso.
      rewrite !orb_false_iff, !bool_decide_eq_false in Hcat.
      rewrite !elem_of_cons, elem_of_nil in Hin. tauto. }
  destruct (hasProcessedFiles docGroup) eqn:Hp.
  - destruct Hbuild as (rasters & Hb & Hr).
    exists (buildProcessedS3Objects project site docGroup).
    split; [done|]. split.
    + split; [intros _; by apply Hguard|by rewrite Hb].
    + intros _. by exists rasters.
  - exists []. split; [by rewrite app_nil_r|]. split; [|done].
    split; [done|]. intros Hc. apply Hguard in Hc. done.
Qed.

(** In a store whose reads succeed, the group of the example gets its
    upload key and the four processed keys. *)
Lemma C9_processed_keys_witness :
  walkDocGroup c9_repos_ok c8_project c8_site [] c9_group
  = [keyObject "PRJ/ST01/00_Upload/dem.tif";
     keyObject "PRJ/ST01/01_Processed/dem.geojson";
     keyObject "PRJ/ST01/01_Processed/dem_B01.tif";
     keyObject "PRJ/ST01/01_Processed/dem_B02.tif";
     keyObject "PRJ/ST01/01_Processed/dem_B03.tif"].
Proof.
  destruct (C9_processed_keys c9_repos_ok c8_project c8_site c9_group
              [{| document_Id := 8 |}] [] eq_refl)
    as (processed & Hwalk & Hiff & Hkeys).
  rewrite Hwalk.
  assert (Hne : processed <> []).
  { apply Hiff. split; [by left|done]. }
  destruct (Hkeys Hne) as (rasters & -> & Hr & _).
  rewrite Hr; [reflexivity|].
  apply (bool_decide_unpack _); vm_compute; exact I.
Defined.

(** C9 as stated fails: the group has progress 40 and the processed
    name "dem", its documents cannot be read, and the site walk emits no
    key at all for it. *)
Lemma C9_counterexample :
  documentGroupRepo_GetBySiteID c9_repos 42 = Ok [c9_group]
  /\ group_Progress c9_group = 40
  /\ group_ProcessedName c9_group <> ""
  /\ is_err (documentRepo_GetByGroupID c9_repos (group_Id c9_group)) = true
  /\ GetSiteFiles c9_repos 42 = Ok [].
Proof. repeat split; try reflexivity. done. Qed.

End Resolver.

Section BatchLoop.
Import Dto S3Engine TraceSpec.


Lemma ceilDiv_0 : ceilDiv 0 maxDeleteBatchSize = 0%nat.
Proof. reflexivity. Qed.

Lemma ceilDiv_step n :
  (0 < n)%nat ->
  ceilDiv n maxDeleteBatchSize
  = S (ceilDiv (n - maxDeleteBatchSize) maxDeleteBatchSize).
Proof.
  unfold ceilDiv, maxDeleteBatchSize. intros Hn.
  destruct (decide (n <= 1000)%nat) as [Hle|Hgt].
  - replace (n - 1000)%nat with 0%nat by lia.
    change ((0 + 1000 - 1) / 1000)%nat with 0%nat.
    assert (H : ((n + 1000 - 1) / 1000 = 1)%nat); [|by rewrite H].
    symmetry. apply Nat.div_unique with (r := (n - 1)%nat); lia.
  - replace (n + 1000 - 1)%nat with ((n - 1000 + 1000 - 1) + 1 * 1000)%nat
      by lia.
    rewrite Nat.div_add by lia. lia.
Qed.

Lemma length_slice {A} (l : list A) (i end_ : nat) :
  (i <= end_ <= length l)%nat -> length (slice l i end_) = (end_ - i)%nat.
Proof.
  intros H. unfold slice. rewrite length_take, length_drop. lia.
Qed.

Variable w : World.

(** One batch call on a batch that is not empty is one call to the
    backend. *)
Lemma deleteBatchWithClient_event client bucket batch st :
  batch <> [] ->
  exists r,
    deleteBatchWithClient w client bucket batch st
    = (r, {| trace := trace st
                      ++ [EvDeleteObjects client bucket (map Key batch)];
             regionClients := regionClients st |})
    /\ (r.2 = None ->
        exists output,
          client_DeleteObjects w (trace st) client bucket (map Key batch)
          = Ok output /\ r.1 = length (Deleted output)).
Proof.
  intros Hne. unfold deleteBatchWithClient.
  rewrite bool_decide_eq_false_2 by (by destruct batch).
  unfold bind, history, emit, ret. simpl.
  destruct (client_DeleteObjects w (trace st) client bucket (map Key batch))
    as [output|err]; eexists; (split; [reflexivity|]); simpl.
  - intros _. by exists output.
  - done.
Qed.

(** The loop never runs out of [fuel] when given [length objects]. *)
Lemma batchLoop_fuel call objects :
  forall fuel fuel' i totalDeleted st,
    (length objects - i <= fuel)%nat ->
    (length objects - i <= fuel')%nat ->
    batchLoop call objects fuel i totalDeleted st
    = batchLoop call objects fuel' i totalDeleted st.
Proof.
  induction fuel as [|fuel IH]; intros fuel' i total st Hf Hf'.
  - destruct fuel' as [|fuel']; [done|]. simpl.
    rewrite bool_decide_eq_false_2 by lia. done.
  - destruct fuel' as [|fuel']; simpl.
    + rewrite bool_decide_eq_false_2 by lia. done.
    + case_bool_decide as Hi; [|done].
      unfold bind. destruct (call _ st) as [[deleted [err|]] st1]; [done|].
      apply IH; unfold maxDeleteBatchSize; lia.
Qed.


Lemma batchLoop_WithClient client bucket objects :
  forall fuel i totalDeleted st r st',
    (length objects - i <= fuel)%nat ->
    batchLoop (deleteBatchWithClient w client bucket) objects
              fuel i totalDeleted st = (r, st') ->
    exists new,
      trace st' = trace st ++ new
      /\ regionClients st' = regionClients st
      /\ Forall (batchEvent client bucket) new
      /\ (length new <= ceilDiv (length objects - i) maxDeleteBatchSize)%nat
      /\ (r.2 = None ->
          length new = ceilDiv (length objects - i) maxDeleteBatchSize).
Proof.
  induction fuel as [|fuel IH]; intros i total st r st' Hfuel Hrun.
  - simpl in Hrun. injection Hrun as <- <-.
    exists []. rewrite app_nil_r.
    replace (length objects - i)%nat with 0%nat by lia.
    repeat split; done || constructor.
  - simpl in Hrun. case_bool_decide as Hi.
    + set (end_ := if bool_decide (length objects < i + maxDeleteBatchSize)%nat
                   then length objects else (i + maxDeleteBatchSize)%nat)
        in Hrun.
      assert (Hend : (i < end_ <= length objects
                      /\ end_ - i <= maxDeleteBatchSize)%nat).
      { unfold end_, maxDeleteBatchSize. case_bool_decide; lia. }
      assert (Hlen : length (slice objects i end_) = (end_ - i)%nat)
        by (apply length_slice; lia).
      destruct (deleteBatchWithClient_event client bucket
                  (slice objects i end_) st) as (rb & Hcall & _).
      { intros Hnil. rewrite Hnil in Hlen. simpl in Hlen. lia. }
      unfold bind in Hrun. rewrite Hcall in Hrun.
      assert (Hev : batchEvent client bucket
                (EvDeleteObjects client bucket
                   (map Key (slice objects i end_)))).
      { eexists. split; [reflexivity|]. rewrite length_map, Hlen. lia. }
      rewrite (ceilDiv_step (length objects - i)) by lia.
      destruct rb as [deleted [err|]].
      * injection Hrun as <- <-. simpl.
        eexists. split; [reflexivity|]. repeat split; try done.
        -- by constructor.
        -- simpl. lia.
      * apply IH in Hrun as (new & Htr & Hrc & Hall & Hle & Heq);
          [|unfold maxDeleteBatchSize; lia].
        simpl in Htr, Hrc.
        exists (EvDeleteObjects client bucket
                  (map Key (slice objects i end_)) :: new).
        rewrite Htr, <- app_assoc. split; [done|]. split; [done|].
        replace (length objects - (i + maxDeleteBatchSize))%nat
          with (length objects - i - maxDeleteBatchSize)%nat in * by lia.
        split; [by constructor|]. cbn [length]. split; [lia|].
        intros Hnone. by rewrite Heq.
    + injection Hrun as <- <-.
      exists []. rewrite app_nil_r.
      replace (length objects - i)%nat with 0%nat by lia.
      repeat split; done || constructor.
Qed.

End BatchLoop.

Section Partitions.
Import Dto S3Engine TraceSpec.

Lemma clientOf_inj region region' :
  clientOf region = clientOf region' -> region = region'.
Proof.
  unfold clientOf. repeat case_bool_decide; congruence.
Qed.


Lemma issued_weaken client bucket objs (P Q : Prop) evs :
  (Q -> P) -> issued client bucket objs P evs ->
  issued client bucket objs Q evs.
Proof.
  unfold issued. intros HQP (Hall & Hle & Heq).
  split; [done|]. split; [done|]. intros HQ. by apply Heq, HQP.
Qed.

Lemma issued_app_l client bucket objs P evs evs' :
  filter (partitionCall client bucket) evs' = [] ->
  issued client bucket objs P evs ->
  issued client bucket objs P (evs ++ evs').
Proof.
  unfold issued. intros Hnil. by rewrite filter_app, Hnil, app_nil_r.
Qed.

Lemma issued_app_r client bucket objs P evs evs' :
  filter (partitionCall client bucket) evs = [] ->
  issued client bucket objs P evs' ->
  issued client bucket objs P (evs ++ evs').
Proof.
  unfold issued. intros Hnil. by rewrite filter_app, Hnil.
Qed.

Lemma issued_nil client bucket P evs :
  filter (partitionCall client bucket) evs = [] ->
  issued client bucket [] P evs.
Proof.
  unfold issued. intros ->. repeat split; done || constructor.
Qed.

Lemma filter_batchEvents client bucket evs :
  Forall (batchEvent client bucket) evs ->
  filter (partitionCall client bucket) evs = evs.
Proof.
  induction 1 as [|e evs (keys & -> & _) _ IH]; [done|].
  rewrite filter_cons_True by done. by rewrite IH.
Qed.

Lemma filter_other_batchEvents client bucket client' bucket' evs :
  (client, bucket) <> (client', bucket') ->
  Forall (batchEvent client' bucket') evs ->
  filter (partitionCall client bucket) evs = [].
Proof.
  intros Hne. induction 1 as [|e evs (keys & -> & _) _ IH]; [done|].
  rewrite filter_cons_False; [done|]. simpl. intros [-> ->]. done.
Qed.

Variable w : World.

Lemma getClientForRegion_spec region st c st' :
  getClientForRegion w region st = (c, st') ->
  (exists evs,
      trace st' = trace st ++ evs
      /\ forall client bucket,
           filter (partitionCall client bucket) evs = [])
  /\ (forall client, c = Ok client -> client = clientOf region).
Proof.
  unfold getClientForRegion, clientOf.
  case_bool_decide as Hr.
  - intros [= <- <-]. split; [|by intros ? [= <-]].
    exists []. by rewrite app_nil_r.
  - case_bool_decide as Hin.
    + intros [= <- <-]. split; [|by intros ? [= <-]].
      exists []. by rewrite app_nil_r.
    + destruct (config_LoadDefaultConfig w (trace st) region);
        intros [= <- <-]; (split; [|by intros ? [= <-]]);
        by exists [EvLoadConfig region].
Qed.

(** One goroutine issues the calls of its own partition and of no
    other one. *)
Lemma goroutine_spec region bucket bucketObjs acc st acc' st' :
  goroutine w region bucket bucketObjs acc st = (acc', st') ->
  exists evs,
    trace st' = trace st ++ evs
    /\ (acc'.2 = None -> acc.2 = None)
    /\ issued (clientOf region) bucket bucketObjs (acc'.2 = None) evs
    /\ (forall client bucket',
          (client, bucket') <> (clientOf region, bucket) ->
          filter (partitionCall client bucket') evs = []).
Proof.
  unfold goroutine. destruct acc as [totalDeleted groupErr].
  unfold bind.
  destruct (getClientForRegion w region st) as [c st1] eqn:Hc.
  apply getClientForRegion_spec in Hc as [(cfg & Hcfg & Hnone) Hclient].
  destruct c as [client|err].
  - rewrite (Hclient client eq_refl).
    destruct (deleteBucketObjectsWithClient w (clientOf region) bucket
                bucketObjs st1) as [[deleted err] st2] eqn:Hrun.
    unfold deleteBucketObjectsWithClient in Hrun.
    apply batchLoop_WithClient in Hrun
      as (new & Htr & _ & Hall & Hle & Heq); [|lia].
    rewrite Nat.sub_0_r in Hle, Heq.
    assert (Hissued : forall P : Prop,
               (P -> err = None) ->
               issued (clientOf region) bucket bucketObjs P (cfg ++ new)).
    { intros P HP. apply issued_app_r; [done|].
      unfold issued. rewrite filter_batchEvents by done.
      split; [done|]. split; [done|]. intros HPp. by apply Heq, HP. }
    assert (Hother : forall client bucket',
               (client, bucket') <> (clientOf region, bucket) ->
               filter (partitionCall client bucket') (cfg ++ new) = []).
    { intros c' b' Hne. rewrite filter_app, Hnone.
      by rewrite (filter_other_batchEvents _ _ _ _ _ Hne Hall). }
    destruct err as [err|]; intros [= <- <-]; simpl;
      exists (cfg ++ new); rewrite Htr, Hcfg, <- app_assoc;
      (split; [done|]).
    + destruct groupErr; simpl; (split; [done|]);
        (split; [by apply Hissued|done]).
    + split; [done|]. split; [by apply Hissued|done].
  - intros [= <- <-]. exists cfg. split; [done|].
    destruct groupErr; simpl; (split; [done|]);
      (split; [|by intros; apply Hnone]);
      unfold issued; rewrite Hnone;
      (split; [constructor|]); (split; [simpl; lia|done]).
Qed.

End Partitions.

Section DeleteObjectsCalls.
Import Dto S3Engine TraceSpec.

Lemma issued_nil_filter client bucket P evs :
  issued client bucket [] P evs ->
  filter (partitionCall client bucket) evs = [].
Proof.
  intros (_ & Hle & _). cbn [length] in Hle. rewrite ceilDiv_0 in Hle.
  destruct (filter _ evs); [done|]. simpl in Hle. lia.
Qed.

(** The grouping loop sorts every object into the list of its own
    (region, bucket) pair, keeping the order of the key list. *)
Lemma groupObjects_lookup objects region bucket :
  default [] (groupObjects objects !! region ≫= (.!! bucket))
  = filter (inPartition region bucket) objects.
Proof.
  unfold groupObjects.
  enough (Hgen : forall (m : gmap string (gmap string (list S3Object))),
             default [] (fold_left
               (fun regionBucketObjects obj =>
                  let region := Region obj in
                  let bucketObjects :=
                    default ∅ (regionBucketObjects !! region) in
                  <[region :=
                      <[Bucket obj :=
                          default [] (bucketObjects !! Bucket obj) ++ [obj]]>
                      bucketObjects]> regionBucketObjects)
               objects m !! region ≫= (.!! bucket))
             = default [] (m !! region ≫= (.!! bucket))
               ++ filter (inPartition region bucket) objects).
  { rewrite Hgen. by rewrite lookup_empty. }
  induction objects as [|obj objects IH]; intros m; simpl.
  - by rewrite app_nil_r.
  - rewrite IH. clear IH.
    destruct (decide (Region obj = region)) as [Hr|Hr].
    + rewrite Hr, lookup_insert_eq. simpl.
      assert (Hinner : default ∅ (m !! region) !! bucket
                       = m !! region ≫= (.!! bucket)).
      { destruct (m !! region); [done|]. simpl. apply lookup_empty. }
      destruct (decide (Bucket obj = bucket)) as [Hb|Hb].
      * rewrite Hb, lookup_insert_eq. simpl. rewrite Hinner.
        rewrite filter_cons_True by done. by rewrite <- app_assoc.
      * rewrite lookup_insert_ne by done. rewrite Hinner.
        rewrite filter_cons_False; [done|]. by intros [_ ?].
    + rewrite lookup_insert_ne by done.
      rewrite filter_cons_False; [done|]. by intros [? _].
Qed.

Variable w : World.

(** The goroutines of one region. *)
Lemma bucketsLoop_spec region (l : list (string * list S3Object)) :
  NoDup l.*1 ->
  forall acc st acc' st',
    foldM (fun acc bo => goroutine w region bo.1 bo.2 acc) l acc st
    = (acc', st') ->
    exists evs,
      trace st' = trace st ++ evs
      /\ (acc'.2 = None -> acc.2 = None)
      /\ (forall bucket,
            issued (clientOf region) bucket
              (default [] ((list_to_map l : gmap string (list S3Object))
                             !! bucket))
              (acc'.2 = None) evs)
      /\ (forall client bucket,
            client <> clientOf region ->
            filter (partitionCall client bucket) evs = []).
Proof.
  induction l as [|[bucket0 objs0] l IH]; intros Hnd acc st acc' st' Hrun.
  - injection Hrun as <- <-. exists []. rewrite app_nil_r.
    split; [done|]. split; [done|]. split; [|done].
    intros bucket. rewrite list_to_map_nil, lookup_empty. by apply issued_nil.
  - apply NoDup_cons in Hnd as [Hfresh Hnd]. simpl in Hrun.
    unfold bind in Hrun.
    destruct (goroutine w region bucket0 objs0 acc st)
      as [acc1 st1] eqn:Hgo.
    apply goroutine_spec in Hgo as (evs1 & Htr1 & Hmono1 & Hiss1 & Hoth1).
    apply IH in Hrun as (evs2 & Htr2 & Hmono2 & Hiss2 & Hoth2); [|done].
    exists (evs1 ++ evs2). rewrite Htr2, Htr1, <- app_assoc.
    split; [done|]. split; [by intros; apply Hmono1, Hmono2|]. split.
    + intros bucket. rewrite list_to_map_cons. simpl.
      destruct (decide (bucket0 = bucket)) as [<-|Hne].
      * rewrite lookup_insert_eq. simpl.
        apply issued_app_l.
        -- apply (issued_nil_filter _ _ (acc'.2 = None)).
           specialize (Hiss2 bucket0).
           by rewrite (not_elem_of_list_to_map_1 _ _ Hfresh) in Hiss2.
        -- by apply (issued_weaken _ _ _ _ _ _ Hmono2).
      * rewrite lookup_insert_ne by done.
        apply issued_app_r; [|done].
        apply Hoth1. congruence.
    + intros client bucket Hne. rewrite filter_app.
      rewrite Hoth1 by congruence.
      by rewrite Hoth2.
Qed.

(** The goroutines of every region. *)
Lemma regionsLoop_spec
    (l : list (string * gmap string (list S3Object))) :
  NoDup l.*1 ->
  forall acc st acc' st',
    foldM (fun acc rb =>
             foldM (fun acc bo => goroutine w rb.1 bo.1 bo.2 acc)
                   (map_to_list rb.2) acc)
          l acc st = (acc', st') ->
    exists evs,
      trace st' = trace st ++ evs
      /\ (acc'.2 = None -> acc.2 = None)
      /\ (forall region bucket,
            issued (clientOf region) bucket
              (default []
                 ((list_to_map l
                    : gmap string (gmap string (list S3Object)))
                    !! region ≫= (.!! bucket)))
              (acc'.2 = None) evs).
Proof.
  induction l as [|[region0 m0] l IH]; intros Hnd acc st acc' st' Hrun.
  - injection Hrun as <- <-. exists []. rewrite app_nil_r.
    split; [done|]. split; [done|].
    intros region bucket. rewrite list_to_map_nil, lookup_empty.
    by apply issued_nil.
  - apply NoDup_cons in Hnd as [Hfresh Hnd]. simpl in Hrun.
    unfold bind in Hrun.
    destruct (foldM (fun acc bo => goroutine w region0 bo.1 bo.2 acc)
                    (map_to_list m0) acc st) as [acc1 st1] eqn:Hin.
    apply bucketsLoop_spec in Hin
      as (evs1 & Htr1 & Hmono1 & Hiss1 & Hoth1);
      [|apply NoDup_fst_map_to_list].
    apply IH in Hrun as (evs2 & Htr2 & Hmono2 & Hiss2); [|done].
    exists (evs1 ++ evs2). rewrite Htr2, Htr1, <- app_assoc.
    split; [done|]. split; [by intros; apply Hmono1, Hmono2|].
    intros region bucket. rewrite list_to_map_cons. simpl.
    destruct (decide (region0 = region)) as [<-|Hne].
    + rewrite lookup_insert_eq. simpl.
      apply issued_app_l.
      * apply (issued_nil_filter _ _ (acc'.2 = None)).
        specialize (Hiss2 region0 bucket).
        by rewrite (not_elem_of_list_to_map_1 _ _ Hfresh) in Hiss2.
      * specialize (Hiss1 bucket). rewrite list_to_map_to_list in Hiss1.
        by apply (issued_weaken _ _ _ _ _ _ Hmono2).
    + rewrite lookup_insert_ne by done.
      apply issued_app_r; [|done].
      apply Hoth1. intros Heq. by apply clientOf_inj in Heq.
Qed.

(** C3, as amended.  For every key list handed to [DeleteObjects] and
    every (region, bucket) pair, with [M] the number of objects of the
    list in that partition: the backend batch-delete calls issued for
    the partition carry between 1 and 1000 keys each and are at most
    [ceil(M/1000)]; they are exactly [ceil(M/1000)] when [DeleteObjects]
    returns no error.  (A batch call that fails ends the calls of its
    partition.) *)
Theorem C3_batch_calls_per_partition (objects : list S3Object)
    (region bucket : string) (st : State) :
  let M := length (filter (inPartition region bucket) objects) in
  let run := DeleteObjects w objects st in
  exists evs,
    trace run.2 = trace st ++ evs
    /\ let calls := filter (partitionCall (clientOf region) bucket) evs in
       Forall (fun e => exists keys,
                   e = EvDeleteObjects (clientOf region) bucket keys
                   /\ (1 <= length keys <= 1000)%nat) calls
       /\ (length calls <= ceilDiv M 1000)%nat
       /\ (run.1.2 = None -> length calls = ceilDiv M 1000).
Proof.
  intros M run. subst run M. unfold DeleteObjects.
  case_bool_decide as Hlen.
  - apply length_zero_iff_nil in Hlen as ->. simpl.
    exists []. rewrite app_nil_r. split; [done|]. simpl.
    repeat split; done || constructor.
  - destruct (foldM _ (map_to_list (groupObjects objects)) (0%nat, None) st)
      as [acc' st'] eqn:Hrun.
    apply regionsLoop_spec in Hrun as (evs & Htr & _ & Hiss);
      [|apply NoDup_fst_map_to_list].
    exists evs. split; [done|].
    specialize (Hiss region bucket).
    rewrite list_to_map_to_list, groupObjects_lookup in Hiss.
    exact Hiss.
Qed.

End DeleteObjectsCalls.

Section BucketDeletion.
Import Dto S3Engine TraceSpec.
Variable w : World.

Lemma Wait_run st :
  Wait w st
  = (rateLimiter_Wait w (trace st),
     {| trace := trace st ++ [EvLimiterWait];
        regionClients := regionClients st |}).
Proof. reflexivity. Qed.


Lemma extends_with_refl P st : extends_with P st st [].
Proof. split; [by rewrite app_nil_r|constructor]. Qed.

Lemma extends_with_trans P st st1 st2 new new' :
  extends_with P st st1 new -> extends_with P st1 st2 new' ->
  extends_with P st st2 (new ++ new').
Proof.
  intros [Htr Hall] [Htr' Hall']. split.
  - by rewrite Htr', Htr, <- app_assoc.
  - by apply Forall_app.
Qed.

Lemma batchRetryLoop_spec bucket objects :
  objects <> [] ->
  forall fuel attempt lastErr st r st',
    batchRetryLoop w bucket objects fuel attempt lastErr st = (r, st') ->
    exists new,
      extends_with (objectPhaseEvent bucket) st st' new
      /\ (r.2 = None ->
          EvDeleteObjects DefaultClient bucket (map Key objects) ∈ new).
Proof.
  intros Hne.
  induction fuel as [|fuel IH]; intros attempt lastErr st r st' Hrun;
    simpl in Hrun.
  { injection Hrun as <- <-. exists []. split; [apply extends_with_refl|done]. }
  destruct (attempt <=? maxRetries).
  2:{ injection Hrun as <- <-. exists [].
      split; [apply extends_with_refl|done]. }
  unfold bind in Hrun. rewrite Wait_run in Hrun.
  destruct (rateLimiter_Wait w (trace st)) as [err|].
  { injection Hrun as <- <-. exists [EvLimiterWait].
    split; [|done]. split; [done|]. by repeat constructor. }
  unfold deleteBatch in Hrun.
  destruct (deleteBatchWithClient_event w DefaultClient bucket objects
              {| trace := trace st ++ [EvLimiterWait];
                 regionClients := regionClients st |} Hne)
    as (rb & Hcall & _).
  rewrite Hcall in Hrun. simpl in Hrun.
  set (del := EvDeleteObjects DefaultClient bucket (map Key objects)) in *.
  assert (Hdel : objectPhaseEvent bucket del) by done.
  destruct rb as [deleted [err|]].
  2:{ injection Hrun as <- <-. exists [EvLimiterWait; del].
      split.
      - split; [by rewrite <- app_assoc|]. by repeat constructor.
      - intros _. apply list_elem_of_further, list_elem_of_here. }
  destruct (attempt =? maxRetries).
  { injection Hrun as <- <-. exists [EvLimiterWait; del].
    split; [|done].
    split; [by rewrite <- app_assoc|]. by repeat constructor. }
  unfold history, emit in Hrun. simpl in Hrun.
  destruct (ctx_Done w _ _) as [ctxErr|].
  { injection Hrun as <- <-.
    exists [EvLimiterWait; del; EvSleep (backoffDelay attempt)].
    split; [|done].
    split; [by rewrite <- !app_assoc|]. by repeat constructor. }
  apply IH in Hrun as (new & [Htr Hall] & Hsucc). simpl in Htr.
  exists ([EvLimiterWait; del; EvSleep (backoffDelay attempt)] ++ new).
  split.
  - split; [by rewrite Htr, <- !app_assoc|].
    apply Forall_app. split; [by repeat constructor|done].
  - intros Hnone. apply elem_of_app. right. by apply Hsucc.
Qed.

Lemma deleteBatchWithRetry_spec bucket batch st r st' :
  batch <> [] ->
  deleteBatchWithRetry w bucket batch st = (r, st') ->
  exists new,
    extends_with (objectPhaseEvent bucket) st st' new
    /\ (r.2 = None ->
        EvDeleteObjects DefaultClient bucket (map Key batch) ∈ new).
Proof. intros Hne. by apply batchRetryLoop_spec. Qed.

Lemma slice_drop {A} (l : list A) (i end_ : nat) :
  (i <= end_)%nat -> drop i l = slice l i end_ ++ drop end_ l.
Proof.
  intros Hle. unfold slice.
  replace end_ with (i + (end_ - i))%nat at 2 by lia.
  by rewrite <- drop_drop, take_drop.
Qed.

(** The batch loop around the retried call submits every object from
    index [i] on when it returns no error. *)
Lemma batchLoop_WithRetry bucket objects :
  forall fuel i totalDeleted st r st',
    (length objects - i <= fuel)%nat ->
    batchLoop (deleteBatchWithRetry w bucket) objects
              fuel i totalDeleted st = (r, st') ->
    exists new,
      extends_with (objectPhaseEvent bucket) st st' new
      /\ (r.2 = None ->
          forall key, key ∈ map Key (drop i objects) ->
            exists keys,
              EvDeleteObjects DefaultClient bucket keys ∈ new
              /\ key ∈ keys).
Proof.
  induction fuel as [|fuel IH]; intros i total st r st' Hfuel Hrun;
    simpl in Hrun.
  { injection Hrun as <- <-. exists []. split; [apply extends_with_refl|].
    intros _ key. rewrite drop_ge by lia. by intros ?%elem_of_nil. }
  case_bool_decide as Hi.
  2:{ injection Hrun as <- <-. exists [].
      split; [apply extends_with_refl|].
      intros _ key. rewrite drop_ge by lia. by intros ?%elem_of_nil. }
  set (end_ := if bool_decide (length objects < i + maxDeleteBatchSize)%nat
               then length objects else (i + maxDeleteBatchSize)%nat)
    in Hrun.
  assert (Hend : (i < end_ <= length objects)%nat
                 /\ (end_ = length objects
                     \/ end_ = (i + maxDeleteBatchSize)%nat)).
  { unfold end_, maxDeleteBatchSize. case_bool_decide; lia. }
  assert (Hlen : length (slice objects i end_) = (end_ - i)%nat)
    by (apply length_slice; lia).
  unfold bind in Hrun.
  destruct (deleteBatchWithRetry w bucket (slice objects i end_) st)
    as [rb st1] eqn:Hcall.
  apply deleteBatchWithRetry_spec in Hcall as (new1 & Hext1 & Hsub1).
  2:{ intros Hnil. rewrite Hnil in Hlen. simpl in Hlen. lia. }
  destruct rb as [deleted [err|]].
  { injection Hrun as <- <-. exists new1. by split. }
  apply IH in Hrun as (new2 & Hext2 & Hsub2);
    [|unfold maxDeleteBatchSize; lia].
  exists (new1 ++ new2). split; [by eapply extends_with_trans|].
  intros Hnone key.
  rewrite (slice_drop objects i end_) by lia.
  rewrite map_app, elem_of_app. intros [Hin|Hin].
  - exists (map Key (slice objects i end_)). split; [|done].
    apply elem_of_app. left. by apply Hsub1.
  - destruct Hend as [_ [Hend|Hend]].
    + rewrite drop_ge in Hin by lia. by apply elem_of_nil in Hin.
    + rewrite Hend in Hin.
      destruct (Hsub2 Hnone key Hin) as (keys & Hev & Hkey).
      exists keys. split; [|done]. apply elem_of_app. by right.
Qed.

Lemma deletePage_spec bucketName contents st err st' :
  deletePage w bucketName contents st = (err, st') ->
  exists new,
    extends_with (objectPhaseEvent bucketName) st st' new
    /\ (err = None ->
        forall key, key ∈ contents ->
          exists keys,
            EvDeleteObjects DefaultClient bucketName keys ∈ new
            /\ key ∈ keys).
Proof.
  unfold deletePage. case_bool_decide as Hlen.
  - intros [= <- <-]. exists []. split; [apply extends_with_refl|].
    apply length_zero_iff_nil in Hlen as ->.
    by intros _ key ?%elem_of_nil.
  - unfold bind, deleteBucketObjectsOptimized.
    rewrite length_map. rewrite bool_decide_eq_false_2 by done.
    destruct (batchLoop _ _ _ _ _ st) as [[deleted e] st1] eqn:Hrun.
    apply batchLoop_WithRetry in Hrun as (new & Hext & Hsub);
      [|rewrite length_map; lia].
    destruct e as [e|]; intros [= <- <-]; exists new; (split; [done|]);
      [done|].
    intros _ key Hin. apply Hsub; [done|].
    rewrite drop_0, map_map. simpl. by rewrite map_id.
Qed.

(** The paging loop: an error-free run has fetched every page and
    submitted every listed key. *)
Lemma pageLoop_spec bucketName :
  forall pages st err st',
    pageLoop w bucketName pages st = (err, st') ->
    exists new,
      extends_with (objectPhaseEvent bucketName) st st' new
      /\ (err = None ->
          forall key, key ∈ listedKeys pages ->
            exists keys,
              EvDeleteObjects DefaultClient bucketName keys ∈ new
              /\ key ∈ keys).
Proof.
  induction pages as [e|contents|contents next IH];
    intros st err st' Hrun; simpl in Hrun;
    unfold bind in Hrun; rewrite Wait_run in Hrun;
    (destruct (rateLimiter_Wait w (trace st)) as [lerr|];
     [injection Hrun as <- <-; exists [EvLimiterWait];
      split; [split; [done| by repeat constructor]|done]|]);
    unfold emit in Hrun; simpl in Hrun.
  - injection Hrun as <- <-. exists [EvLimiterWait; EvListPage bucketName].
    split; [|done].
    split; [by rewrite <- app_assoc|by repeat constructor].
  - apply deletePage_spec in Hrun as (new & [Htr Hall] & Hsub).
    simpl in Htr.
    exists ([EvLimiterWait; EvListPage bucketName] ++ new). split.
    + split; [by rewrite Htr, <- !app_assoc|].
      apply Forall_app. split; [by repeat constructor|done].
    + intros Hnone key Hin.
      destruct (Hsub Hnone key Hin) as (keys & Hev & Hkey).
      exists keys. split; [|done]. apply elem_of_app. by right.
  - destruct (deletePage w bucketName contents _) as [e st1] eqn:Hpage.
    apply deletePage_spec in Hpage as (new1 & [Htr1 Hall1] & Hsub1).
    simpl in Htr1.
    destruct e as [e|].
    + injection Hrun as <- <-.
      exists ([EvLimiterWait; EvListPage bucketName] ++ new1).
      split; [|done].
      split; [by rewrite Htr1, <- !app_assoc|].
      apply Forall_app. split; [by repeat constructor|done].
    + apply IH in Hrun as (new2 & [Htr2 Hall2] & Hsub2).
      exists ([EvLimiterWait; EvListPage bucketName] ++ new1 ++ new2).
      split.
      * split; [by rewrite Htr2, Htr1, <- !app_assoc|].
        apply Forall_app. split; [by repeat constructor|].
        by apply Forall_app.
      * intros Hnone key. cbn [listedKeys].
        rewrite elem_of_app. intros [Hin|Hin].
        -- destruct (Hsub1 eq_refl key Hin) as (keys & Hev & Hkey).
           exists keys. split; [|done].
           apply elem_of_app. right. apply elem_of_app. by left.
        -- destruct (Hsub2 Hnone key Hin) as (keys & Hev & Hkey).
           exists keys. split; [|done].
           apply elem_of_app. right. apply elem_of_app. by right.
Qed.

Lemma bucketRetryLoop_spec bucketName :
  forall fuel attempt lastErr st err st',
    bucketRetryLoop w bucketName fuel attempt lastErr st = (err, st') ->
    exists new, extends_with (removalPhaseEvent bucketName) st st' new.
Proof.
  induction fuel as [|fuel IH]; intros attempt lastErr st err st' Hrun;
    simpl in Hrun.
  { injection Hrun as <- <-. exists []. apply extends_with_refl. }
  destruct (attempt <=? maxRetries).
  2:{ injection Hrun as <- <-. exists []. apply extends_with_refl. }
  unfold bind in Hrun. rewrite Wait_run in Hrun.
  destruct (rateLimiter_Wait w (trace st)) as [lerr|].
  { injection Hrun as <- <-. exists [EvLimiterWait].
    split; [done|by repeat constructor]. }
  unfold history, emit in Hrun. simpl in Hrun.
  destruct (client_DeleteBucket w _ bucketName) as [derr|].
  2:{ injection Hrun as <- <-.
      exists [EvLimiterWait; EvDeleteBucket bucketName].
      split; [by rewrite <- app_assoc|by repeat constructor]. }
  destruct (attempt =? maxRetries).
  { injection Hrun as <- <-.
    exists [EvLimiterWait; EvDeleteBucket bucketName].
    split; [by rewrite <- app_assoc|by repeat constructor]. }
  simpl in Hrun.
  destruct (ctx_Done w _ _) as [ctxErr|].
  { injection Hrun as <- <-.
    exists [EvLimiterWait; EvDeleteBucket bucketName;
            EvSleep (backoffDelay attempt)].
    split; [by rewrite <- !app_assoc|by repeat constructor]. }
  apply IH in Hrun as (new & [Htr Hall]). simpl in Htr.
  exists ([EvLimiterWait; EvDeleteBucket bucketName;
           EvSleep (backoffDelay attempt)] ++ new).
  split; [by rewrite Htr, <- !app_assoc|].
  apply Forall_app. split; [by repeat constructor|done].
Qed.

(** The two phases of [DeleteBucket]: the paginated listing and batched
    deletion of the bucket's objects ([listing]), and only then the calls
    of the bucket removal ([removal]).  When the first phase ends in an
    error, the removal is never attempted and that error is returned,
    wrapped, to the caller.  When it ends without error, every key of
    every listed page was submitted in a batch-delete call; whether the
    backend deleted it is not looked at. *)
Lemma DeleteBucket_phases
    (bucketName : string) (st : State) :
  let objs := deleteAllObjectsInBucket w bucketName st in
  let run := DeleteBucket w bucketName st in
  exists listing removal : list Event,
    trace objs.2 = trace st ++ listing
    /\ trace run.2 = trace st ++ listing ++ removal
    /\ Forall (objectPhaseEvent bucketName) listing
    /\ Forall (removalPhaseEvent bucketName) removal
    /\ (forall bucket, EvDeleteBucket bucket ∉ listing)
    /\ (forall err,
          objs.1 = Some err ->
          removal = []
          /\ run.1 = Some (ErrWrap ("failed to delete objects in bucket "
                                      +:+ bucketName +:+ ": ") err))
    /\ (objs.1 = None ->
        forall key, key ∈ listedKeys (paginator w bucketName) ->
          exists keys,
            EvDeleteObjects DefaultClient bucketName keys ∈ listing
            /\ key ∈ keys).
Proof.
  intros objs run. subst objs run. unfold DeleteBucket, bind.
  destruct (deleteAllObjectsInBucket w bucketName st) as [e st1] eqn:Hobjs.
  unfold deleteAllObjectsInBucket in Hobjs.
  apply pageLoop_spec in Hobjs as (listing & [Htr Hall] & Hsub).
  assert (Hnoremoval : forall bucket, EvDeleteBucket bucket ∉ listing).
  { intros bucket Hin.
    by apply (proj1 (Forall_forall _ _) Hall) in Hin. }
  destruct e as [e|]; simpl.
  - exists listing, []. rewrite app_nil_r.
    split; [done|]. split; [done|]. split; [done|].
    split; [constructor|]. split; [done|]. split; [|done].
    by intros err [= <-].
  - destruct (deleteBucketWithRetry w bucketName st1) as [e st2] eqn:Hrem.
    unfold deleteBucketWithRetry in Hrem.
    apply bucketRetryLoop_spec in Hrem as (removal & [Htr2 Hall2]).
    exists listing, removal.
    split; [done|]. split.
    { destruct e; simpl; by rewrite Htr2, Htr, <- app_assoc. }
    repeat split; done.
Qed.

End BucketDeletion.

Section EngineRuns.
Import Dto S3Engine TraceSpec EngineExamples.

(** C1.  One partition of 1001 objects; the backend confirms the first
    batch of 1000 and rejects the second.  The batch loop reports the
    1000 deleted objects next to the error, and [DeleteObjects], which
    adds a partition's count only when the partition returned no error,
    returns 0 with the error. *)
Theorem C1_partial_progress_dropped :
  let objects := objectsOf "bkt" 1001 in
  let w := failAfter 1 in
  (exists err,
      (deleteBucketObjectsWithClient w DefaultClient "bkt" objects initial).1
      = (1000%nat, Some err))
  /\ (exists err, (DeleteObjects w objects initial).1 = (0%nat, Some err))
  /\ length (filter (partitionCall DefaultClient "bkt")
               (trace (DeleteObjects w objects initial).2)) = 2%nat.
Proof.
  split; [|split].
  - eexists. vm_compute. reflexivity.
  - eexists. vm_compute. reflexivity.
  - vm_compute. reflexivity.
Qed.

(** C5.  A bucket that holds the objects "a" and "b"; the backend
    accepts the batch-delete call and reports both keys as failed, so
    that nothing is deleted, and refuses to remove a bucket that is not
    empty.  [deleteAllObjectsInBucket] returns no error although both
    listed objects are still there, and [DeleteBucket] goes on to the
    bucket removal, which it calls four times before it gives up. *)
Theorem C5_removal_attempted_with_undeleted_objects :
  let w := perKeyFailures in
  let objs := deleteAllObjectsInBucket w "bkt" initial in
  let run := DeleteBucket w "bkt" initial in
  listedKeys (paginator w "bkt") = ["a"; "b"]
  /\ objs.1 = None
  /\ trace objs.2
     = [EvLimiterWait; EvListPage "bkt";
        EvLimiterWait; EvDeleteObjects DefaultClient "bkt" ["a"; "b"]]
  /\ client_DeleteObjects w [EvLimiterWait; EvListPage "bkt"; EvLimiterWait]
       DefaultClient "bkt" ["a"; "b"]
     = Ok {| Deleted := []; Errors := ["a"; "b"] |}
  /\ confirmed w [] (trace objs.2) = 0%nat
  /\ trace run.2
     = trace objs.2
       ++ [EvLimiterWait; EvDeleteBucket "bkt"; EvSleep (backoffDelay 0);
           EvLimiterWait; EvDeleteBucket "bkt"; EvSleep (backoffDelay 1);
           EvLimiterWait; EvDeleteBucket "bkt"; EvSleep (backoffDelay 2);
           EvLimiterWait; EvDeleteBucket "bkt"]
  /\ run.1
     = Some (ErrWrap "failed to delete bucket bkt: "
               (ErrWrap "bucket deletion failed after 4 attempts: "
                  (ErrText "BucketNotEmpty"))).
Proof.
  split; [reflexivity|]. split; [reflexivity|].
  split; [vm_compute; reflexivity|]. split; [reflexivity|].
  split; [vm_compute; reflexivity|].
  split; vm_compute; reflexivity.
Qed.

(** C3 as stated fails: the partition holds 1001 objects, two batches
    by [ceil(1001/1000)], and the first batch call fails; one call is
    issued. *)
Lemma C3_counterexample :
  let objects := objectsOf "bkt" 1001 in
  let run := DeleteObjects (failAfter 0) objects initial in
  length (filter (inPartition "" "bkt") objects) = 1001%nat
  /\ ceilDiv 1001 1000 = 2%nat
  /\ length (filter (partitionCall (clientOf "") "bkt") (trace run.2))
     = 1%nat.
Proof. vm_compute. repeat split; reflexivity. Qed.

(** The delay before the retry that follows attempt [attempt] grows by
    [baseDelay] per attempt. *)
Lemma backoffDelay_linear (attempt : Z) :
  0 <= attempt < maxRetries ->
  backoffDelay attempt = (attempt + 1) * baseDelay.
Proof.
  unfold maxRetries, backoffDelay, wrap64, baseDelay, maxDelay, Second,
    Millisecond.
  intros H.
  assert (attempt = 0 \/ attempt = 1 \/ attempt = 2) as [-> | [-> | ->]] by lia;
    reflexivity.
Qed.

(** C4.  A batch whose delete call fails on every attempt: four
    attempts, each after a limiter acquisition, and between them delays
    of 100 ms, 200 ms and 300 ms.  The third delay is not the 400 ms of
    a doubling backoff. *)
Theorem C4_backoff_delays :
  let run := deleteBatchWithRetry (failAfter 0) "bkt" (objectsOf "bkt" 1)
                                  initial in
  let del := EvDeleteObjects DefaultClient "bkt" ["k0"] in
  trace run.2
  = [EvLimiterWait; del; EvSleep (100 * Millisecond);
     EvLimiterWait; del; EvSleep (200 * Millisecond);
     EvLimiterWait; del; EvSleep (300 * Millisecond);
     EvLimiterWait; del]
  /\ omap isSleep (trace run.2)
     = [baseDelay; 2 * baseDelay; 3 * baseDelay]
  /\ omap isSleep (trace run.2)
     <> [baseDelay; 2 * baseDelay; 4 * baseDelay].
Proof. vm_compute. repeat split; congruence. Qed.

End EngineRuns.

Section RetryPolicy.
Import Dto S3Engine TraceSpec EngineExamples.

Lemma backoffDelay_bounds (attempt : Z) :
  0 <= attempt < maxRetries ->
  baseDelay <= backoffDelay attempt <= maxDelay.
Proof.
  intros H. rewrite backoffDelay_linear by done.
  unfold maxRetries, baseDelay, maxDelay, Second, Millisecond in *. lia.
Qed.

Section Shape.
Variables (client : Client) (bucket : string) (keys : list string).
Let call : Event := EvDeleteObjects client bucket keys.

Lemma retryTrace_calls attempt new :
  0 <= attempt <= maxRetries ->
  retryTrace call attempt new ->
  (length (filter (partitionCall client bucket) new)
   <= Z.to_nat (maxRetries + 1 - attempt))%nat.
Proof.
  intros Ha Htr. revert Ha.
  induction Htr as [a|a|a Hlt|a rest Hlt Hrest IH]; intros Ha;
    unfold maxRetries in *.
  - rewrite filter_cons_False by (simpl; tauto). simpl. lia.
  - rewrite filter_cons_False by (simpl; tauto).
    rewrite filter_cons_True by done. simpl. lia.
  - rewrite filter_cons_False by (simpl; tauto).
    rewrite filter_cons_True by done.
    rewrite filter_cons_False by (simpl; tauto). simpl. lia.
  - specialize (IH ltac:(lia)).
    rewrite filter_app, length_app.
    rewrite filter_cons_False by (simpl; tauto).
    rewrite filter_cons_True by done.
    rewrite filter_cons_False by (simpl; tauto). simpl. lia.
Qed.

Lemma retryTrace_limiter attempt new :
  retryTrace call attempt new ->
  forall i, new !! i = Some call ->
    exists j, i = S j /\ new !! j = Some EvLimiterWait.
Proof.
  induction 1 as [a|a|a Hlt|a rest Hlt Hrest IH]; intros i Hi.
  - destruct i as [|[|i]]; simpl in Hi; discriminate.
  - destruct i as [|[|i]]; simpl in Hi; try discriminate.
    by exists 0%nat.
  - destruct i as [|[|[|i]]]; simpl in Hi; try discriminate.
    by exists 0%nat.
  - destruct i as [|[|[|i]]]; simpl in Hi; try discriminate.
    + by exists 0%nat.
    + destruct (IH i Hi) as (j & -> & Hj).
      exists (S (S (S j))). by split.
Qed.

Lemma retryTrace_delays attempt new :
  0 <= attempt ->
  retryTrace call attempt new ->
  forall delay, EvSleep delay ∈ new ->
    baseDelay <= delay <= maxDelay.
Proof.
  intros Ha Htr. revert Ha.
  induction Htr as [a|a|a Hlt|a rest Hlt Hrest IH];
    intros Ha delay Hin.
  - apply list_elem_of_singleton in Hin. discriminate.
  - apply elem_of_cons in Hin as [Hin|Hin]; [discriminate|].
    apply list_elem_of_singleton in Hin. discriminate.
  - apply elem_of_cons in Hin as [Hin|Hin]; [discriminate|].
    apply elem_of_cons in Hin as [Hin|Hin]; [discriminate|].
    apply list_elem_of_singleton in Hin. injection Hin as ->.
    by apply backoffDelay_bounds.
  - apply elem_of_app in Hin as [Hin|Hin].
    + apply elem_of_cons in Hin as [Hin|Hin]; [discriminate|].
      apply elem_of_cons in Hin as [Hin|Hin]; [discriminate|].
      apply list_elem_of_singleton in Hin. injection Hin as ->.
      by apply backoffDelay_bounds.
    + apply IH; [lia|done].
Qed.
End Shape.

Variable w : World.

(** The loop of [deleteBatchWithRetry] from attempt [attempt] on: its
    calls have the shape of [retryTrace], and a wait during which the
    context is done is its last call. *)
Lemma batchRetryLoop_policy bucket objects :
  objects <> [] ->
  forall fuel attempt lastErr st r st',
    0 <= attempt <= maxRetries ->
    (Z.to_nat (maxRetries - attempt) < fuel)%nat ->
    batchRetryLoop w bucket objects fuel attempt lastErr st = (r, st') ->
    exists new,
      trace st' = trace st ++ new
      /\ retryTrace (EvDeleteObjects DefaultClient bucket (map Key objects))
                    attempt new
      /\ (forall pre delay post ctxErr,
            new = pre ++ EvSleep delay :: post ->
            ctx_Done w (trace st ++ pre) delay = Some ctxErr ->
            post = [] /\ r = (0%nat, Some ctxErr)).
Proof.
  intros Hne.
  induction fuel as [|fuel IH];
    intros attempt lastErr st r st' Ha Hfuel Hrun; [lia|].
  simpl in Hrun.
  rewrite (proj2 (Z.leb_le _ _)) in Hrun by lia.
  unfold bind in Hrun. rewrite Wait_run in Hrun.
  set (del := EvDeleteObjects DefaultClient bucket (map Key objects)) in *.
  destruct (rateLimiter_Wait w (trace st)) as [err|].
  { injection Hrun as <- <-. exists [EvLimiterWait].
    split; [done|]. split; [constructor|].
    intros [|p0 [|p1 pre]] delay post ctxErr Heq; discriminate Heq. }
  unfold deleteBatch in Hrun.
  destruct (deleteBatchWithClient_event w DefaultClient bucket objects
              {| trace := trace st ++ [EvLimiterWait];
                 regionClients := regionClients st |} Hne)
    as (rb & Hcall & _).
  rewrite Hcall in Hrun. simpl in Hrun. fold del in Hrun.
  destruct rb as [deleted [err|]].
  2:{ injection Hrun as <- <-. exists [EvLimiterWait; del].
      split; [by rewrite <- app_assoc|]. split; [constructor|].
      intros [|p0 [|p1 [|p2 pre]]] delay post ctxErr Heq;
        discriminate Heq. }
  destruct (attempt =? maxRetries) eqn:Hlast.
  { injection Hrun as <- <-. exists [EvLimiterWait; del].
    split; [by rewrite <- app_assoc|]. split; [constructor|].
    intros [|p0 [|p1 [|p2 pre]]] delay post ctxErr Heq;
      discriminate Heq. }
  apply Z.eqb_neq in Hlast.
  unfold history, emit in Hrun. simpl in Hrun.
  destruct (ctx_Done w ((trace st ++ [EvLimiterWait]) ++ [del])
              (backoffDelay attempt)) as [ctxErr|] eqn:Hctx.
  { injection Hrun as <- <-.
    exists [EvLimiterWait; del; EvSleep (backoffDelay attempt)].
    split; [by rewrite <- !app_assoc|].
    split; [constructor; lia|].
    intros [|p0 [|p1 [|p2 pre]]] delay post ctxErr' Heq Hdone;
      try discriminate Heq.
    - injection Heq as <- <- <- <-.
      rewrite <- app_assoc in Hctx. simpl in Hctx.
      rewrite Hctx in Hdone. by injection Hdone as <-.
    - injection Heq as _ _ _ Heq. by destruct pre. }
  apply IH in Hrun as (rest & Htr & Hshape & Hcancel); [|lia|lia].
  simpl in Htr.
  exists ([EvLimiterWait; del; EvSleep (backoffDelay attempt)] ++ rest).
  split; [by rewrite Htr, <- !app_assoc|].
  split; [constructor; [lia|done]|].
  intros [|p0 [|p1 [|p2 pre]]] delay post ctxErr' Heq Hdone;
    try discriminate Heq.
  - injection Heq as <- <- <- <-.
    rewrite <- app_assoc in Hctx. simpl in Hctx.
    rewrite Hctx in Hdone. discriminate Hdone.
  - injection Heq as <- <- <- Heq.
    apply (Hcancel pre delay post ctxErr' Heq).
    simpl. rewrite <- !app_assoc. simpl. exact Hdone.
Qed.

(** X1.  The retry policy of [deleteBatchWithRetry] on a batch that is
    not empty: at most [maxRetries + 1] = 4 backend calls, a rate-limiter
    acquisition immediately before each of them, waits of at least
    100 ms and at most 5 s, and a wait during which the caller's context
    is done is the last call, the context's error being returned. *)
Theorem deleteBatchWithRetry_policy (bucket : string)
    (batch : list S3Object) (st : State) :
  batch <> [] ->
  let run := deleteBatchWithRetry w bucket batch st in
  let call := EvDeleteObjects DefaultClient bucket (map Key batch) in
  exists new,
    trace run.2 = trace st ++ new
    /\ (length (filter (partitionCall DefaultClient bucket) new) <= 4)%nat
    /\ (forall i, new !! i = Some call ->
          exists j, i = S j /\ new !! j = Some EvLimiterWait)
    /\ (forall delay, EvSleep delay ∈ new ->
          100 * Millisecond <= delay <= 5 * Second)
    /\ (forall pre delay post ctxErr,
          new = pre ++ EvSleep delay :: post ->
          ctx_Done w (trace st ++ pre) delay = Some ctxErr ->
          post = [] /\ run.1 = (0%nat, Some ctxErr)).
Proof.
  intros Hne run call. subst run.
  destruct (deleteBatchWithRetry w bucket batch st) as [r st'] eqn:Hrun.
  unfold deleteBatchWithRetry in Hrun.
  apply batchRetryLoop_policy in Hrun as (new & Htr & Hshape & Hcancel);
    [|done|unfold maxRetries; lia|unfold maxRetries; simpl; lia].
  exists new. split; [done|].
  split.
  { apply (retryTrace_calls DefaultClient bucket (map Key batch) 0 new);
      [unfold maxRetries; lia|done]. }
  split.
  { by apply (retryTrace_limiter DefaultClient bucket (map Key batch) 0). }
  split; [|done].
  by apply (retryTrace_delays DefaultClient bucket (map Key batch) 0).
Qed.

End RetryPolicy.

Section RetryPolicyRun.
Import Dto S3Engine TraceSpec EngineExamples.

Lemma deleteBatchWithRetry_policy_witness :
  let run := deleteBatchWithRetry (failAfter 0) "bkt" (objectsOf "bkt" 1)
                                  initial in
  exists new,
    trace run.2 = new
    /\ (length (filter (partitionCall DefaultClient "bkt") new) <= 4)%nat
    /\ (forall delay, EvSleep delay ∈ new ->
          100 * Millisecond <= delay <= 5 * Second).
Proof.
  destruct (deleteBatchWithRetry_policy (failAfter 0) "bkt"
              (objectsOf "bkt" 1) initial ltac:(by vm_compute))
    as (new & Htr & Hcalls & _ & Hdelays & _).
  exists new. split; [exact Htr|]. split; [exact Hcalls|exact Hdelays].
Defined.

End RetryPolicyRun.

Section Orchestrator.
Import Dto Entity Cleansing CallSpec CascadeSpec.

Lemma IsValidType_false (message : CleansingMessage) :
  msg_Type message <> CleansingTypeContractor ->
  msg_Type message <> CleansingTypeProject ->
  msg_Type message <> CleansingTypeSite ->
  IsValidType message = false.
Proof.
  intros Hc Hp Hs. unfold IsValidType. by repeat case_decide.
Qed.

(** C2.  A message whose type is none of contractor, project and site
    is answered with success=false, filesDeleted=0 and an error, and no
    repository or storage method is called: the trace of calls is left
    as it was. *)
Theorem C2_invalid_type_rejected (cs : Collaborators)
    (message : CleansingMessage) (h : list Call) :
  msg_Type message <> CleansingTypeContractor ->
  msg_Type message <> CleansingTypeProject ->
  msg_Type message <> CleansingTypeSite ->
  exists result err,
    ProcessCleansingMessage cs message h = ((result, Some err), h)
    /\ Success result = false
    /\ FilesDeleted result = 0.
Proof.
  intros Hc Hp Hs. unfold ProcessCleansingMessage.
  rewrite IsValidType_false by done. simpl.
  eexists _, _. split; [reflexivity|]. done.
Qed.

Lemma C2_invalid_type_rejected_witness :
  exists result err,
    ProcessCleansingMessage nullCollaborators
      {| msg_Type := "bogus"; msg_ID := 1 |} []
    = ((result, Some err), [])
    /\ Success result = false
    /\ FilesDeleted result = 0.
Proof.
  apply (C2_invalid_type_rejected nullCollaborators
           {| msg_Type := "bogus"; msg_ID := 1 |} []); by vm_compute.
Defined.

(** Case analysis on every answer of a collaborator. *)
Ltac answers :=
  repeat first
    [ progress (unfold bind, ask, ret, failWith; simpl)
    | match goal with
      | |- context [match ?x with _ => _ end] => destruct x eqn:?
      | |- context [if ?b then _ else _] => destruct b eqn:?
      end ].

Lemma DeleteContractorFiles_scope cs contractorID h :
  let r := (DeleteContractorFiles cs contractorID h).1.1 in
  Type_ r = CleansingTypeContractor /\ ID r = contractorID.
Proof. unfold DeleteContractorFiles. answers; done. Qed.

Lemma DeleteProjectFiles_scope cs projectID h :
  let r := (DeleteProjectFiles cs projectID h).1.1 in
  Type_ r = CleansingTypeProject /\ ID r = projectID.
Proof. unfold DeleteProjectFiles. answers; done. Qed.

Lemma DeleteSiteFiles_scope cs siteID h :
  let r := (DeleteSiteFiles cs siteID h).1.1 in
  Type_ r = CleansingTypeSite /\ ID r = siteID.
Proof. unfold DeleteSiteFiles. answers; done. Qed.

(** C10.  Every result returned by [ProcessCleansingMessage],
    [DeleteContractorFiles], [DeleteProjectFiles] and [DeleteSiteFiles],
    whatever the collaborators answer and on every path, carries the
    scope type and the scope id of the request. *)
Theorem C10_result_carries_scope (cs : Collaborators) (h : list Call) :
  (forall message,
      let r := (ProcessCleansingMessage cs message h).1.1 in
      Type_ r = msg_Type message /\ ID r = msg_ID message)
  /\ (forall contractorID,
      let r := (DeleteContractorFiles cs contractorID h).1.1 in
      Type_ r = CleansingTypeContractor /\ ID r = contractorID)
  /\ (forall projectID,
      let r := (DeleteProjectFiles cs projectID h).1.1 in
      Type_ r = CleansingTypeProject /\ ID r = projectID)
  /\ (forall siteID,
      let r := (DeleteSiteFiles cs siteID h).1.1 in
      Type_ r = CleansingTypeSite /\ ID r = siteID).
Proof.
  split; [|split; [|split]].
  - intros message. unfold ProcessCleansingMessage.
    destruct (negb (IsValidType message)); [done|].
    case_bool_decide as Hc.
    { rewrite Hc. apply DeleteContractorFiles_scope. }
    case_bool_decide as Hp.
    { rewrite Hp. apply DeleteProjectFiles_scope. }
    case_bool_decide as Hs.
    { rewrite Hs. apply DeleteSiteFiles_scope. }
    done.
  - intros. apply DeleteContractorFiles_scope.
  - intros. apply DeleteProjectFiles_scope.
  - intros. apply DeleteSiteFiles_scope.
Qed.

Ltac shape site s3Objects :=
  eexists _, (site_ProjectId site), s3Objects;
  split; [rewrite <- ?app_assoc; simpl; reflexivity|];
  split; [eexists; simpl; reflexivity|];
  simpl; first [discriminate | reflexivity | done].

Lemma precedes_in_prefix (a b : Call) (tr canonical : list Call)
    (ia ib : nat) :
  tr `prefix_of` canonical ->
  NoDup canonical ->
  canonical !! ia = Some a -> canonical !! ib = Some b ->
  (ia < ib)%nat ->
  precedes a b tr.
Proof.
  intros [k ->] Hnd Ha Hb Hlt i Hi.
  assert (Hi' : (tr ++ k) !! i = Some b)
    by (by apply lookup_app_l_Some).
  assert (i = ib) as -> by (by eapply NoDup_lookup).
  exists ia. split; [done|].
  apply lookup_lt_Some in Hi.
  rewrite lookup_app_l in Ha by lia. done.
Qed.

Lemma siteDeletionCalls_NoDup siteID projectId s3Objects :
  NoDup (siteDeletionCalls siteID projectId s3Objects).
Proof.
  unfold siteDeletionCalls.
  repeat (apply NoDup_cons; split;
          [intros H;
           repeat (apply elem_of_cons in H as [H|H]; [discriminate H|]);
           by apply elem_of_nil in H|]).
  apply NoDup_nil_2.
Qed.

Ltac fold_take k h calls :=
  let l := eval simpl in (take k calls) in
  change (h ++ l) with (h ++ take k calls).

(** The run ends with the failing hard delete number [k]. *)
Ltac cascade_stops k calls Hprefix Hordered :=
  simpl; rewrite <- ?app_assoc; simpl;
  split; [|split];
  [ exists (take (S k) calls); split; [done|];
    split; [apply Hprefix; lia|];
    split; [apply Hprefix; lia|];
    apply Hordered, Hprefix; lia
  | intros ? ? [=]
  | intros ? _; split;
    [ intros k' err' Hk' Hbefore Hfails;
      assert (Hcase : (k' < k \/ k' = k \/ k < k')%nat) by lia;
      destruct Hcase as [Hlt | [-> | Hgt]];
      [ exfalso;
        assert (k' = 4 \/ k' = 5 \/ k' = 6 \/ k' = 7)%nat
          as [-> | [-> | [-> | ->]]] by lia; (lia || congruence)
      | split; [done|]; split; [congruence|done]
      | exfalso; specialize (Hbefore k ltac:(lia)); congruence ]
    | intros Hall; exfalso; specialize (Hall k ltac:(lia)); congruence ] ].





(** X3.  A result is marked successful exactly when no error is returned
    with it. *)
Theorem Success_iff_no_error (cs : Collaborators) (h : list Call) :
  (forall message,
      let run := ProcessCleansingMessage cs message h in
      Success run.1.1 = true <-> run.1.2 = None)
  /\ (forall contractorID,
      let run := DeleteContractorFiles cs contractorID h in
      Success run.1.1 = true <-> run.1.2 = None)
  /\ (forall projectID,
      let run := DeleteProjectFiles cs projectID h in
      Success run.1.1 = true <-> run.1.2 = None)
  /\ (forall siteID,
      let run := DeleteSiteFiles cs siteID h in
      Success run.1.1 = true <-> run.1.2 = None).
Proof.
  assert (Hc : forall contractorID,
             let run := DeleteContractorFiles cs contractorID h in
             Success run.1.1 = true <-> run.1.2 = None).
  { intros. subst run. unfold DeleteContractorFiles. answers; done. }
  assert (Hp : forall projectID,
             let run := DeleteProjectFiles cs projectID h in
             Success run.1.1 = true <-> run.1.2 = None).
  { intros. subst run. unfold DeleteProjectFiles. answers; done. }
  assert (Hs : forall siteID,
             let run := DeleteSiteFiles cs siteID h in
             Success run.1.1 = true <-> run.1.2 = None).
  { intros. subst run. unfold DeleteSiteFiles. answers; done. }
  split; [|done].
  intros message run. subst run. unfold ProcessCleansingMessage.
  destruct (negb (IsValidType message)); [done|].
  case_bool_decide; [apply Hc|].
  case_bool_decide; [apply Hp|].
  case_bool_decide; [apply Hs|done].
Qed.

End Orchestrator.

Section ConfirmedCount.
Import Dto S3Engine TraceSpec.
Variable w : World.

Lemma confirmed_app h new new' :
  confirmed w h (new ++ new')
  = (confirmed w h new + confirmed w (h ++ new) new')%nat.
Proof.
  revert h. induction new as [|e new IH]; intros h; simpl.
  - by rewrite app_nil_r.
  - rewrite IH, <- app_assoc. simpl. lia.
Qed.

Lemma deleteBatchWithClient_confirmed client bucket batch st :
  batch <> [] ->
  let ev := EvDeleteObjects client bucket (map Key batch) in
  exists r,
    deleteBatchWithClient w client bucket batch st
    = (r, {| trace := trace st ++ [ev];
             regionClients := regionClients st |})
    /\ r.1 = confirmedBy w (trace st) ev
    /\ (is_Some r.2 -> r.1 = 0%nat).
Proof.
  intros Hne ev. unfold deleteBatchWithClient.
  rewrite bool_decide_eq_false_2 by (by destruct batch).
  unfold bind, history, emit, ret. simpl.
  destruct (client_DeleteObjects w (trace st) client bucket (map Key batch))
    as [output|err]; eexists; (split; [reflexivity|]); simpl.
  - split; [done|]. by intros [? [=]].
  - done.
Qed.

(** The batch loop adds to [totalDeleted] what the backend confirmed in
    the calls it made, also when the last of them failed. *)
Lemma batchLoop_confirmed client bucket objects :
  forall fuel i totalDeleted st r st',
    batchLoop (deleteBatchWithClient w client bucket) objects
              fuel i totalDeleted st = (r, st') ->
    exists new,
      trace st' = trace st ++ new
      /\ Forall deleteObjectsEvent new
      /\ r.1 = (totalDeleted + confirmed w (trace st) new)%nat.
Proof.
  induction fuel as [|fuel IH]; intros i total st r st' Hrun;
    simpl in Hrun.
  { injection Hrun as <- <-. exists []. rewrite app_nil_r. simpl.
    split; [done|]. split; [constructor|lia]. }
  case_bool_decide as Hi.
  2:{ injection Hrun as <- <-. exists []. rewrite app_nil_r. simpl.
      split; [done|]. split; [constructor|lia]. }
  set (end_ := if bool_decide (length objects < i + maxDeleteBatchSize)%nat
               then length objects else (i + maxDeleteBatchSize)%nat)
    in Hrun.
  assert (Hlen : length (slice objects i end_) = (end_ - i)%nat).
  { apply length_slice. unfold end_, maxDeleteBatchSize.
    case_bool_decide; lia. }
  destruct (deleteBatchWithClient_confirmed client bucket
              (slice objects i end_) st) as (rb & Hcall & Hcount & Herr).
  { intros Hnil. rewrite Hnil in Hlen. simpl in Hlen.
    unfold end_, maxDeleteBatchSize in Hlen. case_bool_decide; lia. }
  unfold bind in Hrun. rewrite Hcall in Hrun.
  set (ev := EvDeleteObjects client bucket
               (map Key (slice objects i end_))) in *.
  destruct rb as [deleted [err|]]; simpl in *.
  - injection Hrun as <- <-. exists [ev]. simpl.
    split; [done|]. split; [by repeat constructor|].
    rewrite <- Hcount, (Herr ltac:(by eexists)). lia.
  - apply IH in Hrun as (new & Htr & Hall & Hr). simpl in Htr, Hr.
    exists (ev :: new). split; [by rewrite Htr, <- app_assoc|].
    split; [by constructor|]. simpl. rewrite Hr, Hcount. lia.
Qed.


Lemma getClientForRegion_events region st c st' :
  getClientForRegion w region st = (c, st') ->
  exists new,
    trace st' = trace st ++ new
    /\ Forall deleteObjectsEvent new
    /\ forall h, confirmed w h new = 0%nat.
Proof.
  unfold getClientForRegion.
  case_bool_decide as Hr.
  { intros [= <- <-]. exists []. by rewrite app_nil_r. }
  case_bool_decide as Hin.
  { intros [= <- <-]. exists []. by rewrite app_nil_r. }
  destruct (config_LoadDefaultConfig w (trace st) region);
    intros [= <- <-]; exists [EvLoadConfig region]; simpl;
    (split; [done|]); (split; [by repeat constructor|done]).
Qed.

(** A goroutine never adds more to [totalDeleted] than its calls had
    confirmed, and adds exactly that when it returns no error. *)
Lemma goroutine_confirmed region bucket bucketObjs acc st acc' st' :
  goroutine w region bucket bucketObjs acc st = (acc', st') ->
  exists new,
    trace st' = trace st ++ new
    /\ Forall deleteObjectsEvent new
    /\ (acc'.1 <= acc.1 + confirmed w (trace st) new)%nat
    /\ (acc'.2 = None ->
        acc.2 = None
        /\ acc'.1 = (acc.1 + confirmed w (trace st) new)%nat).
Proof.
  unfold goroutine. destruct acc as [totalDeleted groupErr].
  unfold bind.
  destruct (getClientForRegion w region st) as [c st1] eqn:Hc.
  apply getClientForRegion_events in Hc as (cfg & Hcfg & Hkind & Hzero).
  destruct c as [client|err].
  - destruct (deleteBucketObjectsWithClient w client bucket bucketObjs st1)
      as [[deleted err] st2] eqn:Hrun.
    unfold deleteBucketObjectsWithClient in Hrun.
    apply batchLoop_confirmed in Hrun as (new & Htr & Hall & Hr).
    simpl in Hr. rewrite Hcfg in Hr.
    assert (Hsum : confirmed w (trace st) (cfg ++ new) = deleted).
    { rewrite confirmed_app, Hzero, Hr. lia. }
    destruct err as [err|]; intros [= <- <-]; simpl;
      exists (cfg ++ new); rewrite Htr, Hcfg, <- app_assoc, Hsum;
      (split; [done|]); (split; [by apply Forall_app|]).
    + split; [lia|]. by destruct groupErr.
    + split; [lia|]. done.
  - intros [= <- <-]. simpl. exists cfg.
    split; [done|]. split; [done|]. rewrite Hzero.
    split; [lia|]. by destruct groupErr.
Qed.

Lemma bucketsLoop_confirmed region (l : list (string * list S3Object)) :
  forall acc st acc' st',
    foldM (fun acc bo => goroutine w region bo.1 bo.2 acc) l acc st
    = (acc', st') ->
    exists new,
      trace st' = trace st ++ new
      /\ Forall deleteObjectsEvent new
      /\ (acc'.1 <= acc.1 + confirmed w (trace st) new)%nat
      /\ (acc'.2 = None ->
          acc.2 = None
          /\ acc'.1 = (acc.1 + confirmed w (trace st) new)%nat).
Proof.
  induction l as [|[bucket0 objs0] l IH]; intros acc st acc' st' Hrun.
  - injection Hrun as <- <-. exists []. rewrite app_nil_r. simpl.
    split; [done|]. split; [constructor|]. split; [lia|].
    intros Hn. split; [done|lia].
  - simpl in Hrun. unfold bind in Hrun.
    destruct (goroutine w region bucket0 objs0 acc st)
      as [acc1 st1] eqn:Hgo.
    apply goroutine_confirmed in Hgo
      as (new1 & Htr1 & Hk1 & Hle1 & Heq1).
    apply IH in Hrun as (new2 & Htr2 & Hk2 & Hle2 & Heq2).
    exists (new1 ++ new2).
    rewrite Htr2, Htr1, <- app_assoc, confirmed_app, <- Htr1.
    split; [done|]. split; [by apply Forall_app|]. split; [lia|].
    intros Hnone. destruct (Heq2 Hnone) as [Hn1 He2].
    destruct (Heq1 Hn1) as [Hn0 He1]. split; [done|lia].
Qed.

Lemma regionsLoop_confirmed
    (l : list (string * gmap string (list S3Object))) :
  forall acc st acc' st',
    foldM (fun acc rb =>
             foldM (fun acc bo => goroutine w rb.1 bo.1 bo.2 acc)
                   (map_to_list rb.2) acc)
          l acc st = (acc', st') ->
    exists new,
      trace st' = trace st ++ new
      /\ Forall deleteObjectsEvent new
      /\ (acc'.1 <= acc.1 + confirmed w (trace st) new)%nat
      /\ (acc'.2 = None ->
          acc.2 = None
          /\ acc'.1 = (acc.1 + confirmed w (trace st) new)%nat).
Proof.
  induction l as [|[region0 m0] l IH]; intros acc st acc' st' Hrun.
  - injection Hrun as <- <-. exists []. rewrite app_nil_r. simpl.
    split; [done|]. split; [constructor|]. split; [lia|].
    intros Hn. split; [done|lia].
  - simpl in Hrun. unfold bind in Hrun.
    destruct (foldM (fun acc bo => goroutine w region0 bo.1 bo.2 acc)
                    (map_to_list m0) acc st) as [acc1 st1] eqn:Hin.
    apply bucketsLoop_confirmed in Hin
      as (new1 & Htr1 & Hk1 & Hle1 & Heq1).
    apply IH in Hrun as (new2 & Htr2 & Hk2 & Hle2 & Heq2).
    exists (new1 ++ new2).
    rewrite Htr2, Htr1, <- app_assoc, confirmed_app, <- Htr1.
    split; [done|]. split; [by apply Forall_app|]. split; [lia|].
    intros Hnone. destruct (Heq2 Hnone) as [Hn1 He2].
    destruct (Heq1 Hn1) as [Hn0 He1]. split; [done|lia].
Qed.

Lemma DeleteObjects_run (objects : list S3Object) (st : State) :
  let run := DeleteObjects w objects st in
  exists new,
    trace run.2 = trace st ++ new
    /\ Forall deleteObjectsEvent new
    /\ (run.1.1 <= confirmed w (trace st) new)%nat
    /\ (run.1.2 = None -> run.1.1 = confirmed w (trace st) new).
Proof.
  intros run. subst run. unfold DeleteObjects.
  case_bool_decide as Hlen.
  - simpl. exists []. rewrite app_nil_r. simpl.
    split; [done|]. split; [constructor|]. split; [lia|done].
  - destruct (foldM _ (map_to_list (groupObjects objects)) (0%nat, None) st)
      as [acc' st'] eqn:Hrun.
    apply regionsLoop_confirmed in Hrun as (new & Htr & Hk & Hle & Heq).
    exists new. simpl in *. split; [done|]. split; [done|].
    split; [lia|]. intros Hnone. by destruct (Heq Hnone) as [_ ->].
Qed.

Lemma groupObjects_onePartition_from region bucket
    (objects acc : list S3Object) :
  Forall (inPartition region bucket) objects ->
  fold_left
    (fun regionBucketObjects obj =>
       let region := Region obj in
       let bucketObjects := default ∅ (regionBucketObjects !! region) in
       <[region :=
           <[Bucket obj :=
               default [] (bucketObjects !! Bucket obj) ++ [obj]]>
           bucketObjects]> regionBucketObjects)
    objects ({[ region := {[ bucket := acc ]} ]}
             : gmap string (gmap string (list S3Object)))
  = {[ region := {[ bucket := acc ++ objects ]} ]}.
Proof.
  intros Hall. revert acc.
  induction Hall as [|obj objects [Hregion Hbucket] _ IH];
    intros acc; simpl.
  - by rewrite app_nil_r.
  - rewrite Hregion, Hbucket. rewrite lookup_singleton_eq. simpl.
    rewrite lookup_singleton_eq. simpl. rewrite !insert_singleton_eq.
    rewrite IH. by rewrite <- app_assoc.
Qed.

Lemma groupObjects_onePartition region bucket (objects : list S3Object) :
  Forall (inPartition region bucket) objects -> objects <> [] ->
  groupObjects objects = {[ region := {[ bucket := objects ]} ]}.
Proof.
  intros Hall Hne. unfold groupObjects.
  destruct Hall as [|obj objects [Hregion Hbucket] Hall]; [done|].
  simpl. rewrite Hregion, Hbucket. rewrite lookup_empty. simpl.
  rewrite lookup_empty. simpl. rewrite !insert_empty.
  by rewrite groupObjects_onePartition_from.
Qed.

(** One partition is handed to one goroutine. *)
Lemma DeleteObjects_onePartition region bucket
    (objects : list S3Object) (st : State) :
  Forall (inPartition region bucket) objects -> objects <> [] ->
  DeleteObjects w objects st
  = goroutine w region bucket objects (0%nat, None) st.
Proof.
  intros Hall Hne. unfold DeleteObjects.
  rewrite bool_decide_eq_false_2 by by destruct objects.
  rewrite (groupObjects_onePartition region bucket objects Hall Hne).
  rewrite map_to_list_singleton. cbn [foldM fst snd].
  rewrite map_to_list_singleton. cbn [foldM fst snd].
  unfold bind, ret.
  by destruct (goroutine w region bucket objects (0%nat, None) st)
    as [[? ?] ?].
Qed.

(** A goroutine that returns an error leaves [totalDeleted] as it
    was. *)
Lemma goroutine_error_adds_nothing region bucket bucketObjs
    totalDeleted st :
  let run := goroutine w region bucket bucketObjs (totalDeleted, None) st in
  run.1.2 <> None -> run.1.1 = totalDeleted.
Proof.
  unfold goroutine, bind, ret.
  destruct (getClientForRegion w region st) as [[client|err] st1];
    [|done].
  by destruct (deleteBucketObjectsWithClient w client bucket bucketObjs st1)
    as [[deleted [err|]] st2].
Qed.

(** X5.  A key list whose objects all lie in one (region, bucket)
    partition is handled by a single goroutine, with no other to
    interleave with.  For such a list [DeleteObjects] reports exactly
    the number of objects the backend confirmed in the calls it made
    when it returns no error, and 0, whatever was confirmed, when it
    returns an error; it never reports more than was confirmed. *)
Theorem DeleteObjects_count (region bucket : string)
    (objects : list S3Object) (st : State) :
  Forall (inPartition region bucket) objects ->
  let run := DeleteObjects w objects st in
  exists new,
    trace run.2 = trace st ++ new
    /\ (run.1.1 <= confirmed w (trace st) new)%nat
    /\ (run.1.2 = None -> run.1.1 = confirmed w (trace st) new)
    /\ (run.1.2 <> None -> run.1.1 = 0%nat).
Proof.
  intros Hall run. subst run.
  destruct (decide (objects = [])) as [->|Hne].
  { exists []. simpl. rewrite app_nil_r. by repeat split. }
  rewrite (DeleteObjects_onePartition region bucket objects st Hall Hne).
  pose proof (goroutine_error_adds_nothing region bucket objects 0 st)
    as Herror. cbv zeta in Herror.
  destruct (goroutine w region bucket objects (0%nat, None) st)
    as [acc' st'] eqn:Hrun.
  apply goroutine_confirmed in Hrun as (new & Htrace & _ & Hle & Heq).
  exists new. simpl in *.
  split; [done|]. split; [lia|]. split; [|done].
  intros Hnone. by destruct (Heq Hnone) as [_ ->].
Qed.

(** X6.  [DeleteObjects] makes no call but configuration loads for
    regions not yet cached and batch deletes: it never waits on the rate
    limiter, never sleeps between attempts, and an empty key list makes
    no call at all. *)
Theorem DeleteObjects_calls (objects : list S3Object) (st : State) :
  let run := DeleteObjects w objects st in
  exists new,
    trace run.2 = trace st ++ new
    /\ Forall deleteObjectsEvent new
    /\ (EvLimiterWait ∉ new)
    /\ (forall delay, EvSleep delay ∉ new)
    /\ (objects = [] -> new = [] /\ run.1 = (0%nat, None)).
Proof.
  intros run.
  destruct (DeleteObjects_run objects st) as (new & Htr & Hk & _ & _).
  exists new. split; [done|]. split; [done|].
  split; [|split].
  - intros Hin. by apply (proj1 (Forall_forall _ _) Hk) in Hin.
  - intros delay Hin. by apply (proj1 (Forall_forall _ _) Hk) in Hin.
  - intros ->. subst run. simpl in *.
    split; [|done]. apply (app_inv_head (trace st)).
    by rewrite app_nil_r.
Qed.

End ConfirmedCount.

Section ConfirmedCountRun.
Import Dto S3Engine TraceSpec EngineExamples.

(** 1001 objects of the bucket "bkt": two batches, both confirmed. *)
Lemma DeleteObjects_count_witness :
  Forall (inPartition "" "bkt") (objectsOf "bkt" 1001)
  /\ exists new,
       trace (DeleteObjects (failAfter 2) (objectsOf "bkt" 1001) initial).2
       = new
       /\ (DeleteObjects (failAfter 2) (objectsOf "bkt" 1001) initial).1.1
          = confirmed (failAfter 2) [] new
       /\ confirmed (failAfter 2) [] new = 1001%nat.
Proof.
  assert (Hall : Forall (inPartition "" "bkt") (objectsOf "bkt" 1001)).
  { apply Forall_forall. intros obj Hin.
    apply list_elem_of_fmap in Hin as (i & -> & _). done. }
  split; [done|].
  destruct (DeleteObjects_count (failAfter 2) "" "bkt"
              (objectsOf "bkt" 1001) initial Hall)
    as (new & Htrace & _ & Heq & _).
  exists new. split; [exact Htrace|].
  assert (Hcount :
    (DeleteObjects (failAfter 2) (objectsOf "bkt" 1001) initial).1.1
    = confirmed (failAfter 2) [] new).
  { apply Heq. vm_compute. reflexivity. }
  split; [exact Hcount|]. rewrite <- Hcount. vm_compute. reflexivity.
Defined.

End ConfirmedCountRun.


Section ClientCache.
Import Dto S3Engine TraceSpec EngineExamples.
Variable w : World.

(** X7.  The region-client cache of [getClientForRegion]: the empty
    region is served by the default client without touching cache or
    configuration; a region whose client was created is served from the
    cache on the next call, with no further configuration load; a
    failed creation caches nothing; the cache only grows. *)
Theorem getClientForRegion_cache (region : string) (st : State) :
  let run := getClientForRegion w region st in
  (region = "" -> run = (Ok DefaultClient, st))
  /\ (forall client,
        run.1 = Ok client ->
        getClientForRegion w region run.2 = (Ok client, run.2))
  /\ (is_err run.1 = true -> regionClients run.2 = regionClients st)
  /\ regionClients st ⊆ regionClients run.2.
Proof.
  intros run. subst run. unfold getClientForRegion.
  case_bool_decide as Hr.
  { split; [done|]. split; [by intros client [= <-]|]. done. }
  split; [done|].
  case_bool_decide as Hin.
  { simpl. split; [|done]. intros client [= <-].
    by rewrite bool_decide_eq_true_2. }
  destruct (config_LoadDefaultConfig w (trace st) region); simpl.
  - split; [by intros client [=]|]. done.
  - split; [|split; [done|set_solver]].
    intros client [= <-].
    rewrite bool_decide_eq_true_2 by set_solver. done.
Qed.

End ClientCache.

Section ClientCacheRun.
Import Dto S3Engine TraceSpec EngineExamples.

Lemma getClientForRegion_cache_witness :
  let run := getClientForRegion (failAfter 0) "ap-southeast-1" initial in
  run.1 = Ok (RegionClient "ap-southeast-1")
  /\ getClientForRegion (failAfter 0) "ap-southeast-1" run.2
     = (Ok (RegionClient "ap-southeast-1"), run.2).
Proof.
  split; [reflexivity|].
  apply (proj1 (proj2 (getClientForRegion_cache (failAfter 0)
                         "ap-southeast-1" initial))).
  reflexivity.
Defined.

End ClientCacheRun.

Section RateLimiting.
Import Dto S3Engine TraceSpec.

Lemma rateLimited_nil : rateLimited [].
Proof. intros i e Hi. by rewrite lookup_nil in Hi. Qed.

Lemma rateLimited_app new new' :
  rateLimited new -> rateLimited new' -> rateLimited (new ++ new').
Proof.
  intros Hl Hl' i e Hi Hcall.
  destruct (decide (i < length new)%nat) as [Hlt|Hge].
  - rewrite lookup_app_l in Hi by done.
    destruct (Hl i e Hi Hcall) as (j & -> & Hj).
    exists j. split; [done|]. rewrite lookup_app_l by lia. done.
  - rewrite lookup_app_r in Hi by lia.
    destruct (Hl' _ e Hi Hcall) as (j & Hij & Hj).
    exists (length new + j)%nat. split; [lia|].
    rewrite lookup_app_r by lia.
    by replace (length new + j - length new)%nat with j by lia.
Qed.

Lemma rateLimited_step e :
  rateLimited [EvLimiterWait; e].
Proof.
  intros [|[|i]] e' Hi Hcall; simpl in Hi.
  - by injection Hi as <-.
  - by exists 0%nat.
  - by rewrite lookup_nil in Hi.
Qed.

Lemma rateLimited_wait : rateLimited [EvLimiterWait].
Proof.
  intros [|i] e' Hi Hcall; simpl in Hi.
  - by injection Hi as <-.
  - by rewrite lookup_nil in Hi.
Qed.

Lemma rateLimited_sleep delay : rateLimited [EvSleep delay].
Proof.
  intros [|i] e' Hi Hcall; simpl in Hi.
  - by injection Hi as <-.
  - by rewrite lookup_nil in Hi.
Qed.

Lemma retryTrace_rateLimited call attempt new :
  retryTrace call attempt new -> rateLimited new.
Proof.
  induction 1 as [a|a|a Hlt|a rest Hlt Hrest IH].
  - apply rateLimited_wait.
  - apply rateLimited_step.
  - apply (rateLimited_app [EvLimiterWait; call] [EvSleep _]);
      [apply rateLimited_step|apply rateLimited_sleep].
  - apply rateLimited_app; [|done].
    apply (rateLimited_app [EvLimiterWait; call] [EvSleep _]);
      [apply rateLimited_step|apply rateLimited_sleep].
Qed.

Lemma retryTrace_count (P : Event -> Prop) `{!forall e, Decision (P e)}
    call attempt new :
  ~ P EvLimiterWait -> (forall delay, ~ P (EvSleep delay)) ->
  0 <= attempt <= maxRetries ->
  retryTrace call attempt new ->
  (length (filter P new) <= Z.to_nat (maxRetries + 1 - attempt))%nat.
Proof.
  intros Hw Hs Ha Htr. revert Ha.
  assert (Hone : forall l, (length (filter P (call :: l))
                            <= S (length (filter P l)))%nat).
  { intros l. destruct (decide (P call)).
    - by rewrite filter_cons_True.
    - rewrite filter_cons_False by done. lia. }
  induction Htr as [a|a|a Hlt|a rest Hlt Hrest IH]; intros Ha;
    unfold maxRetries in *.
  - rewrite filter_cons_False by done. simpl. lia.
  - rewrite filter_cons_False by done.
    specialize (Hone []). simpl in *. lia.
  - rewrite filter_cons_False by done.
    specialize (Hone [EvSleep (backoffDelay a)]).
    rewrite (filter_cons_False _ (EvSleep _)) in Hone by apply Hs.
    simpl in *. lia.
  - specialize (IH ltac:(lia)).
    change ([EvLimiterWait; call; EvSleep (backoffDelay a)] ++ rest)
      with (EvLimiterWait :: call :: EvSleep (backoffDelay a) :: rest).
    rewrite filter_cons_False by done.
    specialize (Hone (EvSleep (backoffDelay a) :: rest)).
    rewrite (filter_cons_False _ (EvSleep _)) in Hone by apply Hs.
    lia.
Qed.

Lemma retryTrace_sleeps call attempt new :
  ~ (exists delay, call = EvSleep delay) ->
  0 <= attempt ->
  retryTrace call attempt new ->
  forall delay, EvSleep delay ∈ new ->
    baseDelay <= delay <= maxDelay.
Proof.
  intros Hcall Ha Htr. revert Ha.
  assert (Hhead : forall a delay,
             0 <= a < maxRetries ->
             EvSleep delay ∈ [EvLimiterWait; call; EvSleep (backoffDelay a)] ->
             baseDelay <= delay <= maxDelay).
  { intros a delay Ha Hin.
    apply elem_of_cons in Hin as [Hin|Hin]; [discriminate|].
    apply elem_of_cons in Hin as [Hin|Hin]; [by destruct Hcall; eexists|].
    apply list_elem_of_singleton in Hin. injection Hin as ->.
    by apply backoffDelay_bounds. }
  induction Htr as [a|a|a Hlt|a rest Hlt Hrest IH];
    intros Ha delay Hin.
  - apply list_elem_of_singleton in Hin. discriminate.
  - apply elem_of_cons in Hin as [Hin|Hin]; [discriminate|].
    apply list_elem_of_singleton in Hin. destruct Hcall. by eexists.
  - by apply (Hhead a).
  - apply elem_of_app in Hin as [Hin|Hin].
    + by apply (Hhead a).
    + apply IH; [lia|done].
Qed.

Variable w : World.

(** The loop of [deleteBucketWithRetry] from attempt [attempt] on. *)
Lemma bucketRetryLoop_policy bucketName :
  forall fuel attempt lastErr st err st',
    0 <= attempt <= maxRetries ->
    (Z.to_nat (maxRetries - attempt) < fuel)%nat ->
    bucketRetryLoop w bucketName fuel attempt lastErr st = (err, st') ->
    exists new,
      trace st' = trace st ++ new
      /\ retryTrace (EvDeleteBucket bucketName) attempt new
      /\ (forall pre delay post ctxErr,
            new = pre ++ EvSleep delay :: post ->
            ctx_Done w (trace st ++ pre) delay = Some ctxErr ->
            post = [] /\ err = Some ctxErr).
Proof.
  induction fuel as [|fuel IH];
    intros attempt lastErr st err st' Ha Hfuel Hrun; [lia|].
  simpl in Hrun.
  rewrite (proj2 (Z.leb_le _ _)) in Hrun by lia.
  unfold bind in Hrun. rewrite Wait_run in Hrun.
  set (del := EvDeleteBucket bucketName) in *.
  destruct (rateLimiter_Wait w (trace st)) as [lerr|].
  { injection Hrun as <- <-. exists [EvLimiterWait].
    split; [done|]. split; [constructor|].
    intros [|p0 [|p1 pre]] delay post ctxErr Heq; discriminate Heq. }
  unfold history, emit in Hrun. simpl in Hrun. fold del in Hrun.
  destruct (client_DeleteBucket w _ bucketName) as [derr|].
  2:{ injection Hrun as <- <-. exists [EvLimiterWait; del].
      split; [by rewrite <- app_assoc|]. split; [constructor|].
      intros [|p0 [|p1 [|p2 pre]]] delay post ctxErr Heq;
        discriminate Heq. }
  destruct (attempt =? maxRetries) eqn:Hlast.
  { injection Hrun as <- <-. exists [EvLimiterWait; del].
    split; [by rewrite <- app_assoc|]. split; [constructor|].
    intros [|p0 [|p1 [|p2 pre]]] delay post ctxErr Heq;
      discriminate Heq. }
  apply Z.eqb_neq in Hlast. simpl in Hrun.
  destruct (ctx_Done w ((trace st ++ [EvLimiterWait]) ++ [del])
              (backoffDelay attempt)) as [ctxErr|] eqn:Hctx.
  { injection Hrun as <- <-.
    exists [EvLimiterWait; del; EvSleep (backoffDelay attempt)].
    split; [by rewrite <- !app_assoc|].
    split; [constructor; lia|].
    intros [|p0 [|p1 [|p2 pre]]] delay post ctxErr' Heq Hdone;
      try discriminate Heq.
    - injection Heq as <- <- <- <-.
      rewrite <- app_assoc in Hctx. simpl in Hctx.
      rewrite Hctx in Hdone. by injection Hdone as <-.
    - injection Heq as _ _ _ Heq. by destruct pre. }
  apply IH in Hrun as (rest & Htr & Hshape & Hcancel); [|lia|lia].
  simpl in Htr.
  exists ([EvLimiterWait; del; EvSleep (backoffDelay attempt)] ++ rest).
  split; [by rewrite Htr, <- !app_assoc|].
  split; [constructor; [lia|done]|].
  intros [|p0 [|p1 [|p2 pre]]] delay post ctxErr' Heq Hdone;
    try discriminate Heq.
  - injection Heq as <- <- <- <-.
    rewrite <- app_assoc in Hctx. simpl in Hctx.
    rewrite Hctx in Hdone. discriminate Hdone.
  - injection Heq as <- <- <- Heq.
    apply (Hcancel pre delay post ctxErr' Heq).
    simpl. rewrite <- !app_assoc. simpl. exact Hdone.
Qed.

(** X9.  [deleteBucketWithRetry] makes at most 4 bucket-removal calls,
    waits at least 100 ms and at most 5 s between them, and ends with
    the context's error at the first wait during which the caller's
    context is done. *)
Theorem deleteBucketWithRetry_policy (bucketName : string) (st : State) :
  let run := deleteBucketWithRetry w bucketName st in
  exists new,
    trace run.2 = trace st ++ new
    /\ (length (filter (removalCall bucketName) new) <= 4)%nat
    /\ (forall delay, EvSleep delay ∈ new ->
          100 * Millisecond <= delay <= 5 * Second)
    /\ (forall pre delay post ctxErr,
          new = pre ++ EvSleep delay :: post ->
          ctx_Done w (trace st ++ pre) delay = Some ctxErr ->
          post = [] /\ run.1 = Some ctxErr).
Proof.
  intros run. subst run.
  destruct (deleteBucketWithRetry w bucketName st) as [err st'] eqn:Hrun.
  unfold deleteBucketWithRetry in Hrun.
  apply bucketRetryLoop_policy in Hrun as (new & Htr & Hshape & Hcancel);
    [|unfold maxRetries; lia|unfold maxRetries; simpl; lia].
  exists new. split; [done|]. split.
  { apply (retryTrace_count (removalCall bucketName)
             (EvDeleteBucket bucketName) 0 new);
      [simpl; tauto|intros; simpl; tauto|unfold maxRetries; lia|done]. }
  split; [|done].
  apply (retryTrace_sleeps (EvDeleteBucket bucketName) 0);
    [by intros [? [=]]|lia|done].
Qed.

(** What holds of the calls of every batch call holds of the calls of
    the batch loop, when it holds of no call and of two runs of calls in
    a row. *)
Lemma batchLoop_closed
    (call : list S3Object -> M State (nat * option error))
    (objects : list S3Object) (Q : list Event -> Prop) :
  Q [] -> (forall new new', Q new -> Q new' -> Q (new ++ new')) ->
  (forall batch st r st',
      batch <> [] -> call batch st = (r, st') ->
      exists new, trace st' = trace st ++ new /\ Q new) ->
  forall fuel i totalDeleted st r st',
    batchLoop call objects fuel i totalDeleted st = (r, st') ->
    exists new, trace st' = trace st ++ new /\ Q new.
Proof.
  intros Hnil Happ Hcall.
  induction fuel as [|fuel IH]; intros i total st r st' Hrun;
    simpl in Hrun.
  { injection Hrun as <- <-. exists []. by rewrite app_nil_r. }
  case_bool_decide as Hi.
  2:{ injection Hrun as <- <-. exists []. by rewrite app_nil_r. }
  set (end_ := if bool_decide (length objects < i + maxDeleteBatchSize)%nat
               then length objects else (i + maxDeleteBatchSize)%nat)
    in Hrun.
  assert (Hlen : length (slice objects i end_) = (end_ - i)%nat).
  { apply length_slice. unfold end_, maxDeleteBatchSize.
    case_bool_decide; lia. }
  unfold bind in Hrun.
  destruct (call (slice objects i end_) st) as [rb st1] eqn:Hc.
  apply Hcall in Hc as (new1 & Htr1 & HQ1).
  2:{ intros Heq. rewrite Heq in Hlen. simpl in Hlen.
      unfold end_, maxDeleteBatchSize in Hlen. case_bool_decide; lia. }
  destruct rb as [deleted [err|]].
  - injection Hrun as <- <-. by exists new1.
  - apply IH in Hrun as (new2 & Htr2 & HQ2).
    exists (new1 ++ new2). rewrite Htr2, Htr1, <- app_assoc.
    split; [done|]. by apply Happ.
Qed.

Lemma deletePage_rateLimited bucketName contents st err st' :
  deletePage w bucketName contents st = (err, st') ->
  exists new, trace st' = trace st ++ new /\ rateLimited new.
Proof.
  unfold deletePage. case_bool_decide as Hlen.
  { intros [= <- <-]. exists []. rewrite app_nil_r.
    split; [done|apply rateLimited_nil]. }
  unfold bind, deleteBucketObjectsOptimized.
  rewrite length_map. rewrite bool_decide_eq_false_2 by done.
  destruct (batchLoop _ _ _ _ _ st) as [[deleted e] st1] eqn:Hrun.
  apply (batchLoop_closed _ _ rateLimited) in Hrun
    as (new & Htr & Hlim).
  - destruct e; intros [= <- <-]; by exists new.
  - apply rateLimited_nil.
  - apply rateLimited_app.
  - intros batch st0 r st0' Hne Hcall.
    unfold deleteBatchWithRetry in Hcall.
    apply batchRetryLoop_policy in Hcall as (new & Htr & Hshape & _);
      [|done|unfold maxRetries; lia|unfold maxRetries; simpl; lia].
    exists new. split; [done|]. by eapply retryTrace_rateLimited.
Qed.

Lemma pageLoop_rateLimited bucketName :
  forall pages st err st',
    pageLoop w bucketName pages st = (err, st') ->
    exists new, trace st' = trace st ++ new /\ rateLimited new.
Proof.
  induction pages as [e|contents|contents next IH];
    intros st err st' Hrun; simpl in Hrun;
    unfold bind in Hrun; rewrite Wait_run in Hrun;
    (destruct (rateLimiter_Wait w (trace st)) as [lerr|];
     [injection Hrun as <- <-; exists [EvLimiterWait];
      split; [done|apply rateLimited_wait]|]);
    unfold emit in Hrun; simpl in Hrun.
  - injection Hrun as <- <-. exists [EvLimiterWait; EvListPage bucketName].
    split; [by rewrite <- app_assoc|apply rateLimited_step].
  - apply deletePage_rateLimited in Hrun as (new & Htr & Hlim).
    simpl in Htr.
    exists ([EvLimiterWait; EvListPage bucketName] ++ new).
    split; [by rewrite Htr, <- !app_assoc|].
    apply rateLimited_app; [apply rateLimited_step|done].
  - destruct (deletePage w bucketName contents _) as [e st1] eqn:Hpage.
    apply deletePage_rateLimited in Hpage as (new1 & Htr1 & Hlim1).
    simpl in Htr1.
    destruct e as [e|].
    + injection Hrun as <- <-.
      exists ([EvLimiterWait; EvListPage bucketName] ++ new1).
      split; [by rewrite Htr1, <- !app_assoc|].
      apply rateLimited_app; [apply rateLimited_step|done].
    + apply IH in Hrun as (new2 & Htr2 & Hlim2).
      exists ([EvLimiterWait; EvListPage bucketName] ++ new1 ++ new2).
      split; [by rewrite Htr2, Htr1, <- !app_assoc|].
      apply rateLimited_app; [apply rateLimited_step|].
      by apply rateLimited_app.
Qed.

(** X8.  In [DeleteBucket] every call that reaches the storage backend
    (a page listing, a batch delete, the bucket removal) comes right
    after a rate-limiter acquisition. *)
Theorem DeleteBucket_rate_limited (bucketName : string) (st : State) :
  let run := DeleteBucket w bucketName st in
  exists new,
    trace run.2 = trace st ++ new
    /\ forall i e,
         new !! i = Some e ->
         isBackendCall e ->
         exists j, i = S j /\ new !! j = Some EvLimiterWait.
Proof.
  intros run. subst run. unfold DeleteBucket, bind.
  destruct (deleteAllObjectsInBucket w bucketName st) as [e st1] eqn:Hobjs.
  unfold deleteAllObjectsInBucket in Hobjs.
  apply pageLoop_rateLimited in Hobjs as (new1 & Htr1 & Hlim1).
  destruct e as [e|]; simpl.
  { by exists new1. }
  destruct (deleteBucketWithRetry w bucketName st1) as [e st2] eqn:Hrem.
  unfold deleteBucketWithRetry in Hrem.
  apply bucketRetryLoop_policy in Hrem as (new2 & Htr2 & Hshape & _);
    [|unfold maxRetries; lia|unfold maxRetries; simpl; lia].
  exists (new1 ++ new2). split.
  { destruct e; simpl; by rewrite Htr2, Htr1, <- app_assoc. }
  apply rateLimited_app; [done|]. by eapply retryTrace_rateLimited.
Qed.

End RateLimiting.

Section OrchestratorFailure.
Import Dto Entity Cleansing CallSpec CallSpecMore.

(** X10.  When the storage engine returns an error from
    [DeleteObjects], no relational row is deleted: [DeleteSiteFiles]
    and [DeleteContractorFiles] make no further call, and
    [DeleteProjectFiles] makes at most the usage update for the objects
    counted as deleted (none when the count is not positive).  The
    engine's error is the error returned. *)
Theorem no_cascade_after_storage_error (cs : Collaborators)
    (h : list Call) :
  (forall siteID site s3Objects deletedCount err,
      siteRepo_GetByID cs h siteID = Ok site ->
      s3Service_ListSiteFiles cs (h ++ [Site_GetByID siteID]) siteID
      = Ok s3Objects ->
      s3Service_DeleteObjects cs
        (h ++ [Site_GetByID siteID; S3_ListSiteFiles siteID]) s3Objects
      = (deletedCount, Some err) ->
      let run := DeleteSiteFiles cs siteID h in
      run.2 = h ++ [Site_GetByID siteID; S3_ListSiteFiles siteID;
                    S3_DeleteObjects s3Objects]
      /\ run.1.2 = Some err)
  /\ (forall projectID s3Objects deletedCount err,
      s3Service_ListProjectFiles cs h projectID = Ok s3Objects ->
      s3Service_DeleteObjects cs (h ++ [S3_ListProjectFiles projectID])
        s3Objects
      = (deletedCount, Some err) ->
      let run := DeleteProjectFiles cs projectID h in
      run.2 = h ++ [S3_ListProjectFiles projectID;
                    S3_DeleteObjects s3Objects]
                ++ (if 0 <? deletedCount
                    then [Project_UpdateProjectUsage projectID
                            (wrap64 (- calculateSizeForDeletedFiles
                                         s3Objects deletedCount))]
                    else [])
      /\ run.1.2 = Some err)
  /\ (forall contractorID s3Objects deletedCount err,
      s3Service_ListContractorFiles cs h contractorID = Ok s3Objects ->
      s3Service_DeleteObjects cs
        (h ++ [S3_ListContractorFiles contractorID]) s3Objects
      = (deletedCount, Some err) ->
      let run := DeleteContractorFiles cs contractorID h in
      run.2 = h ++ [S3_ListContractorFiles contractorID;
                    S3_DeleteObjects s3Objects]
      /\ run.1.2 = Some err).
Proof.
  split; [|split].
  - intros siteID site s3Objects n err Hsite Hlist Hdel run. subst run.
    unfold DeleteSiteFiles, bind, ask. rewrite Hsite, Hlist.
    rewrite <- app_assoc. simpl. rewrite Hdel. simpl.
    by rewrite <- app_assoc.
  - intros projectID s3Objects n err Hlist Hdel run. subst run.
    unfold DeleteProjectFiles, bind, ask. rewrite Hlist, Hdel.
    destruct (0 <? n); simpl; by rewrite <- !app_assoc.
  - intros contractorID s3Objects n err Hlist Hdel run. subst run.
    unfold DeleteContractorFiles, bind, ask. rewrite Hlist, Hdel. simpl.
    by rewrite <- app_assoc.
Qed.

Lemma no_cascade_after_storage_error_witness :
  (DeleteSiteFiles (storageFails twoObjects 1) 42 []).2
  = [Site_GetByID 42; S3_ListSiteFiles 42; S3_DeleteObjects twoObjects]
  /\ (DeleteProjectFiles (storageFails twoObjects 1) 1 []).2
     = [S3_ListProjectFiles 1; S3_DeleteObjects twoObjects;
        Project_UpdateProjectUsage 1 (-1000)].
Proof.
  pose proof (no_cascade_after_storage_error
                (storageFails twoObjects 1) []) as (Hs & Hp & _).
  split.
  - apply (Hs 42 _ twoObjects 1 (ErrText "SlowDown")
             eq_refl eq_refl eq_refl).
  - apply (Hp 1 twoObjects 1 (ErrText "SlowDown") eq_refl eq_refl).
Defined.

End OrchestratorFailure.

Section ProjectCascade.
Import Dto Entity Cleansing CallSpec CallSpecMore.
Variable cs : Collaborators.

Lemma cascadeSiteRows_run site h :
  cascadeSiteRows cs site h = (tt, h ++ siteRowCalls site).
Proof.
  unfold cascadeSiteRows, bind, ask, ret, siteRowCalls.
  by rewrite <- !app_assoc.
Qed.

Lemma cascadeSites_run sites :
  forall h,
    foldM (fun (_ : unit) site => cascadeSiteRows cs site) sites tt h
    = (tt, h ++ flat_map siteRowCalls sites).
Proof.
  induction sites as [|site sites IH]; intros h; simpl.
  - by rewrite app_nil_r.
  - unfold bind. rewrite cascadeSiteRows_run, IH.
    by rewrite <- app_assoc.
Qed.

Lemma prefix_of_app_tail {A} (l k : list A) : l `prefix_of` l ++ k.
Proof. by exists k. Qed.

(** X11.  The calls of [DeleteProjectFiles], read off the
    collaborators' answers.  With [s3Objects] the keys the listing
    returned and [sites] the sites [siteRepo.GetByProjectID] returned
    for the project: after the keys are resolved, the objects deleted,
    the usage updated and the sites read, the files, documents and
    document groups are hard-deleted site by site, in the order of
    [sites] and whatever these deletes answer; then the project's sites
    are hard-deleted, and only when that returned no error the project
    row.  A failed listing, object deletion or read of the sites ends
    the run before any row is deleted. *)
Theorem DeleteProjectFiles_cascade_order (projectID : Z) (h : list Call) :
  let run := DeleteProjectFiles cs projectID h in
  (forall err,
      s3Service_ListProjectFiles cs h projectID = Err err ->
      run.2 = h ++ [S3_ListProjectFiles projectID] /\ run.1.2 = Some err)
  /\ (forall s3Objects,
        s3Service_ListProjectFiles cs h projectID = Ok s3Objects ->
        (forall deletedCount err,
            s3Service_DeleteObjects cs (h ++ [S3_ListProjectFiles projectID])
              s3Objects
            = (deletedCount, Some err) ->
            run.2 = h ++ [S3_ListProjectFiles projectID;
                          S3_DeleteObjects s3Objects]
                      ++ (if 0 <? deletedCount
                          then [Project_UpdateProjectUsage projectID
                                  (wrap64 (- calculateSizeForDeletedFiles
                                               s3Objects deletedCount))]
                          else [])
            /\ run.1.2 = Some err)
        /\ (forall deletedCount,
              s3Service_DeleteObjects cs
                (h ++ [S3_ListProjectFiles projectID]) s3Objects
              = (deletedCount, None) ->
              let storage :=
                [S3_ListProjectFiles projectID;
                 S3_DeleteObjects s3Objects;
                 Project_UpdateProjectUsage projectID
                   (wrap64 (- sumSizes s3Objects))] in
              (forall err,
                  siteRepo_GetByProjectID cs (h ++ storage) projectID
                  = Err err ->
                  run.2 = h ++ storage ++ [Site_GetByProjectID projectID]
                  /\ run.1.2 = Some err)
              /\ (forall sites,
                    siteRepo_GetByProjectID cs (h ++ storage) projectID
                    = Ok sites ->
                    let rows :=
                      storage ++ [Site_GetByProjectID projectID]
                      ++ flat_map siteRowCalls sites in
                    (forall err,
                        siteRepo_HardDeleteByProjectID cs (h ++ rows)
                          projectID
                        = Some err ->
                        run.2 = h ++ rows
                                  ++ [Site_HardDeleteByProjectID projectID]
                        /\ run.1.2 = Some err)
                    /\ (siteRepo_HardDeleteByProjectID cs (h ++ rows)
                          projectID
                        = None ->
                        run.2 = h ++ projectDeletionCalls projectID
                                       s3Objects sites
                        /\ run.1.2
                           = projectRepo_HardDelete cs
                               (h ++ rows
                                  ++ [Site_HardDeleteByProjectID projectID])
                               projectID
                        /\ (Success run.1.1 = true
                            <-> run.1.2 = None))))).
Proof.
  intros run. subst run. split.
  { intros err Hlist.
    unfold DeleteProjectFiles, bind, ask, ret, failWith. by rewrite Hlist. }
  intros s3Objects Hlist. split.
  { intros deletedCount err Hdelete.
    unfold DeleteProjectFiles, bind, ask, ret, failWith.
    rewrite Hlist, Hdelete.
    destruct (0 <? deletedCount); simpl; by rewrite <- !app_assoc. }
  intros deletedCount Hdelete storage.
  assert (Hrun :
    DeleteProjectFiles cs projectID h
    = (let result := newResult CleansingTypeProject projectID in
       s <- ask (Site_GetByProjectID projectID)
                (fun h => siteRepo_GetByProjectID cs h projectID) ;;
       match s with
       | Err err =>
           let result :=
             set_Error result ("failed to get sites for project: "
                                 +:+ error_string err) in
           ret (set_FilesDeleted result deletedCount, Some err)
       | Ok sites =>
       _ <- foldM (fun (_ : unit) site => cascadeSiteRows cs site)
                  sites tt ;;
       e <- ask (Site_HardDeleteByProjectID projectID)
                (fun h => siteRepo_HardDeleteByProjectID cs h projectID) ;;
       match e with
       | Some err =>
           let result :=
             set_Error result ("failed to delete site records: "
                                 +:+ error_string err) in
           ret (set_FilesDeleted result deletedCount, Some err)
       | None =>
       e <- ask (Project_HardDelete projectID)
                (fun h => projectRepo_HardDelete cs h projectID) ;;
       match e with
       | Some err =>
           let result :=
             set_Error result ("failed to delete project record: "
                                 +:+ error_string err) in
           ret (set_FilesDeleted result deletedCount, Some err)
       | None =>
           let result := set_Success result true in
           ret (set_FilesDeleted result deletedCount, None)
       end end end) (h ++ storage)).
  { unfold DeleteProjectFiles. unfold bind at 1. unfold ask at 1.
    rewrite Hlist. unfold bind at 1. unfold ask at 1.
    rewrite Hdelete. cbn zeta. unfold bind at 1. unfold ask at 1.
    subst storage. by rewrite <- !app_assoc. }
  rewrite Hrun. clear Hrun. cbn zeta. subst storage.
  unfold bind, ask, ret. split.
  { intros err ->. simpl. by rewrite <- app_assoc. }
  intros sites ->.
  set (rows := [S3_ListProjectFiles projectID;
                S3_DeleteObjects s3Objects;
                Project_UpdateProjectUsage projectID
                  (wrap64 (- sumSizes s3Objects))]
               ++ [Site_GetByProjectID projectID]
               ++ flat_map siteRowCalls sites).
  rewrite cascadeSites_run.
  replace (((h ++ [S3_ListProjectFiles projectID;
                   S3_DeleteObjects s3Objects;
                   Project_UpdateProjectUsage projectID
                     (wrap64 (- sumSizes s3Objects))])
              ++ [Site_GetByProjectID projectID])
             ++ flat_map siteRowCalls sites)
    with (h ++ rows) by (subst rows; by rewrite <- !app_assoc).
  assert (Hcalls :
    projectDeletionCalls projectID s3Objects sites
    = rows ++ [Site_HardDeleteByProjectID projectID;
               Project_HardDelete projectID]).
  { subst rows. unfold projectDeletionCalls. simpl.
    by rewrite <- ?app_assoc. }
  split.
  - intros err ->. cbn [fst snd]. by rewrite <- app_assoc.
  - intros ->. rewrite Hcalls. rewrite <- ?app_assoc.
    destruct (projectRepo_HardDelete cs _ projectID); cbn [fst snd];
      rewrite <- ?app_assoc; repeat split; done.
Qed.

End ProjectCascade.

Section UsageAccounting.
Import Dto Entity Cleansing CallSpec CallSpecMore.

Lemma wrap64_small z : - 2 ^ 63 <= z < 2 ^ 63 -> wrap64 z = z.
Proof. intros H. unfold wrap64. rewrite Z.mod_small; lia. Qed.

Lemma plainSize_nonneg l :
  Forall (fun obj => 0 <= Size obj) l -> 0 <= plainSize l.
Proof. induction 1; simpl; lia. Qed.

Lemma plainSize_take n l :
  Forall (fun obj => 0 <= Size obj) l ->
  0 <= plainSize (take n l) <= plainSize l.
Proof.
  intros Hall. revert n.
  induction Hall as [|obj l Hobj Hall IH]; intros [|n]; simpl;
    try lia.
  - pose proof (plainSize_nonneg l Hall). lia.
  - specialize (IH n). lia.
Qed.

Lemma sumSizes_acc l :
  forall acc,
    0 <= acc ->
    Forall (fun obj => 0 <= Size obj) l ->
    acc + plainSize l < 2 ^ 63 ->
    fold_left (fun totalSize obj => wrap64 (totalSize + Size obj)) l acc
    = acc + plainSize l.
Proof.
  induction l as [|obj l IH]; intros acc Hacc Hall Hfit; simpl in *.
  - lia.
  - apply Forall_cons in Hall as [Hobj Hall].
    pose proof (plainSize_nonneg l Hall).
    rewrite wrap64_small by lia.
    rewrite IH by (done || lia). lia.
Qed.

Lemma sumSizes_plain l :
  Forall (fun obj => 0 <= Size obj) l ->
  plainSize l < 2 ^ 63 ->
  sumSizes l = plainSize l.
Proof.
  intros Hall Hfit. unfold sumSizes.
  rewrite sumSizes_acc by (done || lia). lia.
Qed.

(** X12.  The size [calculateSizeForDeletedFiles] charges for a partial
    deletion: nothing when the deleted count is not positive, the size
    of every object when the count reaches the number of objects, and,
    for sizes that are not negative and sum up below 2^63, never less
    than 0 and never more than the total the successful path
    subtracts. *)
Theorem calculateSizeForDeletedFiles_bounds (s3Objects : list S3Object)
    (deletedCount : Z) :
  Forall (fun obj => 0 <= Size obj) s3Objects ->
  plainSize s3Objects < 2 ^ 63 ->
  0 <= calculateSizeForDeletedFiles s3Objects deletedCount
    <= sumSizes s3Objects
  /\ (deletedCount <= 0 ->
      calculateSizeForDeletedFiles s3Objects deletedCount = 0)
  /\ (Z.of_nat (length s3Objects) <= deletedCount ->
      calculateSizeForDeletedFiles s3Objects deletedCount
      = sumSizes s3Objects).
Proof.
  intros Hall Hfit. unfold calculateSizeForDeletedFiles.
  pose proof (plainSize_take (Z.to_nat deletedCount) s3Objects Hall)
    as Htake.
  split; [|split].
  - rewrite (sumSizes_plain s3Objects) by done.
    rewrite sumSizes_plain; [done| |lia].
    by apply Forall_take.
  - intros Hle. by replace (Z.to_nat deletedCount) with 0%nat by lia.
  - intros Hge. rewrite take_ge by lia. done.
Qed.

Lemma calculateSizeForDeletedFiles_bounds_witness :
  0 <= calculateSizeForDeletedFiles twoObjects 1 <= sumSizes twoObjects.
Proof.
  apply (calculateSizeForDeletedFiles_bounds twoObjects 1).
  - repeat constructor; simpl; lia.
  - simpl. lia.
Defined.

End UsageAccounting.

Section ResolvedObjects.
Import Dto Entity FileService ResolvedKeys S3Listing.

Lemma Forall_flat_map {A B} (P : B -> Prop) (f : A -> list B) l :
  (forall a, Forall P (f a)) -> Forall P (flat_map f l).
Proof.
  intros Hf. induction l as [|a l IH]; simpl; [constructor|].
  apply Forall_app. by split.
Qed.

Lemma buildS3ObjectsFromFile_keyOnly project site docGroup file :
  Forall keyOnly (buildS3ObjectsFromFile project site docGroup file).
Proof. unfold buildS3ObjectsFromFile. simpl. by repeat constructor. Qed.

Lemma buildProcessedS3Objects_keyOnly project site docGroup :
  Forall keyOnly (buildProcessedS3Objects project site docGroup).
Proof.
  unfold buildProcessedS3Objects.
  destruct (_ || _); simpl; by repeat constructor.
Qed.

Variable fs : Repositories.

Lemma docGroupKeys_keyOnly project site docGroup :
  Forall keyOnly (docGroupKeys fs project site docGroup).
Proof.
  unfold docGroupKeys, documentKeys, processedKeys.
  destruct (documentRepo_GetByGroupID fs _); [|constructor].
  apply Forall_app. split.
  - apply Forall_flat_map. intros document.
    destruct (fileRepo_GetByDocumentID fs _); [|constructor].
    apply Forall_flat_map. intros file.
    apply buildS3ObjectsFromFile_keyOnly.
  - destruct (hasProcessedFiles docGroup); [|constructor].
    apply buildProcessedS3Objects_keyOnly.
Qed.

Lemma siteKeys_keyOnly project site :
  Forall keyOnly (siteKeys fs project site).
Proof.
  unfold siteKeys.
  destruct (documentGroupRepo_GetBySiteID fs _); [|constructor].
  apply Forall_flat_map. intros g. apply docGroupKeys_keyOnly.
Qed.

Lemma projectKeys_keyOnly project :
  Forall keyOnly (projectKeys fs project).
Proof.
  unfold projectKeys.
  destruct (siteRepo_GetByProjectID fs _); [|constructor].
  apply Forall_flat_map. intros s. apply siteKeys_keyOnly.
Qed.

Lemma sumSizes_keyOnly objects :
  Forall keyOnly objects -> Cleansing.sumSizes objects = 0.
Proof.
  unfold Cleansing.sumSizes.
  induction 1 as [|obj l (_ & _ & Hsize) _ IH]; simpl; [done|].
  rewrite Hsize. exact IH.
Qed.

Lemma GetContractorFiles_keyOnly contractorID objects :
  GetContractorFiles fs contractorID = Ok objects ->
  Forall keyOnly objects.
Proof.
  unfold GetContractorFiles.
  destruct (projectRepo_GetByContractorID fs contractorID); [|done].
  intros [= <-].
  rewrite (fold_left_app_flat_map _ (projectKeys fs))
    by apply walkProject_keys.
  apply Forall_flat_map, projectKeys_keyOnly.
Qed.

Lemma GetProjectFiles_keyOnly projectID objects :
  GetProjectFiles fs projectID = Ok objects -> Forall keyOnly objects.
Proof.
  unfold GetProjectFiles.
  destruct (projectRepo_GetByID fs projectID) as [project|]; [|done].
  destruct (siteRepo_GetByProjectID fs projectID); [|done].
  intros [= <-].
  rewrite (fold_left_app_flat_map _ (siteKeys fs project))
    by apply walkSite_keys.
  apply Forall_flat_map. intros s. apply siteKeys_keyOnly.
Qed.

Lemma GetSiteFiles_keyOnly siteID objects :
  GetSiteFiles fs siteID = Ok objects -> Forall keyOnly objects.
Proof.
  unfold GetSiteFiles.
  destruct (siteRepo_GetByID fs siteID) as [site|]; [|done].
  destruct (projectRepo_GetByID fs _) as [project|]; [|done].
  destruct (documentGroupRepo_GetBySiteID fs siteID); [|done].
  intros [= <-].
  rewrite (fold_left_app_flat_map _ (docGroupKeys fs project site))
    by apply walkDocGroup_keys.
  apply Forall_flat_map. intros g. apply docGroupKeys_keyOnly.
Qed.

Lemma Listed_keyOnly objects :
  (exists contractorID, ListContractorFiles fs contractorID = Ok objects)
  \/ (exists projectID, ListProjectFiles fs projectID = Ok objects)
  \/ (exists siteID, ListSiteFiles fs siteID = Ok objects) ->
  Forall keyOnly objects.
Proof.
  intros [[id Hlist] | [[id Hlist] | [id Hlist]]].
  - unfold ListContractorFiles in Hlist.
    destruct (GetContractorFiles fs id) as [objs|] eqn:Hget; [|done].
    injection Hlist as <-. by eapply GetContractorFiles_keyOnly.
  - unfold ListProjectFiles in Hlist.
    destruct (GetProjectFiles fs id) as [objs|] eqn:Hget; [|done].
    injection Hlist as <-. by eapply GetProjectFiles_keyOnly.
  - unfold ListSiteFiles in Hlist.
    destruct (GetSiteFiles fs id) as [objs|] eqn:Hget; [|done].
    injection Hlist as <-. by eapply GetSiteFiles_keyOnly.
Qed.

(** X14.  The objects the S3 service lists for a contractor, a project
    or a site carry a key and nothing else: region and bucket are empty
    and the size is 0.  Their sizes therefore sum up to 0, the amount
    the orchestrator subtracts from the project's usage. *)
Theorem listed_objects_are_key_only :
  (forall contractorID objects,
      ListContractorFiles fs contractorID = Ok objects ->
      Forall keyOnly objects /\ Cleansing.sumSizes objects = 0)
  /\ (forall projectID objects,
      ListProjectFiles fs projectID = Ok objects ->
      Forall keyOnly objects /\ Cleansing.sumSizes objects = 0)
  /\ (forall siteID objects,
      ListSiteFiles fs siteID = Ok objects ->
      Forall keyOnly objects /\ Cleansing.sumSizes objects = 0).
Proof.
  split; [|split].
  - intros contractorID objects. unfold ListContractorFiles.
    destruct (GetContractorFiles fs contractorID) as [objs|] eqn:Hget;
      [|done].
    intros [= <-]. apply GetContractorFiles_keyOnly in Hget.
    split; [done|by apply sumSizes_keyOnly].
  - intros projectID objects. unfold ListProjectFiles.
    destruct (GetProjectFiles fs projectID) as [objs|] eqn:Hget; [|done].
    intros [= <-]. apply GetProjectFiles_keyOnly in Hget.
    split; [done|by apply sumSizes_keyOnly].
  - intros siteID objects. unfold ListSiteFiles.
    destruct (GetSiteFiles fs siteID) as [objs|] eqn:Hget; [|done].
    intros [= <-]. apply GetSiteFiles_keyOnly in Hget.
    split; [done|by apply sumSizes_keyOnly].
Qed.

End ResolvedObjects.

Section ResolvedObjectsRun.
Import Dto Entity FileService ResolvedKeys S3Listing Examples.

Lemma listed_objects_are_key_only_witness :
  exists objects,
    ListContractorFiles c7_repos 7 = Ok objects
    /\ objects <> []
    /\ Forall keyOnly objects /\ Cleansing.sumSizes objects = 0.
Proof.
  eexists. split; [reflexivity|]. split; [done|].
  apply (proj1 (listed_objects_are_key_only c7_repos) 7). reflexivity.
Defined.

End ResolvedObjectsRun.

Section KeyCollisions.
Import Dto Entity FileService Examples.

Lemma keyObject_inj k k' : keyObject k = keyObject k' -> k = k'.
Proof. by intros [= ->]. Qed.

(** X13.  For a category of the split-name set the upload key reads
    only the first two "/"-segments of the stored file name: two files
    of the same group whose names agree on these segments get the same
    key, whatever follows.  For every other category the key determines
    the stored name. *)
Theorem upload_key_reads_two_segments
    (project : Project) (site : Site) (docGroup : DocumentGroup)
    (file file' : File) :
  (group_Category docGroup ∈ splitNameCategories ->
   take 2 (strings_Split (file_Name file) slash)
   = take 2 (strings_Split (file_Name file') slash) ->
   buildS3ObjectsFromFile project site docGroup file
   = buildS3ObjectsFromFile project site docGroup file')
  /\ (group_Category docGroup ∉ splitNameCategories ->
      buildS3ObjectsFromFile project site docGroup file
      = buildS3ObjectsFromFile project site docGroup file' ->
      file_Name file = file_Name file').
Proof.
  unfold buildS3ObjectsFromFile. rewrite needSplit_elem_of. split.
  - intros Hcat Htake. rewrite (bool_decide_eq_true_2 _ Hcat).
    pose proof (strings_Split_Join slash (file_Name file)) as Hname.
    pose proof (strings_Split_Join slash (file_Name file')) as Hname'.
    destruct (strings_Split (file_Name file) slash)
      as [|seg0 [|seg1 rest]];
      destruct (strings_Split (file_Name file') slash)
        as [|seg0' [|seg1' rest']];
      simpl in Htake; try discriminate Htake.
    + by rewrite <- Hname, <- Hname'.
    + injection Htake as ->. simpl in Hname, Hname'.
      by rewrite <- Hname, <- Hname'.
    + by injection Htake as -> ->.
  - intros Hcat. rewrite (bool_decide_eq_false_2 _ Hcat). simpl.
    intros [= Hkey]. by simplify_eq.
Qed.

Lemma upload_key_reads_two_segments_witness :
  buildS3ObjectsFromFile c8_project c8_site c8_group c8_file
  = buildS3ObjectsFromFile c8_project c8_site c8_group
      {| file_Id := 2; file_Name := "line7/a.sgy/extra/b.sgy" |}.
Proof.
  apply (proj1 (upload_key_reads_two_segments c8_project c8_site c8_group
                  c8_file _)).
  - apply (bool_decide_unpack _); vm_compute; exact I.
  - reflexivity.
Defined.

End KeyCollisions.

Section MessageHandler.
Import Dto Cleansing Handlers.

Variable cs : Collaborators.
Variable json_Unmarshal : string -> result CleansingMessage.

(** X15.  [HandleMessage] acknowledges (returns nil for) a payload that
    cannot be decoded and a message of an invalid type without calling
    any collaborator; for a valid message it runs the service once and
    returns exactly the service's error, so that the queue redelivers
    the message if and only if the service failed. *)
Theorem HandleMessage_requeues_only_service_errors
    (body : string) (h : list Call) :
  (forall err, json_Unmarshal body = Err err ->
     HandleMessage cs json_Unmarshal body h = (None, h))
  /\ (forall msg, json_Unmarshal body = Ok msg ->
        IsValidType msg = false ->
        HandleMessage cs json_Unmarshal body h = (None, h))
  /\ (forall msg, json_Unmarshal body = Ok msg ->
        IsValidType msg = true ->
        HandleMessage cs json_Unmarshal body h
        = ((ProcessCleansingMessage cs msg h).1.2,
           (ProcessCleansingMessage cs msg h).2))
  /\ (forall err h',
        HandleMessage cs json_Unmarshal body h = (Some err, h') ->
        exists msg result,
          json_Unmarshal body = Ok msg
          /\ IsValidType msg = true
          /\ ProcessCleansingMessage cs msg h = ((result, Some err), h')).
Proof.
  unfold HandleMessage, processCleansingMessage, handleError, bind, ret.
  repeat split.
  - by intros err ->.
  - by intros msg -> ->.
  - intros msg -> ->. simpl.
    by destruct (ProcessCleansingMessage cs msg h) as [[result [err|]] h'].
  - intros err h'.
    destruct (json_Unmarshal body) as [msg|]; [|done].
    destruct (IsValidType msg) eqn:Hvalid; simpl; [|done].
    destruct (ProcessCleansingMessage cs msg h)
      as [[result [err'|]] h''] eqn:Hrun; simpl; [|done].
    intros [= <- <-]. by exists msg, result.
Qed.

End MessageHandler.

Section BucketStrategy.
Import Dto BucketCleansing.

Variable cs : Collaborators.

Local Ltac calls_done :=
  repeat split; intros;
  repeat match goal with
         | H : _ ∈ _ :: _ |- _ =>
             apply elem_of_cons in H as [H|H]; [simplify_eq|]
         | H : _ ∈ [] |- _ => apply elem_of_nil in H; destruct H
         end;
  simplify_eq;
  first [ done
        | by repeat apply prefix_cons; apply prefix_nil
        | by do 2 apply list_elem_of_further; apply list_elem_of_here
        | by eexists ].


End BucketStrategy.

Section BucketStrategyRun.
Import Dto BucketCleansing.


End BucketStrategyRun.

Section Descriptions.
Import Dto Description.

(** X17.  [GetDescription] answers "Unknown cleansing operation" for
    exactly the messages [IsValidType] rejects, and the three valid
    types get three different descriptions. *)
Theorem GetDescription_unknown_iff_invalid (cm : CleansingMessage) :
  (GetDescription cm = "Unknown cleansing operation"
   <-> IsValidType cm = false)
  /\ (forall cm', IsValidType cm = true -> IsValidType cm' = true ->
        GetDescription cm = GetDescription cm' ->
        msg_Type cm = msg_Type cm').
Proof.
  unfold GetDescription, IsValidType. split.
  - repeat case_decide; split; done.
  - intros cm'. repeat case_decide; try done; congruence.
Qed.

End Descriptions.

Section Configuration.
Import Resolver ResolverSpec.

(** X18.  [ValidateConfiguration] accepts exactly the configurations
    that are present and have the region, both credentials, the queue
    server, the topic and the channel set; otherwise its error names the
    first setting, in this order, that is empty. *)
Theorem ValidateConfiguration_first_missing (config : option Config) :
  (ValidateConfiguration config = None
   <-> exists c, config = Some c
         /\ Forall (fun setting => setting.1 <> "") (requiredSettings c))
  /\ (forall c, config = Some c ->
        ValidateConfiguration config
        = match find (fun setting => bool_decide (setting.1 = ""))
                     (requiredSettings c) with
          | Some (_, name) => Some (ErrText (name +:+ " is required"))
          | None => None
          end).
Proof.
  assert (Hfind : forall c,
             ValidateConfiguration (Some c)
             = match find (fun setting => bool_decide (setting.1 = ""))
                          (requiredSettings c) with
               | Some (_, name) => Some (ErrText (name +:+ " is required"))
               | None => None
               end).
  { intros c. unfold ValidateConfiguration, requiredSettings. simpl.
    by repeat case_bool_decide. }
  split; [|by intros c ->].
  destruct config as [c|].
  - rewrite Hfind. split.
    + intros Hnone. exists c. split; [done|].
      apply Forall_forall. intros setting Hin Hempty.
      destruct (find _ _) as [[value name]|] eqn:Hfound; [done|].
      apply list_elem_of_In in Hin.
      pose proof (find_none _ _ Hfound _ Hin) as Hno.
      by apply bool_decide_eq_false in Hno.
    + intros (c' & [= <-] & Hall).
      destruct (find _ _) as [[value name]|] eqn:Hfound; [|done].
      apply find_some in Hfound as [Hin Hempty].
      apply list_elem_of_In in Hin.
      rewrite Forall_forall in Hall.
      apply bool_decide_eq_true in Hempty.
      by destruct (Hall _ Hin).
  - split; [done|]. by intros (c & ? & _).
Qed.

End Configuration.

Section ListedObjectsDeletion.
Import Dto S3Engine TraceSpec S3Listing.

Variable w : World.

Lemma groupObjects_keyOnly_from (objects acc : list S3Object) :
  Forall keyOnly objects ->
  fold_left
    (fun regionBucketObjects obj =>
       let region := Region obj in
       let bucketObjects := default ∅ (regionBucketObjects !! region) in
       <[region :=
           <[Bucket obj :=
               default [] (bucketObjects !! Bucket obj) ++ [obj]]>
           bucketObjects]> regionBucketObjects)
    objects ({[ "" := {[ "" := acc ]} ]}
             : gmap string (gmap string (list S3Object)))
  = {[ "" := {[ "" := acc ++ objects ]} ]}.
Proof.
  intros Hall. revert acc.
  induction Hall as [|obj objects (Hregion & Hbucket & _) _ IH];
    intros acc; simpl.
  - by rewrite app_nil_r.
  - rewrite Hregion, Hbucket. rewrite lookup_singleton_eq. simpl.
    rewrite lookup_singleton_eq. simpl. rewrite !insert_singleton_eq.
    rewrite IH. by rewrite <- app_assoc.
Qed.

Lemma groupObjects_keyOnly (objects : list S3Object) :
  Forall keyOnly objects -> objects <> [] ->
  groupObjects objects = {[ "" := {[ "" := objects ]} ]}.
Proof.
  intros Hall Hne. unfold groupObjects.
  destruct Hall as [|obj objects (Hregion & Hbucket & _) Hall]; [done|].
  simpl. rewrite Hregion, Hbucket. rewrite lookup_empty. simpl.
  rewrite lookup_empty. simpl. rewrite !insert_empty.
  by rewrite groupObjects_keyOnly_from.
Qed.

Lemma DeleteObjects_single_partition (objects : list S3Object)
    (st : State) :
  Forall keyOnly objects -> objects <> [] ->
  DeleteObjects w objects st
  = goroutine w "" "" objects (0%nat, None) st.
Proof.
  intros Hall Hne. unfold DeleteObjects.
  rewrite bool_decide_eq_false_2 by by destruct objects.
  rewrite (groupObjects_keyOnly objects Hall Hne).
  rewrite map_to_list_singleton. cbn [foldM fst snd].
  rewrite map_to_list_singleton. cbn [foldM fst snd].
  unfold bind, ret.
  by destruct (goroutine w "" "" objects (0%nat, None) st) as [[? ?] ?].
Qed.

(** X19.  Objects that carry a key and nothing else, as the listing
    methods return them, form one partition: [DeleteObjects] sends all
    of them through the default client to the bucket with the empty
    name, in at most ceil(n/1000) batches of 1 to 1000 keys (exactly
    that many when no error is returned), and creates no regional
    client. *)
Theorem DeleteObjects_of_key_only_objects
    (objects : list S3Object) (st : State) :
  Forall keyOnly objects ->
  let run := DeleteObjects w objects st in
  exists new,
    trace run.2 = trace st ++ new
    /\ regionClients run.2 = regionClients st
    /\ Forall (batchEvent DefaultClient "") new
    /\ (length new <= ceilDiv (length objects) maxDeleteBatchSize)%nat
    /\ (run.1.2 = None ->
        length new = ceilDiv (length objects) maxDeleteBatchSize).
Proof.
  intros Hall run. subst run.
  destruct (decide (objects = [])) as [->|Hne].
  - exists []. simpl. rewrite app_nil_r.
    repeat split; (done || constructor).
  - rewrite (DeleteObjects_single_partition objects st Hall Hne).
    unfold goroutine, getClientForRegion.
    rewrite bool_decide_eq_true_2 by done.
    unfold bind, ret, deleteBucketObjectsWithClient.
    destruct (batchLoop _ objects (length objects) 0 0 st)
      as [r st'] eqn:Hrun.
    apply batchLoop_WithClient in Hrun
      as (new & Htrace & Hclients & Hbatches & Hle & Heq); [|lia].
    rewrite Nat.sub_0_r in Hle, Heq.
    exists new. destruct r as [deleted [err|]]; simpl in *.
    + repeat split; done.
    + repeat split; done.
Qed.

End ListedObjectsDeletion.

Section ListedObjectsDeletionRun.
Import Dto S3Engine TraceSpec S3Listing EngineExamples.

Lemma DeleteObjects_of_key_only_objects_witness :
  trace (DeleteObjects (failAfter 1)
           [FileService.keyObject "PRJ/ST01/00_Upload/a.sgy";
            FileService.keyObject "PRJ/ST01/00_Upload/b.sgy"] initial).2
  = [EvDeleteObjects DefaultClient ""
       ["PRJ/ST01/00_Upload/a.sgy"; "PRJ/ST01/00_Upload/b.sgy"]]
  /\ exists new,
       Forall (batchEvent DefaultClient "") new /\ length new = 1%nat.
Proof.
  split; [reflexivity|].
  destruct (DeleteObjects_of_key_only_objects (failAfter 1)
              [FileService.keyObject "PRJ/ST01/00_Upload/a.sgy";
               FileService.keyObject "PRJ/ST01/00_Upload/b.sgy"] initial)
    as (new & _ & _ & Hbatches & _ & Heq).
  - by repeat constructor.
  - exists new. split; [done|]. apply Heq. reflexivity.
Defined.

End ListedObjectsDeletionRun.

Section ContractorCascade.
Import Dto Entity Cleansing CallSpecMore ContractorCascadeSpec.
Variable cs : Collaborators.

Lemma siteRowCalls_siteLevel sites :
  Forall siteLevelCall (flat_map siteRowCalls sites)
  /\ omap sitesRead (flat_map siteRowCalls sites) = []
  /\ omap sitesDeleted (flat_map siteRowCalls sites) = [].
Proof.
  induction sites as [|site sites (IH1 & IH2 & IH3)]; simpl.
  - by repeat split.
  - repeat split; [by repeat constructor|done|done].
Qed.

Lemma projectsLoop_run (projects : list Project) :
  forall h,
    foldM
      (fun (_ : unit) project =>
         s <- ask (Site_GetByProjectID (project_Id project))
                  (fun h => siteRepo_GetByProjectID cs h
                              (project_Id project)) ;;
         match s with
         | Err _ => ret tt
         | Ok sites =>
             _ <- foldM (fun (_ : unit) site => cascadeSiteRows cs site)
                        sites tt ;;
             _ <- ask (Site_HardDeleteByProjectID (project_Id project))
                      (fun h => siteRepo_HardDeleteByProjectID cs h
                                  (project_Id project)) ;;
             ret tt
         end)
      projects tt h
    = (tt, h ++ projectsCalls cs h projects).
Proof.
  induction projects as [|project projects IH]; intros h.
  - simpl. unfold ret. by rewrite app_nil_r.
  - cbn [foldM projectsCalls]. unfold bind at 1. unfold bind at 1.
    unfold ask at 1. unfold projectCalls.
    destruct (siteRepo_GetByProjectID cs h (project_Id project))
      as [sites|err].
    + unfold bind at 1. rewrite cascadeSites_run.
      unfold bind, ask, ret. rewrite IH.
      rewrite <- ?app_assoc. simpl. by rewrite <- ?app_assoc.
    + unfold ret. rewrite IH.
      rewrite <- ?app_assoc. simpl. by rewrite <- ?app_assoc.
Qed.

Lemma projectCalls_shape h project :
  Forall siteLevelCall (projectCalls cs h project)
  /\ omap sitesRead (projectCalls cs h project) = [project_Id project]
  /\ omap sitesDeleted (projectCalls cs h project)
       `sublist_of` [project_Id project].
Proof.
  unfold projectCalls.
  destruct (siteRepo_GetByProjectID cs h (project_Id project))
    as [sites|err].
  - destruct (siteRowCalls_siteLevel sites) as (Hl & Hr & Hd).
    change (Site_GetByProjectID (project_Id project)
            :: flat_map siteRowCalls sites
               ++ [Site_HardDeleteByProjectID (project_Id project)])
      with ([Site_GetByProjectID (project_Id project)]
            ++ flat_map siteRowCalls sites
            ++ [Site_HardDeleteByProjectID (project_Id project)]).
    rewrite !omap_app, Hr, Hd. split; [|by split].
    apply Forall_app. split; [by repeat constructor|].
    apply Forall_app. split; [done|by repeat constructor].
  - split; [by repeat constructor|]. split; [done|].
    apply sublist_nil_l.
Qed.

(** In the loop only site-level calls are made; the sites of every
    project are read, in order, and site rows are deleted for a
    subsequence of the projects. *)
Lemma projectsCalls_shape (projects : list Project) :
  forall h,
    Forall siteLevelCall (projectsCalls cs h projects)
    /\ omap sitesRead (projectsCalls cs h projects)
       = map project_Id projects
    /\ omap sitesDeleted (projectsCalls cs h projects)
         `sublist_of` map project_Id projects.
Proof.
  induction projects as [|project projects IH]; intros h.
  - by repeat split.
  - cbn [projectsCalls].
    destruct (IH (h ++ projectCalls cs h project))
      as (Hlevel & Hread & Hdeleted).
    destruct (projectCalls_shape h project) as (Hl & Hr & Hd).
    rewrite !omap_app, Hread, Hr.
    split; [by apply Forall_app|]. split; [done|].
    change (map project_Id (project :: projects))
      with ([project_Id project] ++ map project_Id projects).
    by apply sublist_app.
Qed.

(** X20.  The calls of [DeleteContractorFiles], read off the
    collaborators' answers.  With [s3Objects] the keys the listing
    returned and [projects] the projects
    [projectRepo.GetByContractorID] returned: after the keys are
    resolved, the objects deleted and the projects read, the loop makes
    for every project of [projects], in order, the calls
    [projectCalls]: it reads the project's sites and, unless that read
    fails, hard-deletes files, documents and document groups of each
    site returned and then the project's sites.  So every project's
    sites are read, only site-level calls are made in the loop, and a
    project whose sites cannot be read is passed over.  Whatever
    happened in the loop, the contractor's projects are hard-deleted
    next, and only when that returned no error the contractor.  The
    usage of a project is never updated.  A failed listing, object
    deletion or read of the projects ends the run before any row is
    deleted. *)
Theorem DeleteContractorFiles_cascade_order
    (contractorID : Z) (h : list Call) :
  let run := DeleteContractorFiles cs contractorID h in
  (forall err,
      s3Service_ListContractorFiles cs h contractorID = Err err ->
      run.2 = h ++ [S3_ListContractorFiles contractorID]
      /\ run.1.2 = Some err)
  /\ (forall s3Objects,
        s3Service_ListContractorFiles cs h contractorID = Ok s3Objects ->
        (forall deletedCount err,
            s3Service_DeleteObjects cs
              (h ++ [S3_ListContractorFiles contractorID]) s3Objects
            = (deletedCount, Some err) ->
            run.2 = h ++ [S3_ListContractorFiles contractorID;
                          S3_DeleteObjects s3Objects]
            /\ run.1.2 = Some err)
        /\ (forall deletedCount,
              s3Service_DeleteObjects cs
                (h ++ [S3_ListContractorFiles contractorID]) s3Objects
              = (deletedCount, None) ->
              let storage :=
                [S3_ListContractorFiles contractorID;
                 S3_DeleteObjects s3Objects] in
              (forall err,
                  projectRepo_GetByContractorID cs (h ++ storage)
                    contractorID
                  = Err err ->
                  run.2 = h ++ storage
                            ++ [Project_GetByContractorID contractorID]
                  /\ run.1.2 = Some err)
              /\ (forall projects,
                    projectRepo_GetByContractorID cs (h ++ storage)
                      contractorID
                    = Ok projects ->
                    let read :=
                      storage ++ [Project_GetByContractorID contractorID] in
                    let mid := projectsCalls cs (h ++ read) projects in
                    Forall siteLevelCall mid
                    /\ omap sitesRead mid = map project_Id projects
                    /\ omap sitesDeleted mid
                         `sublist_of` map project_Id projects
                    /\ (forall err,
                          projectRepo_HardDeleteByContractorID cs
                            (h ++ read ++ mid) contractorID
                          = Some err ->
                          run.2
                          = h ++ read ++ mid
                              ++ [Project_HardDeleteByContractorID
                                    contractorID]
                          /\ run.1.2 = Some err)
                    /\ (projectRepo_HardDeleteByContractorID cs
                          (h ++ read ++ mid) contractorID
                        = None ->
                        run.2
                        = h ++ read ++ mid
                            ++ [Project_HardDeleteByContractorID
                                  contractorID;
                                Contractor_Delete contractorID]
                        /\ run.1.2
                           = contractorRepo_Delete cs
                               (h ++ read ++ mid
                                  ++ [Project_HardDeleteByContractorID
                                        contractorID])
                               contractorID
                        /\ (Success run.1.1 = true
                            <-> run.1.2 = None))))).
Proof.
  intros run. subst run. split.
  { intros err Hlist.
    unfold DeleteContractorFiles, bind, ask, ret, failWith.
    by rewrite Hlist. }
  intros s3Objects Hlist. split.
  { intros deletedCount err Hdelete.
    unfold DeleteContractorFiles, bind, ask. rewrite Hlist, Hdelete.
    simpl. by rewrite <- app_assoc. }
  intros deletedCount Hdelete storage.
  unfold DeleteContractorFiles, bind, ask, ret. rewrite Hlist, Hdelete.
  cbn beta iota.
  replace ((h ++ [S3_ListContractorFiles contractorID])
             ++ [S3_DeleteObjects s3Objects])
    with (h ++ storage) by (subst storage; by rewrite <- app_assoc).
  split.
  { intros err ->. cbn [fst snd]. by rewrite <- app_assoc. }
  intros projects ->. cbn beta iota.
  set (read := storage ++ [Project_GetByContractorID contractorID]).
  set (mid := projectsCalls cs (h ++ read) projects).
  pose proof (projectsLoop_run projects
                ((h ++ storage)
                   ++ [Project_GetByContractorID contractorID])) as Hloop.
  unfold bind, ask, ret in Hloop. rewrite Hloop. clear Hloop.
  replace ((h ++ storage) ++ [Project_GetByContractorID contractorID])
    with (h ++ read) by (subst read; by rewrite <- app_assoc).
  fold mid.
  destruct (projectsCalls_shape projects (h ++ read))
    as (Hlevel & Hread & Hdeleted).
  split; [done|]. split; [done|]. split; [done|].
  replace ((h ++ read) ++ mid) with (h ++ read ++ mid)
    by by rewrite <- app_assoc.
  split.
  - intros err ->. cbn [fst snd]. by rewrite <- !app_assoc.
  - intros ->. cbn beta iota.
    replace ((h ++ read ++ mid)
               ++ [Project_HardDeleteByContractorID contractorID])
      with (h ++ read ++ mid
              ++ [Project_HardDeleteByContractorID contractorID])
      by by rewrite <- !app_assoc.
    destruct (contractorRepo_Delete cs _ contractorID); cbn [fst snd];
      rewrite <- ?app_assoc; repeat split; done.
Qed.

End ContractorCascade.

Section ContractorCascadeRun.
Import Dto Entity Cleansing CallSpecMore ContractorCascadeSpec.

(** Project 1, whose sites cannot be read, keeps its site rows; the
    rows of site 20 of project 2 go, then the project rows and the
    contractor, and the run succeeds. *)
Lemma DeleteContractorFiles_cascade_order_witness :
  let run := DeleteContractorFiles unreadableProject 7 [] in
  run.2 = [S3_ListContractorFiles 7; S3_DeleteObjects [];
           Project_GetByContractorID 7;
           Site_GetByProjectID 1;
           Site_GetByProjectID 2;
           File_HardDeleteBySiteID 20; Document_HardDeleteBySiteID 20;
           DocumentGroup_HardDeleteBySiteID 20;
           Site_HardDeleteByProjectID 2;
           Project_HardDeleteByContractorID 7; Contractor_Delete 7]
  /\ Success run.1.1 = true.
Proof.
  destruct (DeleteContractorFiles_cascade_order unreadableProject 7 [])
    as (_ & Hlisted).
  destruct (Hlisted [] eq_refl) as (_ & Hdeleted).
  destruct (Hdeleted 0 eq_refl) as (_ & Hprojects).
  destruct (Hprojects _ eq_refl) as (_ & _ & _ & _ & Hdone).
  destruct (Hdone eq_refl) as (Htrace & Herr & Hsuccess).
  split; [exact Htrace|]. apply Hsuccess. rewrite Herr. reflexivity.
Defined.

(** Project 2 with its site 20. *)
Lemma DeleteProjectFiles_cascade_order_witness :
  let run := DeleteProjectFiles unreadableProject 2 [] in
  run.2 = [S3_ListProjectFiles 2; S3_DeleteObjects [];
           Project_UpdateProjectUsage 2 0;
           Site_GetByProjectID 2;
           File_HardDeleteBySiteID 20; Document_HardDeleteBySiteID 20;
           DocumentGroup_HardDeleteBySiteID 20;
           Site_HardDeleteByProjectID 2; Project_HardDelete 2]
  /\ Success run.1.1 = true.
Proof.
  destruct (DeleteProjectFiles_cascade_order unreadableProject 2 [])
    as (_ & Hlisted).
  destruct (Hlisted [] eq_refl) as (_ & Hdeleted).
  destruct (Hdeleted 0 eq_refl) as (_ & Hsites).
  destruct (Hsites _ eq_refl) as (_ & Hdone).
  destruct (Hdone eq_refl) as (Htrace & Herr & Hsuccess).
  split; [exact Htrace|]. apply Hsuccess. rewrite Herr. reflexivity.
Defined.

End ContractorCascadeRun.

Section StoragePipeline.
Import Dto S3Engine TraceSpec S3Listing.

Variable fileService : FileService.Repositories.
Variable w : World.

Lemma DeleteObjects_listed (objects : list S3Object) (st : State) :
  Forall keyOnly objects ->
  exists new,
    trace (DeleteObjects w objects st).2 = trace st ++ new
    /\ regionClients (DeleteObjects w objects st).2 = regionClients st
    /\ Forall (batchEvent DefaultClient "") new
    /\ ((DeleteObjects w objects st).1.2 = None ->
        (DeleteObjects w objects st).1.1 = confirmed w (trace st) new).
Proof.
  intros Hall.
  destruct (decide (objects = [])) as [->|Hne].
  - exists []. simpl. rewrite app_nil_r. repeat split; (done || constructor).
  - rewrite (DeleteObjects_single_partition w objects st Hall Hne).
    unfold goroutine, getClientForRegion.
    rewrite bool_decide_eq_true_2 by done.
    unfold bind, ret, deleteBucketObjectsWithClient.
    destruct (batchLoop _ objects (length objects) 0 0 st)
      as [r st'] eqn:Hrun.
    pose proof Hrun as Hcount.
    apply batchLoop_WithClient in Hrun
      as (new & Htrace & Hclients & Hbatches & _); [|lia].
    apply batchLoop_confirmed in Hcount as (new' & Htrace' & _ & Hcount).
    rewrite Htrace in Htrace'. apply app_inv_head in Htrace' as <-.
    exists new. destruct r as [deleted [err|]]; simpl in *.
    + repeat split; done.
    + repeat split; done.
Qed.

Local Ltac listed_run :=
  unfold bind, ret; simpl;
  match goal with
  | |- context [match ?l with Ok _ => _ | Err _ => _ end] =>
      let Hlist := fresh "Hlist" in
      destruct l as [?|?] eqn:Hlist
  end;
  [ match goal with
    | Hlist : _ = Ok ?objs |- context [DeleteObjects w ?objs ?s] =>
        let new := fresh "new" in
        let Hcount := fresh "Hcount" in
        destruct (DeleteObjects_listed objs s
                    (Listed_keyOnly fileService objs
                       ltac:(eauto 6)))
          as (new & ? & ? & ? & Hcount);
        exists new;
        destruct (DeleteObjects w objs s) as [[? [?|]] ?];
        simpl in *; repeat split; try done;
        intros _; by rewrite Hcount
    end
  | exists []; simpl; rewrite app_nil_r;
    repeat split; (done || constructor) ].


End StoragePipeline.

Section UsageWithListing.
Import Dto Entity Cleansing CallSpecMore S3Listing Wiring.

Variable fileService : FileService.Repositories.
Variable cs : Collaborators.

Lemma usageDelta_siteRowCalls sites :
  omap usageDelta (flat_map siteRowCalls sites) = [].
Proof. induction sites as [|site sites IH]; simpl; done. Qed.

Lemma calculateSizeForDeletedFiles_keyOnly objects deletedCount :
  Forall keyOnly objects ->
  calculateSizeForDeletedFiles objects deletedCount = 0.
Proof.
  intros Hall. unfold calculateSizeForDeletedFiles.
  apply sumSizes_keyOnly. by apply Forall_take.
Qed.

(** X22.  With the listing methods of [S3ServiceImpl], whose objects
    carry no size, the usage of a project is never reduced: every usage
    update [DeleteSiteFiles] and [DeleteProjectFiles] make adds 0, on
    the successful path (where exactly one is made) and after a partial
    deletion. *)
Theorem usage_update_adds_zero (h : list Call) :
  (forall siteID,
      let run := DeleteSiteFiles (withFileService fileService cs) siteID h in
      exists new,
        run.2 = h ++ new
        /\ Forall (fun sizeDelta => sizeDelta = 0) (omap usageDelta new)
        /\ (Success run.1.1 = true -> omap usageDelta new = [0]))
  /\ (forall projectID,
      let run :=
        DeleteProjectFiles (withFileService fileService cs) projectID h in
      exists new,
        run.2 = h ++ new
        /\ Forall (fun sizeDelta => sizeDelta = 0) (omap usageDelta new)
        /\ (Success run.1.1 = true -> omap usageDelta new = [0])).
Proof.
  split.
  - intros siteID run. subst run.
    unfold DeleteSiteFiles, bind, ask, ret, failWith. simpl.
    destruct (siteRepo_GetByID cs h siteID) as [site|]; simpl.
    2:{ eexists. split; [reflexivity|]. by split. }
    destruct (ListSiteFiles fileService siteID) as [s3Objects|] eqn:Hlist;
      simpl.
    2:{ rewrite <- ?app_assoc. eexists. split; [reflexivity|]. by split. }
    assert (Hsum : sumSizes s3Objects = 0).
    { apply sumSizes_keyOnly, (Listed_keyOnly fileService). eauto 6. }
    rewrite Hsum.
    repeat match goal with
           | |- context [match ?x with Some _ => _ | None => _ end] =>
               destruct x; simpl
           | |- context [let (_, _) := ?x in _] => destruct x; simpl
           end;
      rewrite <- ?app_assoc; simpl;
      (eexists; split; [reflexivity|]; simpl; split; [|done]);
      repeat constructor.
  - intros projectID run. subst run.
    unfold DeleteProjectFiles, bind, ask, ret, failWith. simpl.
    destruct (ListProjectFiles fileService projectID)
      as [s3Objects|] eqn:Hlist; simpl.
    2:{ eexists. split; [reflexivity|]. by split. }
    assert (Hall : Forall keyOnly s3Objects).
    { apply (Listed_keyOnly fileService). eauto 6. }
    rewrite (sumSizes_keyOnly s3Objects Hall).
    destruct (s3Service_DeleteObjects cs _ s3Objects)
      as [deletedCount [e1|]]; simpl.
    { rewrite (calculateSizeForDeletedFiles_keyOnly _ _ Hall).
      destruct (0 <? deletedCount); simpl; rewrite <- ?app_assoc; simpl;
        (eexists; split; [reflexivity|]; simpl; split; [|done]);
        repeat constructor. }
    destruct (siteRepo_GetByProjectID cs _ projectID) as [sites|]; simpl.
    2:{ rewrite <- ?app_assoc. simpl.
        eexists; split; [reflexivity|]. simpl. split; [|done].
        repeat constructor. }
    rewrite cascadeSites_run. simpl.
    repeat match goal with
           | |- context [match ?x with Some _ => _ | None => _ end] =>
               destruct x; simpl
           end;
      rewrite <- ?app_assoc;
      (eexists; split; [reflexivity|]);
      rewrite ?omap_app, ?usageDelta_siteRowCalls; simpl;
      (split; [|done]); repeat constructor.
Qed.

End UsageWithListing.

Section PrefixListings.
Import Dto S3Engine TraceSpec PrefixListing.

Variable client : ListingClient.

Lemma listPages_keys bucket pages :
  forall objects,
    listPages bucket pages objects
    = if complete pages
      then Ok (objects ++ map (bucketObject bucket) (listedKeys pages))
      else listPages bucket pages [].
Proof.
  induction pages as [err|contents|contents next IH]; intros objects;
    simpl.
  - done.
  - done.
  - rewrite IH. rewrite (IH (map (bucketObject bucket) contents)).
    destruct (complete next); [|done].
    by rewrite map_app, app_assoc.
Qed.

Lemma listPages_incomplete bucket pages objects :
  complete pages = false -> is_err (listPages bucket pages objects) = true.
Proof.
  revert objects.
  induction pages as [err|contents|contents next IH]; intros objects;
    simpl; [done|done|]. apply IH.
Qed.

Lemma listBuckets_keys buckets prefix :
  listBuckets client buckets prefix
  = flat_map (bucketKeys client prefix) buckets.
Proof.
  unfold listBuckets.
  rewrite (fold_left_app_flat_map _ (bucketKeys client prefix)); [done|].
  intros acc bucket. unfold listObjectsWithPrefix, bucketKeys.
  rewrite listPages_keys.
  destruct (complete _) eqn:Hcomplete; [done|].
  pose proof (listPages_incomplete bucket
                (client_ListObjectsV2 client bucket prefix) []
                Hcomplete) as Herr.
  destruct (listPages _ _ _); [done|]. by rewrite app_nil_r.
Qed.

(** X23.  The listing by bucket and prefix: [ListContractorFiles],
    [ListProjectFiles] and [ListSiteFiles] fail exactly when the buckets
    cannot be listed; otherwise they return, bucket by bucket in the
    order of the bucket list, the keys of all pages of the listing under
    "contractor_{id}/", "project_{id}/" or "site_{id}/", each with the
    name of its bucket, and nothing for a bucket one of whose pages
    fails: the keys of its earlier pages are dropped. *)
Theorem prefix_listing_skips_failed_buckets (id : Z) :
  (forall err, client_ListBuckets client = Err err ->
     is_err (ListContractorFiles client id) = true
     /\ is_err (ListProjectFiles client id) = true
     /\ is_err (ListSiteFiles client id) = true)
  /\ (forall buckets, client_ListBuckets client = Ok buckets ->
        ListContractorFiles client id
        = Ok (flat_map
                (bucketKeys client ("contractor_" +:+ pretty id +:+ "/"))
                buckets)
        /\ ListProjectFiles client id
           = Ok (flat_map
                   (bucketKeys client ("project_" +:+ pretty id +:+ "/"))
                   buckets)
        /\ ListSiteFiles client id
           = Ok (flat_map
                   (bucketKeys client ("site_" +:+ pretty id +:+ "/"))
                   buckets))
  /\ (forall bucket prefix obj,
        obj ∈ bucketKeys client prefix bucket ->
        Bucket obj = bucket
        /\ Key obj ∈ listedKeys (client_ListObjectsV2 client bucket prefix)
        /\ complete (client_ListObjectsV2 client bucket prefix) = true).
Proof.
  split; [|split].
  - intros err Herr.
    unfold ListContractorFiles, ListProjectFiles, ListSiteFiles,
      listAllBuckets.
    by rewrite Herr.
  - intros buckets Hbuckets.
    unfold ListContractorFiles, ListProjectFiles, ListSiteFiles,
      listAllBuckets.
    rewrite Hbuckets. by rewrite !listBuckets_keys.
  - intros bucket prefix obj. unfold bucketKeys.
    destruct (complete _); [|by intros ?%elem_of_nil].
    intros (key & -> & Hkey)%list_elem_of_fmap. done.
Qed.

End PrefixListings.

Section PrefixListingsRun.
Import Dto S3Engine TraceSpec PrefixListing.

(** The key "site_5/y.tif" of the first page of bucket "b" is not
    returned. *)
Lemma prefix_listing_skips_failed_buckets_witness :
  ListSiteFiles brokenSecondPage 5 = Ok [bucketObject "a" "site_5/x.tif"].
Proof.
  destruct (prefix_listing_skips_failed_buckets brokenSecondPage 5)
    as (_ & Hok & _).
  destruct (Hok ["a"; "b"] eq_refl) as (_ & _ & ->).
  reflexivity.
Defined.

End PrefixListingsRun.
